(** * Wechatsync core: declarative adapter interpreter and sync orchestrator

    A shallow embedding of

      - [packages/core/src/adapters/base.ts]  (BaseAdapter: request,
        requestWithRetry, delay, createResult; DSLAdapter: checkAuth,
        publish, uploadImageByUrl, getCategories, executeEndpoint and the
        expression evaluator),
      - the DSL parser, [unnamed/part_008]  (EndpointSchema,
        AdapterDSLSchema, parseDSL, createAdapterFromDSL, parseDSLFiles),
      - the adapter loader, [unnamed/part_007]  (loadAdapter, loadAdapters),
      - the sync engine, [unnamed/part_010]  (SyncEngine.sync,
        syncToPlatform, chunk, the task store with getTask, getAllTasks and
        clearCompleted),
      - two functions of [packages/core/src/lib/html-processor.ts]
        (escapeHtml, compactHtml),

    followed by the properties of these functions. Line numbers in the
    comments are those of these files ("dsl-parser", "loader" and "engine"
    for the last three).

    Conventions of the embedding.

      - JavaScript values are the inductive [JsVal]; objects are association
        lists of own data properties (no prototype chain, no functions, no
        Blob), numbers are exact rationals (no NaN, no infinities, no
        rounding to doubles).
      - Strings are sequences of 8-bit code units ([ascii]), read as the
        Latin-1 part of UTF-16.
      - Thrown values are [Error] objects carrying a message, as the casts
        [(error as Error).message] of the source declare.
      - Code that talks to the outside (transport, hooks, registry, clock)
        runs in the monad [M]: a state which survives a throw, made of the
        abstract world [W] and a ghost trace of events. Hooks act on the
        world and return values; they do not write to the context object
        they are shown.
      - Promises are run to completion where they are awaited; the workflows
        of one batch run one after the other in the order of the batch.
      - [concurrency] and [maxRetries] are integers. *)

From Stdlib Require Import String Ascii List ZArith QArith Bool Arith Lia.
From Stdlib Require Import DecimalString.
From Equations Require Import Equations.
From Equations.Prop Require Import Logic.
Import ListNotations.

Local Open Scope list_scope.
Local Open Scope nat_scope.
Local Open Scope string_scope.

Set Implicit Arguments.
Set Warnings "-register-all".

(* ------------------------------------------------------------------ *)
(** ** Exceptions *)

Inductive Exn : Type :=
| Error (message : string).

Definition message (e : Exn) : string :=
  match e with Error m => m end.

Inductive Res (A : Type) : Type :=
| Ok (a : A)
| Throw (e : Exn).

Arguments Ok {A} a.
Arguments Throw {A} e.

Definition res_bind {A B} (r : Res A) (k : A -> Res B) : Res B :=
  match r with
  | Ok a => k a
  | Throw e => Throw e
  end.

Declare Scope res_scope.
Delimit Scope res_scope with res.
Notation "x <- c ;; k" := (res_bind c (fun x => k))
  (at level 61, c at next level, right associativity) : res_scope.

Definition is_ok {A} (r : Res A) : bool :=
  match r with Ok _ => true | Throw _ => false end.

(* ------------------------------------------------------------------ *)
(** ** Characters and strings *)

Definition char_code (c : ascii) : nat := nat_of_ascii c.

(** [\s] of a JavaScript regular expression, and the white space removed by
    [String.prototype.trim], below U+0100. *)
Definition is_space (c : ascii) : bool :=
  let n := char_code c in
  (((9 <=? n) && (n <=? 13)) || (n =? 32) || (n =? 160))%nat.

(** The characters the regular expression [.] refuses. *)
Definition is_line_terminator (c : ascii) : bool :=
  let n := char_code c in ((n =? 10) || (n =? 13))%nat.

(** [\d] *)
Definition is_digit (c : ascii) : bool :=
  let n := char_code c in ((48 <=? n) && (n <=? 57))%nat.

(** [\w] *)
Definition is_word (c : ascii) : bool :=
  let n := char_code c in
  is_digit c
  || (((65 <=? n) && (n <=? 90)) || ((97 <=? n) && (n <=? 122)) || (n =? 95))%nat.

(** [[.\w]] *)
Definition is_path_char (c : ascii) : bool :=
  is_word c || (c =? ".")%char.

Fixpoint span (p : ascii -> bool) (s : string) : string * string :=
  match s with
  | EmptyString => (EmptyString, EmptyString)
  | String c r =>
      if p c then let '(a, b) := span p r in (String c a, b)
      else (EmptyString, s)
  end.

Fixpoint drop_while (p : ascii -> bool) (s : string) : string :=
  match s with
  | EmptyString => EmptyString
  | String c r => if p c then drop_while p r else s
  end.

Fixpoint string_forallb (p : ascii -> bool) (s : string) : bool :=
  match s with
  | EmptyString => true
  | String c r => p c && string_forallb p r
  end.

Fixpoint string_rev_append (s acc : string) : string :=
  match s with
  | EmptyString => acc
  | String c r => string_rev_append r (String c acc)
  end.

Definition string_rev (s : string) : string := string_rev_append s EmptyString.

Definition trimStart (s : string) : string := drop_while is_space s.
Definition trimEnd (s : string) : string :=
  string_rev (drop_while is_space (string_rev s)).
(** [String.prototype.trim] *)
Definition trim (s : string) : string := trimEnd (trimStart s).

Fixpoint last_char (s : string) : option ascii :=
  match s with
  | EmptyString => None
  | String c EmptyString => Some c
  | String _ r => last_char r
  end.

(** [s.split(c)] for a one-character separator: never the empty list. *)
Fixpoint split_on (sep : ascii) (s : string) : list string :=
  match s with
  | EmptyString => [EmptyString]
  | String c r =>
      if (c =? sep)%char then EmptyString :: split_on sep r
      else match split_on sep r with
           | [] => [String c EmptyString]
           | w :: ws => String c w :: ws
           end
  end.

(** [s.startsWith(p)] *)
Definition startsWith (p s : string) : bool := String.prefix p s.

(** [s.endsWith(p)] *)
Definition endsWith (p s : string) : bool :=
  String.prefix (string_rev p) (string_rev s).

(** [s.includes(sub)] *)
Fixpoint includes (sub s : string) : bool :=
  String.prefix sub s ||
  match s with
  | EmptyString => false
  | String _ r => includes sub r
  end.

Fixpoint string_drop (n : nat) (s : string) : string :=
  match n, s with
  | O, _ => s
  | S _, EmptyString => EmptyString
  | S n', String _ r => string_drop n' r
  end.

(** [s.slice(1, -1)] *)
Definition slice_1_m1 (s : string) : string :=
  string_rev (string_drop 1 (string_rev (string_drop 1 s))).

(** The one-character strings made of a double and of a single quote. *)
Definition dquote : string := String (ascii_of_nat 34) EmptyString.
Definition squote : string := String (ascii_of_nat 39) EmptyString.

Definition string_is_empty (s : string) : bool :=
  match s with EmptyString => true | _ => false end.

(* ------------------------------------------------------------------ *)
(** ** JavaScript values *)

Inductive JsVal : Type :=
| VUndefined
| VNull
| VBool (b : bool)
| VNum (q : Q)
| VStr (s : string)
| VArr (items : list JsVal)
| VObj (fields : list (string * JsVal)).

Definition Obj : Type := list (string * JsVal).

Fixpoint obj_get (o : Obj) (key : string) : JsVal :=
  match o with
  | [] => VUndefined
  | (k, v) :: r => if (k =? key)%string then v else obj_get r key
  end.

Fixpoint obj_has (o : Obj) (key : string) : bool :=
  match o with
  | [] => false
  | (k, _) :: r => (k =? key)%string || obj_has r key
  end.

(** [o[key] = v]: an existing key keeps its place, a new key goes last. *)
Fixpoint obj_set (o : Obj) (key : string) (v : JsVal) : Obj :=
  match o with
  | [] => [(key, v)]
  | (k, w) :: r =>
      if (k =? key)%string then (k, v) :: r else (k, w) :: obj_set r key v
  end.

(** [{...a, ...b}] *)
Definition obj_spread (a b : Obj) : Obj :=
  fold_left (fun acc kv => obj_set acc (fst kv) (snd kv)) b a.

(** ToBoolean *)
Definition truthy (v : JsVal) : bool :=
  match v with
  | VUndefined | VNull => false
  | VBool b => b
  | VNum q => negb (Qeq_bool q 0)
  | VStr s => negb (string_is_empty s)
  | VArr _ | VObj _ => true
  end.

(** [typeof v === 'object'] (true of [null]) *)
Definition typeof_object (v : JsVal) : bool :=
  match v with
  | VNull | VArr _ | VObj _ => true
  | _ => false
  end.

(** [typeof v === 'string'] *)
Definition typeof_string (v : JsVal) : bool :=
  match v with VStr _ => true | _ => false end.

Definition is_undefined (v : JsVal) : bool :=
  match v with VUndefined => true | _ => false end.

(** [v === undefined || v === null] *)
Definition is_nullish (v : JsVal) : bool :=
  match v with VUndefined | VNull => true | _ => false end.

(** Strict equality [v === p] where [p] is a primitive ([parseCompareValue]
    only yields primitives, so object identity never matters). *)
Definition strict_eq (v p : JsVal) : bool :=
  match v, p with
  | VUndefined, VUndefined => true
  | VNull, VNull => true
  | VBool a, VBool b => Bool.eqb a b
  | VNum a, VNum b => Qeq_bool a b
  | VStr a, VStr b => (a =? b)%string
  | _, _ => false
  end.

Fixpoint digits_value (s : string) (acc : N) : N :=
  match s with
  | EmptyString => acc
  | String c r => digits_value r (acc * 10 + N.of_nat (char_code c - 48))%N
  end.

(** A canonical array index: ["0"], or digits without a leading zero. *)
Definition parse_index (key : string) : option nat :=
  match key with
  | EmptyString => None
  | String c r =>
      if string_forallb is_digit key
         && (negb (c =? "0")%char || string_is_empty r)
      then Some (N.to_nat (digits_value key 0)) else None
  end.

Definition TypeError_read (key : string) : Exn :=
  Error ("Cannot read properties of undefined (reading '" ++ key ++ "')").

(** Property read [v[key]]: throws on [undefined] and [null]. *)
Definition get_prop (v : JsVal) (key : string) : Res JsVal :=
  match v with
  | VUndefined | VNull => Throw (TypeError_read key)
  | VObj o => Ok (obj_get o key)
  | VArr xs =>
      if (key =? "length")%string then Ok (VNum (inject_Z (Z.of_nat (length xs))))
      else match parse_index key with
           | Some i => Ok (nth i xs VUndefined)
           | None => Ok VUndefined
           end
  | VStr s =>
      if (key =? "length")%string
      then Ok (VNum (inject_Z (Z.of_nat (String.length s))))
      else match parse_index key with
           | Some i => match String.get i s with
                       | Some c => Ok (VStr (String c EmptyString))
                       | None => Ok VUndefined
                       end
           | None => Ok VUndefined
           end
  | VBool _ | VNum _ => Ok VUndefined
  end.

(** Optional chaining [v?.key] *)
Definition get_prop_opt (v : JsVal) (key : string) : Res JsVal :=
  if is_nullish v then Ok VUndefined else get_prop v key.

(** [a ?? b] *)
Definition nullish_or (a b : JsVal) : JsVal :=
  if is_nullish a then b else a.

(** [a || b] *)
Definition js_or (a b : JsVal) : JsVal :=
  if truthy a then a else b.

(* ------------------------------------------------------------------ *)
(** ** Library functions the adapter code imports

    [Number_toString] is the Number::toString of ECMAScript; the three text
    converters are [lib/turndown] and [lib/html-processor], which the
    specification leaves outside the core and consumes as functions from
    text to text (they may throw); [parseYaml] is the [yaml] package and
    [is_url] the test behind [z.string().url()] of zod. *)

Class Builtins : Type := {
  Number_toString : Q -> string;
  markdownToHtml : JsVal -> Res JsVal;
  htmlToMarkdown : JsVal -> JsVal -> Res JsVal;
  processHtml : JsVal -> JsVal -> Res JsVal;
  parseYaml : string -> Res JsVal;
  is_url : string -> bool
}.

Section Expressions.
Context {B : Builtins}.

(** [String(v)] *)
Fixpoint to_String (v : JsVal) : string :=
  match v with
  | VUndefined => "undefined"
  | VNull => "null"
  | VBool true => "true"
  | VBool false => "false"
  | VNum q => Number_toString q
  | VStr s => s
  | VObj _ => "[object Object]"
  | VArr xs =>
      (fix join (l : list JsVal) : string :=
         match l with
         | [] => ""
         | x :: r =>
             (if is_nullish x then "" else to_String x)
             ++ match r with [] => "" | _ => "," ++ join r end
         end) xs
  end.

(** [getNestedValue] (base.ts 470-480):
    [path.split('.').reduce((current, key) =>
       current && typeof current === 'object' ? current[key] : undefined, obj)] *)
Definition getNestedValue (obj : JsVal) (path : string) : Res JsVal :=
  fold_left
    (fun (acc : Res JsVal) (key : string) =>
       (current <- acc ;;
        if truthy current && typeof_object current
        then get_prop current key
        else Ok VUndefined)%res)
    (split_on "." path) (Ok obj).

(** One attempt of [/\{\{([^}]+)\}\}/] at the head of [s]: the captured
    group and what follows the match. *)
Definition match_placeholder (s : string) : option (string * string) :=
  match s with
  | String "{" (String "{" r) =>
      let '(body, rest) := span (fun c => negb (c =? "}")%char) r in
      match body, rest with
      | EmptyString, _ => None
      | _, String "}" (String "}" rest') => Some (body, rest')
      | _, _ => None
      end
  | _ => None
  end.

(** The replacement callback of [interpolate]. *)
Definition render_placeholder (context : JsVal) (path : string) : Res string :=
  (value <- getNestedValue context (trim path) ;;
   Ok (if negb (is_undefined value) then to_String value else ""))%res.

(** [interpolate] (base.ts 379-387): [template.replace(/.../g, callback)],
    scanning from the left; after a match the scan resumes behind it. *)
Equations? interpolate (context : JsVal) (template : string) : Res string
  by wf (String.length template) lt :=
  interpolate context EmptyString := Ok EmptyString;
  interpolate context (String c r) with inspect (match_placeholder (String c r)) := {
    | exist _ (Some (path, rest)) Hm =>
        (piece <- render_placeholder context path ;;
         tail <- interpolate context rest ;;
         Ok (piece ++ tail))%res
    | exist _ None _ =>
        (tail <- interpolate context r ;; Ok (String c tail))%res }.
Proof.
  unfold match_placeholder in Hm.
  - destruct c as [[] [] [] [] [] [] [] []]; try discriminate.
    destruct r as [|c' r']; try discriminate.
    destruct c' as [[] [] [] [] [] [] [] []]; try discriminate.
    assert (Hspan : forall p s a b, span p s = (a, b) ->
              String.length b <= String.length s).
    { clear. intros p s. induction s as [|x s IH]; intros a b H; simpl in H.
      - inversion H; subst; simpl; lia.
      - destruct (p x).
        + destruct (span p s) as [a' b'] eqn:E. inversion H; subst.
          specialize (IH _ _ eq_refl). simpl. lia.
        + inversion H; subst. simpl. lia. }
    destruct (span (fun c => negb (c =? "}")%char) r') as [body rest0] eqn:E.
    apply Hspan in E.
    destruct body; try discriminate.
    destruct rest0 as [|x1 [|x2 rest2]]; try discriminate.
    + destruct x1 as [[] [] [] [] [] [] [] []]; discriminate.
    + destruct x1 as [[] [] [] [] [] [] [] []]; try discriminate.
      destruct x2 as [[] [] [] [] [] [] [] []]; try discriminate.
      inversion Hm; subst. simpl in *. lia.
Qed.

(** [String(i)] of an array index *)
Definition index_key (i : nat) : string :=
  DecimalString.NilZero.string_of_uint (Nat.to_uint i).

(** [interpolateObject] (base.ts 392-412), over [Object.entries] of an object
    or of an array (whose keys are its indices: the copy is a plain object). *)
Fixpoint interpolateEntries (context : JsVal) (v : JsVal) : Res Obj :=
  match v with
  | VObj fs =>
      (fix go (l : list (string * JsVal)) : Res Obj :=
         match l with
         | [] => Ok []
         | (k, x) :: r =>
             (x' <- match x with
                    | VStr s => (s' <- interpolate context s ;; Ok (VStr s'))
                    | VObj _ | VArr _ =>
                        (o <- interpolateEntries context x ;; Ok (VObj o))
                    | _ => Ok x
                    end ;;
              r' <- go r ;;
              Ok ((k, x') :: r'))%res
         end) fs
  | VArr xs =>
      (fix go (i : nat) (l : list JsVal) : Res Obj :=
         match l with
         | [] => Ok []
         | x :: r =>
             (x' <- match x with
                    | VStr s => (s' <- interpolate context s ;; Ok (VStr s'))
                    | VObj _ | VArr _ =>
                        (o <- interpolateEntries context x ;; Ok (VObj o))
                    | _ => Ok x
                    end ;;
              r' <- go (S i) r ;;
              Ok ((index_key i, x') :: r'))%res
         end) 0 xs
  | _ => Ok []
  end.

Definition interpolateObject (obj : Obj) (context : JsVal) : Res Obj :=
  interpolateEntries context (VObj obj).

(** [extractValue] (base.ts 439-447) *)
Definition extractValue (path : string) (data : JsVal) : Res JsVal :=
  let normalizedPath :=
    if startsWith "$." path then string_drop 2 path
    else if startsWith "$" path then string_drop 1 path
    else path in
  getNestedValue data normalizedPath.

(** Digits to a rational: [parseInt(s, 10)] on [-?\d+]. *)
Definition parseInt10 (s : string) : Q :=
  match s with
  | String "-" r => inject_Z (- Z.of_N (digits_value r 0))
  | _ => inject_Z (Z.of_N (digits_value s 0))
  end.

(** [parseFloat] on [-?\d+\.\d+]: the decimal fraction read exactly. *)
Definition parseFloat_dec (s : string) : Q :=
  let '(neg, body) :=
    match s with String "-" r => (true, r) | _ => (false, s) end in
  let '(ip, rest) := span is_digit body in
  let fp := string_drop 1 rest in
  let num := Z.of_N (digits_value fp (digits_value ip 0)) in
  let den := Pos.pow 10 (Pos.of_nat (String.length fp)) in
  Qmake (if neg then - num else num) den.

(** [/^-?\d+$/.test(s)] *)
Definition is_int_literal (s : string) : bool :=
  let body := match s with String "-" r => r | _ => s end in
  negb (string_is_empty body) && string_forallb is_digit body.

(** [/^-?\d+\.\d+$/.test(s)] *)
Definition is_float_literal (s : string) : bool :=
  let body := match s with String "-" r => r | _ => s end in
  let '(ip, rest) := span is_digit body in
  negb (string_is_empty ip) &&
  match rest with
  | String "." fp => negb (string_is_empty fp) && string_forallb is_digit fp
  | _ => false
  end.

(** [parseCompareValue] (base.ts 452-465) *)
Definition parseCompareValue (value : string) : JsVal :=
  if (value =? "null")%string then VNull
  else if (value =? "undefined")%string then VUndefined
  else if (value =? "true")%string then VBool true
  else if (value =? "false")%string then VBool false
  else if is_int_literal value then VNum (parseInt10 value)
  else if is_float_literal value then VNum (parseFloat_dec value)
  else if (startsWith dquote value && endsWith dquote value)
          || (startsWith squote value && endsWith squote value)
       then VStr (slice_1_m1 value)
  else VStr value.

Inductive CompareOp : Type := OpNe | OpEq.

(** [path.match(/^(\$[.\w]+)\s*(!=|==)\s*(.+)$/)]: the three groups.
    [[.\w]+] is followed by a character outside its class, and [\s*] by one
    that is not white space, so only the last [\s*(.+)$] leaves a choice: the
    white space goes to [\s*] as long as one character without line terminator
    remains for [(.+)]. *)
Definition match_comparison (path : string)
  : option (string * CompareOp * string) :=
  match path with
  | String "$" r =>
      let '(run, r1) := span is_path_char r in
      if string_is_empty run then None else
      let r2 := drop_while is_space r1 in
      let after_op :=
        match r2 with
        | String "!" (String "=" r3) => Some (OpNe, r3)
        | String "=" (String "=" r3) => Some (OpEq, r3)
        | _ => None
        end in
      match after_op with
      | None => None
      | Some (op, r3) =>
          let x := drop_while is_space r3 in
          if string_is_empty x then
            match last_char r3 with
            | Some c =>
                if is_line_terminator c then None
                else Some (String "$" run, op, String c EmptyString)
            | None => None
            end
          else if string_forallb (fun c => negb (is_line_terminator c)) x
               then Some (String "$" run, op, x)
               else None
      end
  | _ => None
  end.

(** [evaluateJsonPath] (base.ts 418-434) *)
Definition evaluateJsonPath (path : string) (data : JsVal) : Res JsVal :=
  match match_comparison path with
  | Some (fieldPath, operator, compareValue) =>
      (value <- extractValue fieldPath data ;;
       let parsedCompareValue := parseCompareValue (trim compareValue) in
       match operator with
       | OpNe => Ok (VBool (negb (strict_eq value parsedCompareValue)))
       | OpEq => Ok (VBool (strict_eq value parsedCompareValue))
       end)%res
  | None => extractValue path data
  end.

End Expressions.

(* ------------------------------------------------------------------ *)
(** ** [String.prototype.replace] with a string pattern *)

(** The text before and after the first occurrence of [pat]. *)
Fixpoint find_split (pat s : string) : option (string * string) :=
  if String.prefix pat s then Some (EmptyString, string_drop (String.length pat) s)
  else match s with
       | EmptyString => None
       | String c r =>
           match find_split pat r with
           | Some (a, b) => Some (String c a, b)
           | None => None
           end
       end.

(** GetSubstitution: the dollar patterns of a replacement string (a string
    pattern has no capture groups). *)
Fixpoint get_substitution (matched before after repl : string) : string :=
  match repl with
  | EmptyString => EmptyString
  | String "$" (String "$" r) =>
      String "$" (get_substitution matched before after r)
  | String "$" (String "&" r) =>
      matched ++ get_substitution matched before after r
  | String "$" (String "`" r) =>
      before ++ get_substitution matched before after r
  | String "$" (String "'" r) =>
      after ++ get_substitution matched before after r
  | String c r => String c (get_substitution matched before after r)
  end.

(** [s.replace(pat, repl)]: the first occurrence only. *)
Definition js_replace (s pat repl : string) : string :=
  match find_split pat s with
  | Some (before, after) =>
      before ++ get_substitution pat before after repl ++ after
  | None => s
  end.

(* ------------------------------------------------------------------ *)
(** ** Adapter definitions ([adapters/types.ts]) *)

Inductive Method : Type := GET | POST | PUT | PATCH | DELETE.

Inductive ContentType : Type := CT_json | CT_form | CT_multipart.

Inductive OutputFormat : Type := OF_html | OF_markdown.

(** [EndpointDef]: the fields of [request] and of [response]. *)
Record EndpointDef : Type := {
  req_url : string;
  req_method : Method;
  req_headers : option Obj;
  req_content_type : option ContentType;
  req_body : option Obj;
  resp_success : option string;
  resp_extract : option (list (string * string));
  resp_error : option string
}.

Record HeaderRuleDef : Type := {
  url_filter : string;
  rule_headers : Obj;
  resource_types : option (list string)
}.

(** [AdapterDSL]; [endpoints] lists the endpoints that are defined. *)
Record AdapterDSL : Type := {
  name : string;
  display_name : string;
  icon : string;
  homepage : string;
  capabilities : list string;
  draft_url_template : option string;
  auth_check : EndpointDef;
  endpoints : list (string * EndpointDef);
  header_rules : option (list HeaderRuleDef);
  html_processing : option JsVal;
  output_format : option OutputFormat;
  markdown_options : JsVal;
  custom_logic : option (list (string * string))
}.

(** [dsl.endpoints.<key>] *)
Fixpoint endpoint_lookup (eps : list (string * EndpointDef)) (key : string)
  : option EndpointDef :=
  match eps with
  | [] => None
  | (k, e) :: r => if (k =? key)%string then Some e else endpoint_lookup r key
  end.

Definition endpoint (dsl : AdapterDSL) (key : string) : option EndpointDef :=
  endpoint_lookup (endpoints dsl) key.

(** A string option read as a condition: present and not empty. *)
Definition truthy_string (o : option string) : option string :=
  match o with
  | Some s => if string_is_empty s then None else Some s
  | None => None
  end.

(* ------------------------------------------------------------------ *)
(** ** Results *)

(** Modelled from the spec: the declaration of [SyncResult] in [types.ts],
    which is not among the sources (section 3: platform id, success flag,
    timestamp, optional postId, postUrl, draftOnly flag, optional error
    string). The fields are those [createResult] and [syncToPlatform]
    write. *)
Record SyncResult : Type := {
  platform : string;
  success : bool;
  timestamp : Z;
  postId : JsVal;
  postUrl : JsVal;
  draftOnly : option bool;
  error : option string
}.

(** Modelled from the spec: the declarations of [AuthResult] and [Article]
    in [types.ts], which are not among the sources. Both are kept as the
    objects the code reads and builds: [isAuthenticated] and [error] of the
    first, [html], [markdown] and [cover] of the second. *)
Definition AuthResult : Type := Obj.

Definition Article : Type := Obj.

(* ------------------------------------------------------------------ *)
(** ** Transport *)

Inductive Body : Type :=
| BodyJson (data : Obj)                       (* JSON.stringify(bodyData) *)
| BodyForm (pairs : list (string * string))   (* new URLSearchParams(bodyData) *)
| BodyMultipart (parts : list (string * string))  (* FormData *)
| BodyRaw (v : JsVal).                        (* what a hook returned *)

Record RequestInit : Type := {
  ri_method : Method;
  ri_headers : Obj;
  ri_body : option Body
}.

Record Response : Type := {
  ok : bool;
  status : Z;
  statusText : string;
  content_type_header : option string;   (* headers.get('content-type') *)
  json : Res JsVal;                      (* response.json() *)
  text : Res string                      (* response.text() *)
}.

(* ------------------------------------------------------------------ *)
(** ** Events of the ghost trace, newest first *)

Inductive Event : Type :=
| EvExecute (endpoint : EndpointDef) (context : JsVal)
    (* executeEndpoint was entered *)
| EvConsole (level : string) (text : string).
    (* console.warn / console.error *)

(* ------------------------------------------------------------------ *)
(** ** The monad of effectful code *)

Record State (W : Type) : Type := {
  world : W;
  trace : list Event
}.

Definition M (W A : Type) : Type := State W -> Res A * State W.

Definition ret {W A} (a : A) : M W A := fun st => (Ok a, st).

Definition bind {W A B} (c : M W A) (k : A -> M W B) : M W B :=
  fun st =>
    match c st with
    | (Ok a, st') => k a st'
    | (Throw e, st') => (Throw e, st')
    end.

Definition throw {W A} (e : Exn) : M W A := fun st => (Throw e, st).

(** [try { c } catch (error) { h error }] *)
Definition try_catch {W A} (c : M W A) (h : Exn -> M W A) : M W A :=
  fun st =>
    match c st with
    | (Ok a, st') => (Ok a, st')
    | (Throw e, st') => h e st'
    end.

(** A pure computation that may throw. *)
Definition lift {W A} (r : Res A) : M W A := fun st => (r, st).

(** A call into the outside world. *)
Definition ext {W A} (f : W -> Res A * W) : M W A :=
  fun st =>
    let '(r, w) := f (world st) in
    (r, {| world := w; trace := trace st |}).

Definition emit {W} (e : Event) : M W unit :=
  fun st => (Ok tt, {| world := world st; trace := e :: trace st |}).

Definition read_world {W A} (f : W -> A) : M W A :=
  fun st => (Ok (f (world st)), st).

Declare Scope m_scope.
Delimit Scope m_scope with m.
Notation "x <- c ;; k" := (bind c (fun x => k))
  (at level 61, c at next level, right associativity) : m_scope.
Notation "c ;; k" := (bind c (fun _ => k))
  (at level 61, right associativity) : m_scope.

(** The host runtime ([RuntimeInterface.fetch]), the clock, and
    [Math.random().toString(36).slice(2, 9)]. *)
Class Runtime (W : Type) : Type := {
  runtime_fetch : string -> RequestInit -> W -> Res Response * W;
  Date_now : W -> Z;
  Math_random_suffix : W -> string
}.

Definition ImageProgressCallback (W : Type) : Type := Z -> Z -> W -> W.

(** [PublishOptions] *)
Record PublishOptions (W : Type) : Type := {
  opt_draftOnly : option bool;
  opt_onImageProgress : option (ImageProgressCallback W)
}.

(** The functions an adapter is registered with ([customLogic]). *)
Record CustomLogic (W : Type) : Type := {
  process_images :
    option (JsVal -> option (ImageProgressCallback W) -> W -> Res JsVal * W);
  upload_image_by_url : option (JsVal -> W -> Res JsVal * W);
  content_transform : option (JsVal -> JsVal -> W -> Res JsVal * W);
  before_request : option (string -> JsVal -> W -> Res Obj * W);
  prepare_body : option (string -> Body -> JsVal -> W -> Res Body * W)
}.

(** Modelled from the spec: the declaration of [PlatformMeta] in
    [types.ts], which is not among the sources; the fields are those the
    constructor of [DSLAdapter] fills. *)
Record PlatformMeta : Type := {
  meta_id : string;
  meta_name : string;
  meta_icon : string;
  meta_homepage : string;
  meta_capabilities : list string
}.

(** [PlatformAdapter]: what the sync engine calls. *)
Record PlatformAdapter (W : Type) : Type := {
  pa_meta : PlatformMeta;
  pa_checkAuth : M W AuthResult;
  pa_publish : Article -> option (PublishOptions W) -> M W SyncResult
}.

(* ------------------------------------------------------------------ *)
(** ** [BaseAdapter] and [DSLAdapter] ([adapters/base.ts]) *)

Record ExecResult : Type := {
  data : JsVal;
  extracted : Obj
}.

(** The [data] argument of [createResult]. *)
Record ResultData : Type := {
  d_postId : JsVal;
  d_postUrl : JsVal;
  d_draftOnly : option bool;
  d_error : option string
}.

Section DSLAdapter.
Context {B : Builtins} {W : Type} {R : Runtime W}.
Variable dsl : AdapterDSL.
Variable customLogic : option (CustomLogic W).

(** [this.customLogic?.<name>] *)
Definition hook {T} (f : CustomLogic W -> option T) : option T :=
  match customLogic with
  | Some cl => f cl
  | None => None
  end.

(** [BaseAdapter.request] (base.ts 33-55) *)
Definition request (url : string) (options : RequestInit) : M W JsVal :=
  (response <- ext (runtime_fetch url
                 {| ri_method := ri_method options;
                    ri_headers :=
                      obj_spread [("Content-Type", VStr "application/json")]
                                 (ri_headers options);
                    ri_body := ri_body options |}) ;;
   if negb (ok response)
   then throw (Error ("HTTP " ++ Number_toString (inject_Z (status response))
                      ++ ": " ++ statusText response))
   else
     match content_type_header response with
     | Some contentType =>
         if includes "application/json" contentType
         then lift (json response)
         else (t <- lift (text response) ;; ret (VStr t))
     | None => (t <- lift (text response) ;; ret (VStr t))
     end)%m.

(** [BaseAdapter.createResult] (base.ts 91-101); [this.meta.id] is [dsl.name] *)
Definition createResult (success : bool) (d : ResultData) : M W SyncResult :=
  (now <- read_world Date_now ;;
   ret {| platform := name dsl;
          success := success;
          timestamp := now;
          postId := d_postId d;
          postUrl := d_postUrl d;
          draftOnly := d_draftOnly d;
          error := d_error d |})%m.

Definition stringify_values (o : Obj) : list (string * string) :=
  map (fun kv => (fst kv, to_String (snd kv))) o.

(** The [extract] loop of [executeEndpoint] (base.ts 366-371) *)
Definition extract_fields (paths : list (string * string)) (response : JsVal)
  : Res Obj :=
  fold_left
    (fun (acc : Res Obj) (kp : string * string) =>
       (extracted <- acc ;;
        v <- evaluateJsonPath (snd kp) response ;;
        Ok (obj_set extracted (fst kp) v))%res)
    paths (Ok []).

(** [executeEndpoint] (base.ts 303-374) *)
Definition executeEndpoint (endpoint : EndpointDef) (context : JsVal)
  : M W ExecResult :=
  (emit (EvExecute endpoint context) ;;
   url <- lift (interpolate context (req_url endpoint)) ;;
   body <- match req_body endpoint with
           | Some b =>
               (bodyData <- lift (interpolateObject b context) ;;
                ret (Some
                  match req_content_type endpoint with
                  | Some CT_multipart => BodyMultipart (stringify_values bodyData)
                  | Some CT_form => BodyForm (stringify_values bodyData)
                  | _ => BodyJson bodyData
                  end))
           | None => ret None
           end ;;
   let headers := match req_headers endpoint with Some h => h | None => [] end in
   headers <- match hook (@before_request W) with
              | Some f =>
                  (dynamicHeaders <- ext (f url context) ;;
                   ret (obj_spread headers dynamicHeaders))
              | None => ret headers
              end ;;
   body <- match body, hook (@prepare_body W) with
           | Some b, Some f => (b' <- ext (f url b context) ;; ret (Some b'))
           | _, _ => ret body
           end ;;
   response <- request url {| ri_method := req_method endpoint;
                              ri_headers := headers;
                              ri_body := body |} ;;
   match truthy_string (resp_success endpoint) with
   | Some successExpr =>
       (isSuccess <- lift (evaluateJsonPath successExpr response) ;;
        if negb (truthy isSuccess) then
          (errorMsg <- match truthy_string (resp_error endpoint) with
                       | Some errorExpr =>
                           lift (evaluateJsonPath errorExpr response)
                       | None => ret (VStr "Request failed")
                       end ;;
           throw (Error (to_String errorMsg)))
        else ret tt)
   | None => ret tt
   end ;;
   extracted <- match resp_extract endpoint with
                | Some paths => lift (extract_fields paths response)
                | None => ret []
                end ;;
   ret {| data := response; extracted := extracted |})%m.

(** [DSLAdapter.checkAuth] (base.ts 126-140) *)
Definition checkAuth : M W AuthResult :=
  try_catch
    (result <- executeEndpoint (auth_check dsl) (VObj []) ;;
     ret (obj_spread [("isAuthenticated", VBool true)] (extracted result)))%m
    (fun error =>
       ret [("isAuthenticated", VBool false);
            ("error", VStr (message error))]).

(** [{ article: workingArticle }] *)
Definition context_of (workingArticle : Obj) : Obj :=
  [("article", VObj workingArticle)].

(** The cover step of [publish] (base.ts 172-187) *)
Definition upload_cover (workingArticle : Obj) : M W Obj :=
  match hook (@upload_image_by_url W) with
  | Some upload =>
      if truthy (obj_get workingArticle "cover") then
        try_catch
          (result <- ext (upload (obj_get workingArticle "cover")) ;;
           newCover <-
             (if typeof_string result then ret result
              else
                (src <- lift (get_prop_opt result "src") ;;
                 url <- lift (get_prop_opt result "url") ;;
                 image_url <- lift (get_prop_opt result "image_url") ;;
                 ret (nullish_or src
                        (nullish_or url (nullish_or image_url (VStr ""))))))
           ;;
           ret (obj_set workingArticle "cover" newCover))%m
          (fun error =>
             (emit (EvConsole "warn"
                      ("[DSLAdapter] Failed to upload cover image: "
                       ++ message error)) ;;
              ret (obj_set workingArticle "cover" (VStr "")))%m)
      else ret workingArticle
  | None => ret workingArticle
  end.

(** The transformations of [publish] (base.ts 146-205): the working article
    that goes into the context. *)
Definition publish_transform (article : Article)
    (options : option (PublishOptions W)) : M W Obj :=
  (content <- (if truthy (obj_get article "html")
               then ret (obj_get article "html")
               else lift (markdownToHtml (obj_get article "markdown"))) ;;
   let workingArticle := obj_set article "content" content in
   (* 1. html_processing *)
   workingArticle <-
     match html_processing dsl with
     | Some opts =>
         (c <- lift (processHtml (obj_get workingArticle "content") opts) ;;
          ret (obj_set workingArticle "content" c))
     | None => ret workingArticle
     end ;;
   (* 2. process_images *)
   workingArticle <-
     match hook (@process_images W) with
     | Some f =>
         (processedContent <-
            ext (f (obj_get workingArticle "content")
                   match options with
                   | Some o => opt_onImageProgress o
                   | None => None
                   end) ;;
          ret (obj_set workingArticle "content" processedContent))
     | None => ret workingArticle
     end ;;
   (* 2.5 cover *)
   workingArticle <- upload_cover workingArticle ;;
   (* 3. content_transform *)
   workingArticle <-
     match hook (@content_transform W) with
     | Some f =>
         (c <- ext (f (obj_get workingArticle "content")
                      (VObj (context_of workingArticle))) ;;
          ret (obj_set workingArticle "content" c))
     | None => ret workingArticle
     end ;;
   (* 4. output_format *)
   match output_format dsl with
   | Some OF_markdown =>
       (c <- lift (htmlToMarkdown (obj_get workingArticle "content")
                                  (markdown_options dsl)) ;;
        ret (obj_set workingArticle "content" c))
   | _ => ret workingArticle
   end)%m.

(** [options?.draftOnly] as a condition *)
Definition wants_draftOnly (options : option (PublishOptions W)) : bool :=
  match options with
  | Some o => match opt_draftOnly o with Some b => b | None => false end
  | None => false
  end.

(** The draft steps and the terminal branch of [publish] (base.ts 207-250),
    from the context the transformations left. *)
Definition publish_steps (context : Obj)
    (options : option (PublishOptions W)) : M W SyncResult :=
  (* create_draft *)
  (dc <- match endpoint dsl "create_draft" with
         | Some create_draft =>
             (draftResult <- executeEndpoint create_draft (VObj context) ;;
              let draftId := obj_get (extracted draftResult) "draft_id" in
              ret (draftId, obj_set context "draft_id" draftId))
         | None => ret (VUndefined, context)
         end ;;
   let draftId := fst dc in
   let context := snd dc in
   (* update_draft *)
   match endpoint dsl "update_draft" with
   | Some update_draft =>
       if truthy draftId
       then (executeEndpoint update_draft (VObj context) ;; ret tt)
       else ret tt
   | None => ret tt
   end ;;
   if wants_draftOnly options then
     let draftUrl :=
       match truthy_string (draft_url_template dsl) with
       | Some template =>
           if truthy draftId
           then VStr (js_replace template "{{draft_id}}" (to_String draftId))
           else VUndefined
       | None => VUndefined
       end in
     createResult true {| d_postId := draftId; d_postUrl := draftUrl;
                          d_draftOnly := Some true; d_error := None |}
   else
     match endpoint dsl "publish" with
     | Some publish_ep =>
         (publishResult <- executeEndpoint publish_ep (VObj context) ;;
          createResult true
            {| d_postId := obj_get (extracted publishResult) "post_id";
               d_postUrl := obj_get (extracted publishResult) "post_url";
               d_draftOnly := None; d_error := None |})
     | None =>
         createResult true {| d_postId := draftId; d_postUrl := VUndefined;
                              d_draftOnly := None; d_error := None |}
     end)%m.

(** The [try] block of [publish] (base.ts 143-250) *)
Definition publish_try (article : Article)
    (options : option (PublishOptions W)) : M W SyncResult :=
  (workingArticle <- publish_transform article options ;;
   publish_steps (context_of workingArticle) options)%m.

(** [DSLAdapter.publish] (base.ts 142-256) *)
Definition publish (article : Article) (options : option (PublishOptions W))
  : M W SyncResult :=
  try_catch (publish_try article options)
    (fun error =>
       createResult false {| d_postId := VUndefined; d_postUrl := VUndefined;
                             d_draftOnly := None;
                             d_error := Some (message error) |}).

(** The [meta] the constructor builds (base.ts 117-123) *)
Definition dsl_meta : PlatformMeta :=
  {| meta_id := name dsl;
     meta_name := display_name dsl;
     meta_icon := icon dsl;
     meta_homepage := homepage dsl;
     meta_capabilities := capabilities dsl |}.

(** [new DSLAdapter(dsl, customLogic)] *)
Definition DSLAdapter : PlatformAdapter W :=
  {| pa_meta := dsl_meta;
     pa_checkAuth := checkAuth;
     pa_publish := publish |}.

End DSLAdapter.

(* ------------------------------------------------------------------ *)
(** ** The platform registry *)

Record AdapterRegistryEntry (W : Type) : Type := {
  meta : PlatformMeta;
  factory : PlatformAdapter W
}.

(** Modelled from the spec: [adapters/registry] is not among the sources.
    Section 6 gives its interface, [register(entry)] and
    [get(platformId) -> adapter | undefined]; both are parameters here, and
    both may throw. *)
Class Registry (W : Type) : Type := {
  registry_get : string -> W -> Res (option (PlatformAdapter W)) * W;
  registry_register : AdapterRegistryEntry W -> W -> Res unit * W
}.

(* ------------------------------------------------------------------ *)
(** ** The DSL parser: zod schemas as validators of parsed YAML *)

Definition ZodError (path issue : string) : Exn :=
  Error ("ZodError at " ++ path ++ ": " ++ issue).

Definition z_string (path : string) (v : JsVal) : Res string :=
  match v with
  | VStr s => Ok s
  | VUndefined => Throw (ZodError path "Required")
  | _ => Throw (ZodError path "Expected string")
  end.

Definition z_unknown (path : string) (v : JsVal) : Res JsVal := Ok v.

Definition z_optional {A} (p : string -> JsVal -> Res A)
    (path : string) (v : JsVal) : Res (option A) :=
  match v with
  | VUndefined => Ok None
  | _ => (a <- p path v ;; Ok (Some a))%res
  end.

Fixpoint enum_lookup {A} (options : list (string * A)) (s : string) : option A :=
  match options with
  | [] => None
  | (k, a) :: r => if (k =? s)%string then Some a else enum_lookup r s
  end.

Definition z_enum {A} (options : list (string * A))
    (path : string) (v : JsVal) : Res A :=
  match v with
  | VStr s =>
      match enum_lookup options s with
      | Some a => Ok a
      | None => Throw (ZodError path "Invalid enum value")
      end
  | VUndefined => Throw (ZodError path "Required")
  | _ => Throw (ZodError path "Invalid enum value")
  end.

Fixpoint traverse_fields {A} (p : string -> JsVal -> Res A) (path : string)
    (fs : list (string * JsVal)) : Res (list (string * A)) :=
  match fs with
  | [] => Ok []
  | (k, x) :: r =>
      (a <- p (path ++ "." ++ k) x ;;
       r' <- traverse_fields p path r ;;
       Ok ((k, a) :: r'))%res
  end.

Definition z_record {A} (p : string -> JsVal -> Res A)
    (path : string) (v : JsVal) : Res (list (string * A)) :=
  match v with
  | VObj fs => traverse_fields p path fs
  | VUndefined => Throw (ZodError path "Required")
  | _ => Throw (ZodError path "Expected object")
  end.

Fixpoint traverse_items {A} (p : string -> JsVal -> Res A) (path : string)
    (xs : list JsVal) : Res (list A) :=
  match xs with
  | [] => Ok []
  | x :: r =>
      (a <- p path x ;;
       r' <- traverse_items p path r ;;
       Ok (a :: r'))%res
  end.

Definition z_array {A} (p : string -> JsVal -> Res A)
    (path : string) (v : JsVal) : Res (list A) :=
  match v with
  | VArr xs => traverse_items p path xs
  | VUndefined => Throw (ZodError path "Required")
  | _ => Throw (ZodError path "Expected array")
  end.

(** The fields of a [z.object]: the value has to be an object. *)
Definition z_object (path : string) (v : JsVal) : Res Obj :=
  match v with
  | VObj o => Ok o
  | VUndefined => Throw (ZodError path "Required")
  | _ => Throw (ZodError path "Expected object")
  end.

Definition strings_as_values (l : list (string * string)) : Obj :=
  map (fun kv => (fst kv, VStr (snd kv))) l.

(** [EndpointSchema] (dsl-parser 9-22) *)
Definition EndpointSchema (path : string) (v : JsVal) : Res EndpointDef :=
  (o <- z_object path v ;;
   rq <- z_object (path ++ ".request") (obj_get o "request") ;;
   url <- z_string (path ++ ".request.url") (obj_get rq "url") ;;
   method <- z_enum [("GET", GET); ("POST", POST); ("PUT", PUT);
                     ("PATCH", PATCH); ("DELETE", DELETE)]
                    (path ++ ".request.method") (obj_get rq "method") ;;
   headers <- z_optional (z_record z_string)
                (path ++ ".request.headers") (obj_get rq "headers") ;;
   content_type <- z_optional
                     (z_enum [("json", CT_json); ("form", CT_form);
                              ("multipart", CT_multipart)])
                     (path ++ ".request.content_type")
                     (obj_get rq "content_type") ;;
   body <- z_optional (z_record z_unknown)
             (path ++ ".request.body") (obj_get rq "body") ;;
   rs <- z_object (path ++ ".response") (obj_get o "response") ;;
   success <- z_optional z_string
                (path ++ ".response.success") (obj_get rs "success") ;;
   extract <- z_optional (z_record z_string)
                (path ++ ".response.extract") (obj_get rs "extract") ;;
   error <- z_optional z_string
              (path ++ ".response.error") (obj_get rs "error") ;;
   Ok {| req_url := url;
         req_method := method;
         req_headers := option_map strings_as_values headers;
         req_content_type := content_type;
         req_body := body;
         resp_success := success;
         resp_extract := extract;
         resp_error := error |})%res.

Definition capability_names : list (string * string) :=
  map (fun c => (c, c))
      ["article"; "draft"; "image_upload"; "categories"; "tags"; "cover";
       "schedule"].

Definition HeaderRuleSchema (path : string) (v : JsVal) : Res HeaderRuleDef :=
  (o <- z_object path v ;;
   f <- z_string (path ++ ".url_filter") (obj_get o "url_filter") ;;
   h <- z_record z_string (path ++ ".headers") (obj_get o "headers") ;;
   t <- z_optional (z_array z_string)
          (path ++ ".resource_types") (obj_get o "resource_types") ;;
   Ok {| url_filter := f;
         rule_headers := strings_as_values h;
         resource_types := t |})%res.

Fixpoint defined_endpoints (l : list (string * option EndpointDef))
  : list (string * EndpointDef) :=
  match l with
  | [] => []
  | (k, Some e) :: r => (k, e) :: defined_endpoints r
  | (_, None) :: r => defined_endpoints r
  end.

Section Parser.
Context {B : Builtins}.

(** [z.string().url()] *)
Definition z_url (path : string) (v : JsVal) : Res string :=
  (s <- z_string path v ;;
   if is_url s then Ok s else Throw (ZodError path "Invalid url"))%res.

(** [AdapterDSLSchema.parse] (dsl-parser 24-54). A [z.object] keeps the keys
    of its schema only, so the fields of [AdapterDSL] the schema does not
    name come out absent. *)
Definition AdapterDSLSchema (v : JsVal) : Res AdapterDSL :=
  (o <- z_object "" v ;;
   name <- z_string "name" (obj_get o "name") ;;
   display_name <- z_string "display_name" (obj_get o "display_name") ;;
   icon <- z_string "icon" (obj_get o "icon") ;;
   homepage <- z_url "homepage" (obj_get o "homepage") ;;
   capabilities <- z_array (z_enum capability_names)
                     "capabilities" (obj_get o "capabilities") ;;
   auth <- z_object "auth" (obj_get o "auth") ;;
   check <- EndpointSchema "auth.check" (obj_get auth "check") ;;
   endpoints <- z_record (z_optional EndpointSchema)
                  "endpoints" (obj_get o "endpoints") ;;
   header_rules <- z_optional (z_array HeaderRuleSchema)
                     "header_rules" (obj_get o "header_rules") ;;
   custom_logic <- z_optional (z_record z_string)
                     "custom_logic" (obj_get o "custom_logic") ;;
   Ok {| name := name;
         display_name := display_name;
         icon := icon;
         homepage := homepage;
         capabilities := capabilities;
         draft_url_template := None;
         auth_check := check;
         endpoints := defined_endpoints endpoints;
         header_rules := header_rules;
         html_processing := None;
         output_format := None;
         markdown_options := VUndefined;
         custom_logic := custom_logic |})%res.

(** [parseDSL] (dsl-parser 59-63) *)
Definition parseDSL (yamlContent : string) : Res AdapterDSL :=
  (parsed <- parseYaml yamlContent ;;
   AdapterDSLSchema parsed)%res.

End Parser.

(* ------------------------------------------------------------------ *)
(** ** Creating and loading adapters (dsl-parser 68-99, loader) *)

Section Loader.
Context {B : Builtins} {W : Type} {R : Runtime W} {G : Registry W}.

(** [createAdapterFromDSL] (dsl-parser 68-82) *)
Definition createAdapterFromDSL (dsl : AdapterDSL)
    (customLogic : option (CustomLogic W)) : AdapterRegistryEntry W :=
  {| meta := dsl_meta dsl;
     factory := DSLAdapter dsl customLogic |}.

(** [parseDSLFiles] (dsl-parser 87-99): [files.map] with a callback that logs
    and throws again, so the first failure leaves the map. *)
Fixpoint parseDSLFiles (files : list (string * string))
  : M W (list (AdapterRegistryEntry W)) :=
  match files with
  | [] => ret []
  | (path, content) :: rest =>
      (entry <- try_catch
                  (dsl <- lift (parseDSL content) ;;
                   ret (createAdapterFromDSL dsl None))
                  (fun error =>
                     emit (EvConsole "error"
                             ("Failed to parse DSL file: " ++ path)) ;;
                     throw error) ;;
       entries <- parseDSLFiles rest ;;
       ret (entry :: entries))%m
  end.

(** [loadAdapter] (loader 8-11) *)
Definition loadAdapter (dsl : AdapterDSL)
    (customLogic : option (CustomLogic W)) : M W unit :=
  let entry := createAdapterFromDSL dsl customLogic in
  ext (registry_register entry).

(** [loadAdapters] (loader 16-24) *)
Fixpoint loadAdapters
    (adapters : list (AdapterDSL * option (CustomLogic W))) : M W unit :=
  match adapters with
  | [] => ret tt
  | (dsl, customLogic) :: rest =>
      (try_catch (loadAdapter dsl customLogic)
         (fun error =>
            emit (EvConsole "error"
                    ("Failed to load adapter " ++ name dsl ++ ":"))) ;;
       loadAdapters rest)%m
  end.

End Loader.

(* ------------------------------------------------------------------ *)
(** ** The sync engine *)

Inductive TaskStatus : Type := pending | running | completed | failed.

Record SyncTask : Type := {
  task_id : string;
  task_article : Article;
  task_platforms : list string;
  task_status : TaskStatus;
  results : list SyncResult;
  createdAt : Z;
  completedAt : option Z
}.

Record SyncOptions (W : Type) : Type := {
  concurrency : option Z;
  continueOnError : option bool;
  onProgress : option (string -> SyncResult -> W -> Res unit * W)
}.

(** [array.slice(start, stop)] on integer bounds *)
Definition js_slice {T} (array : list T) (start stop : Z) : list T :=
  let len := Z.of_nat (length array) in
  let rel (x : Z) := if (x <? 0)%Z then Z.max (len + x) 0 else Z.min x len in
  let k := rel start in
  let final := rel stop in
  firstn (Z.to_nat (final - k)) (skipn (Z.to_nat k) array).

(** The loop of [chunk] (engine 170-176); [None] when [fuel] iterations did
    not end it. *)
Fixpoint chunk_loop {T} (fuel : nat) (array : list T) (size i : Z)
  : option (list (list T)) :=
  if (i <? Z.of_nat (length array))%Z then
    match fuel with
    | O => None
    | S fuel' =>
        option_map (cons (js_slice array i (i + size)))
                   (chunk_loop fuel' array size (i + size))
    end
  else Some [].

(** [chunk]: a loop that ends does so within [length array] iterations. *)
Definition chunk {T} (array : list T) (size : Z) : option (list (list T)) :=
  chunk_loop (length array) array size 0.

(** [Promise.all]: the values in the order of the promises, or the first
    rejection. *)
Fixpoint Promise_all {A} (outcomes : list (Res A)) : Res (list A) :=
  match outcomes with
  | [] => Ok []
  | Ok a :: r => (l <- Promise_all r ;; Ok (a :: l))%res
  | Throw e :: _ => Throw e
  end.

Section SyncEngine.
Context {B : Builtins} {W : Type} {R : Runtime W} {G : Registry W}.

(** The literal result objects of [syncToPlatform] *)
Definition failure (platformId error : string) : M W SyncResult :=
  (now <- read_world Date_now ;;
   ret {| platform := platformId;
          success := false;
          timestamp := now;
          postId := VUndefined;
          postUrl := VUndefined;
          draftOnly := None;
          error := Some error |})%m.

(** The [try] block of [syncToPlatform] (engine 100-124) *)
Definition syncToPlatform_try (article : Article) (platformId : string)
  : M W SyncResult :=
  (adapter <- ext (registry_get platformId) ;;
   match adapter with
   | None =>
       failure platformId ("Platform " ++ dquote ++ platformId ++ dquote
                           ++ " not found")
   | Some adapter =>
       (auth <- pa_checkAuth adapter ;;
        if negb (truthy (obj_get auth "isAuthenticated")) then
          failure platformId
            ("Not authenticated: "
             ++ to_String (js_or (obj_get auth "error")
                                 (VStr "Please login first")))
        else pa_publish adapter article None)
   end)%m.

(** [SyncEngine.syncToPlatform] (engine 99-133) *)
Definition syncToPlatform (article : Article) (platformId : string)
  : M W SyncResult :=
  try_catch (syncToPlatform_try article platformId)
    (fun error => failure platformId (message error)).

(** One element of [batch.map(async platform => ...)] (engine 72-76) *)
Definition run_platform (article : Article)
    (onProgress : option (string -> SyncResult -> W -> Res unit * W))
    (platform : string) : M W SyncResult :=
  (result <- syncToPlatform article platform ;;
   match onProgress with
   | Some cb => ext (cb platform result)
   | None => ret tt
   end ;;
   ret result)%m.

(** The promises of one batch. Every workflow of the batch is started,
    whatever becomes of the others; they are run here one after the other in
    the order of the batch, which is also the order of the outcomes. *)
Fixpoint run_batch (article : Article)
    (onProgress : option (string -> SyncResult -> W -> Res unit * W))
    (batch : list string) (st : State W)
  : list (Res SyncResult) * State W :=
  match batch with
  | [] => ([], st)
  | platform :: rest =>
      let '(r, st1) := run_platform article onProgress platform st in
      let '(rs, st2) := run_batch article onProgress rest st1 in
      (r :: rs, st2)
  end.

(** What the loop over the batches leaves: how it ended, [task.results], and
    (ghost) the platforms whose workflow was started, in order. *)
Record LoopEnd : Type := {
  ended : Res unit;
  loop_results : list SyncResult;
  started : list string
}.

(** The loop over the batches (engine 70-85), [task.results] threaded as
    [results]: a throw leaves them as they are. *)
Fixpoint sync_batches (article : Article)
    (onProgress : option (string -> SyncResult -> W -> Res unit * W))
    (continueOnError : bool)
    (batches : list (list string))
    (results : list SyncResult) (started : list string) (st : State W)
  : LoopEnd * State W :=
  match batches with
  | [] => ({| ended := Ok tt; loop_results := results; started := started |}, st)
  | batch :: rest =>
      let '(outcomes, st1) := run_batch article onProgress batch st in
      let started' := (started ++ batch)%list in
      match Promise_all outcomes with
      | Throw e =>
          ({| ended := Throw e; loop_results := results;
              started := started' |}, st1)
      | Ok batchResults =>
          let results' := (results ++ batchResults)%list in
          if negb continueOnError
             && existsb (fun r => negb (success r)) batchResults
          then ({| ended := Ok tt; loop_results := results';
                   started := started' |}, st1)
          else sync_batches article onProgress continueOnError rest
                            results' started' st1
      end
  end.

(** [generateId] (engine 163-165) *)
Definition generateId (w : W) : string :=
  "task_" ++ Number_toString (inject_Z (Date_now w)) ++ "_"
  ++ Math_random_suffix w.

Definition option_default {A} (d : A) (o : option A) : A :=
  match o with Some a => a | None => d end.

(** The [try] block of [sync] (engine 66-85); [None] when [chunk] does not
    return. *)
Definition sync_loop (article : Article) (platforms : list string)
    (options : SyncOptions W) (st : State W) : option (LoopEnd * State W) :=
  match chunk platforms (option_default 3%Z (concurrency options)) with
  | None => None
  | Some batches =>
      Some (sync_batches article (onProgress options)
              (option_default true (continueOnError options))
              batches [] [] st)
  end.

(** [SyncEngine.sync] (engine 44-94). The entry of the task in [this.tasks]
    is the returned object itself and is not modelled apart. *)
Definition sync (article : Article) (platforms : list string)
    (options : SyncOptions W) (st : State W) : option (SyncTask * State W) :=
  match sync_loop article platforms options st with
  | None => None
  | Some (e, st1) =>
      let status :=
        match ended e with
        | Ok _ =>
            if forallb success (loop_results e) then completed else failed
        | Throw _ => failed
        end in
      Some ({| task_id := generateId (world st);
               task_article := article;
               task_platforms := platforms;
               task_status := status;
               results := loop_results e;
               createdAt := Date_now (world st);
               completedAt := Some (Date_now (world st1)) |}, st1)
  end.

End SyncEngine.

(* ------------------------------------------------------------------ *)
(** ** [BaseAdapter.requestWithRetry] (base.ts 60-86) *)

(** [setTimeout]: what the passing of [ms] milliseconds does to the world. *)
Class Timers (W : Type) : Type := {
  elapse : Z -> W -> W
}.

(** What [requestWithRetry] settles with. Its [throw lastError] throws the
    [Error] of the last attempt, or [null] when there was none. *)
Inductive Settled (A : Type) : Type :=
| Resolved (a : A)
| Rejected (lastError : option Exn).

Arguments Resolved {A} a.
Arguments Rejected {A} lastError.

(** The steps of [requestWithRetry], for its ghost log: an attempt with what
    [request] settled with, a delay with its milliseconds. *)
Inductive RetryStep : Type :=
| Attempt (outcome : Res JsVal)
| Delay (ms : Z).

Section Retry.
Context {B : Builtins} {W : Type} {R : Runtime W} {T : Timers W}.

(** [BaseAdapter.delay] (base.ts 84-86) *)
Definition delay (ms : Z) : M W unit :=
  ext (fun w => (Ok tt, elapse ms w)).

(** The loop of [requestWithRetry] (base.ts 67-76) from the index [i], with
    the steps it takes (ghost, oldest first). *)
Equations? requestWithRetry_loop (url : string) (options : RequestInit)
    (maxRetries i : Z) (lastError : option Exn) (st : State W)
  : Settled JsVal * list RetryStep * State W
  by wf (Z.to_nat (maxRetries - i)) lt :=
  requestWithRetry_loop url options maxRetries i lastError st
    with inspect (i <? maxRetries)%Z := {
    | exist _ true Hlt with request url options st := {
        | (Ok a, st1) => (Resolved a, [Attempt (Ok a)], st1)
        | (Throw error, st1) =>
            let waits := (i <? maxRetries - 1)%Z in
            let st2 := if waits then snd (delay (1000 * (i + 1)) st1) else st1 in
            let rest :=
              requestWithRetry_loop url options maxRetries (i + 1)
                                    (Some error) st2 in
            (fst (fst rest),
             Attempt (Throw error)
             :: (if waits then [Delay (1000 * (i + 1))] else [])
                ++ snd (fst rest),
             snd rest) }
    | exist _ false _ => (Rejected lastError, [], st) }.
Proof.
  apply Z.ltb_lt in Hlt. lia.
Qed.

(** [requestWithRetry] (base.ts 60-79); [maxRetries] defaults to 3. *)
Definition requestWithRetry (url : string) (options : RequestInit)
    (maxRetries : option Z) (st : State W)
  : Settled JsVal * list RetryStep * State W :=
  requestWithRetry_loop url options (option_default 3%Z maxRetries) 0 None st.

End Retry.

(* ------------------------------------------------------------------ *)
(** ** The optional methods of [DSLAdapter] (base.ts 277-298) *)

Section OptionalMethods.
Context {B : Builtins} {W : Type} {R : Runtime W}.
Variable dsl : AdapterDSL.
Variable customLogic : option (CustomLogic W).

(** [DSLAdapter.uploadImageByUrl] (base.ts 277-285):
    [result.src || result.url || result.image_url || result] *)
Definition uploadImageByUrl (imageUrl : string) : M W JsVal :=
  match hook customLogic (@upload_image_by_url W) with
  | Some upload =>
      (result <- ext (upload (VStr imageUrl)) ;;
       src <- lift (get_prop result "src") ;;
       if truthy src then ret src else
       (url <- lift (get_prop result "url") ;;
        if truthy url then ret url else
        (image_url <- lift (get_prop result "image_url") ;;
         if truthy image_url then ret image_url else ret result)))%m
  | None =>
      throw (Error "Platform does not support URL-based image upload")
  end.

(** [DSLAdapter.getCategories] (base.ts 287-298) *)
Definition getCategories : M W JsVal :=
  match endpoint dsl "get_categories" with
  | None => ret (VArr [])
  | Some get_categories =>
      (result <- executeEndpoint customLogic get_categories (VObj []) ;;
       ret (js_or (obj_get (extracted result) "categories") (VArr [])))%m
  end.

End OptionalMethods.

(* ------------------------------------------------------------------ *)
(** ** The task store of the engine (engine 35, 64, 138-158) *)

(** [Map<string, SyncTask>]: the entries in the order of insertion. *)
Definition TaskMap : Type := list (string * SyncTask).

(** [map.get(key)] *)
Fixpoint Map_get (m : TaskMap) (key : string) : option SyncTask :=
  match m with
  | [] => None
  | (k, task) :: r => if (k =? key)%string then Some task else Map_get r key
  end.

(** [map.set(key, task)]: an existing key keeps its place. *)
Fixpoint Map_set (m : TaskMap) (key : string) (task : SyncTask) : TaskMap :=
  match m with
  | [] => [(key, task)]
  | (k, t) :: r =>
      if (k =? key)%string then (k, task) :: r
      else (k, t) :: Map_set r key task
  end.

(** [map.delete(key)] *)
Fixpoint Map_delete (m : TaskMap) (key : string) : TaskMap :=
  match m with
  | [] => []
  | (k, t) :: r =>
      if (k =? key)%string then r else (k, t) :: Map_delete r key
  end.

(** [getTask] (engine 138-140) *)
Definition getTask (tasks : TaskMap) (taskId : string) : option SyncTask :=
  Map_get tasks taskId.

(** [getAllTasks] (engine 145-147) *)
Definition getAllTasks (tasks : TaskMap) : list SyncTask :=
  map snd tasks.

(** [clearCompleted] (engine 152-158): the iteration visits the entries
    the map had at the start, each once, and deletes from the map. *)
Definition clearCompleted (tasks : TaskMap) : TaskMap :=
  fold_left
    (fun (m : TaskMap) (entry : string * SyncTask) =>
       match task_status (snd entry) with
       | completed | failed => Map_delete m (fst entry)
       | _ => m
       end)
    tasks tasks.

Section TaskStore.
Context {B : Builtins} {W : Type} {R : Runtime W} {G : Registry W}.

(** [SyncEngine.sync] on an engine whose store is [tasks]. The object
    entered at line 64 is the one the method goes on writing to (lines 79,
    87-92) and returns: the writes reach the entry, which is set again here
    to the task as returned. The callbacks of this model act on the world
    and do not read the store while the run is under way. *)
Definition SyncEngine_sync (tasks : TaskMap) (article : Article)
    (platforms : list string) (options : SyncOptions W) (st : State W)
  : option (SyncTask * TaskMap * State W) :=
  let task :=
    {| task_id := generateId (world st);
       task_article := article;
       task_platforms := platforms;
       task_status := running;
       results := [];
       createdAt := Date_now (world st);
       completedAt := None |} in
  let tasks := Map_set tasks (task_id task) task in
  match sync article platforms options st with
  | None => None
  | Some (task, st') => Some (task, Map_set tasks (task_id task) task, st')
  end.

End TaskStore.

(* ------------------------------------------------------------------ *)
(** ** Notions the properties are stated with *)

(** The value at a list of keys, by descent through own properties: what
    "the value found at dotted path a.b.c" means. Below anything that is not
    an object or an array there is nothing. *)
Fixpoint value_at (v : JsVal) (keys : list string) : JsVal :=
  match keys with
  | [] => v
  | key :: rest =>
      match v with
      | VObj o => value_at (obj_get o key) rest
      | VArr xs =>
          value_at
            (if (key =? "length")%string
             then VNum (inject_Z (Z.of_nat (length xs)))
             else match parse_index key with
                  | Some i => nth i xs VUndefined
                  | None => VUndefined
                  end) rest
      | _ => value_at VUndefined rest
      end
  end.



(** The grammar of response expressions the specification names: a plain
    field path, or a field path compared with a literal. *)
Definition is_field_path (s : string) : bool :=
  let body := if startsWith "$." s then string_drop 2 s else s in
  negb (string_is_empty body) && string_forallb is_path_char body.

Definition is_quoted (s : string) : bool :=
  (2 <=? String.length s)%nat
  && ((startsWith dquote s && endsWith dquote s)
      || (startsWith squote s && endsWith squote s)).

Definition is_literal (s : string) : bool :=
  (s =? "null")%string || (s =? "undefined")%string
  || (s =? "true")%string || (s =? "false")%string
  || is_int_literal s || is_float_literal s || is_quoted s.

(** The two sides of the first [==] or [!=] of [s]. *)
Fixpoint split_at_operator (s : string) : option (string * string) :=
  match s with
  | EmptyString => None
  | String c r =>
      if String.prefix "==" s || String.prefix "!=" s
      then Some (EmptyString, string_drop 2 s)
      else match split_at_operator r with
           | Some (a, b) => Some (String c a, b)
           | None => None
           end
  end.

Definition supported_expr (s : string) : bool :=
  is_field_path s
  || match split_at_operator s with
     | Some (lhs, rhs) => is_field_path (trim lhs) && is_literal (trim rhs)
     | None => false
     end.

(** The endpoint executions of a trace, oldest first. *)
Fixpoint executions (tr : list Event) : list (EndpointDef * JsVal) :=
  match tr with
  | [] => []
  | EvExecute e c :: r => (executions r ++ [(e, c)])%list
  | _ :: r => executions r
  end.

(** The console messages of a trace, oldest first. *)
Fixpoint console (tr : list Event) : list (string * string) :=
  match tr with
  | [] => []
  | EvConsole l t :: r => (console r ++ [(l, t)])%list
  | _ :: r => console r
  end.

(** A progress callback that never throws. *)
Definition never_throws {W}
    (onProgress : option (string -> SyncResult -> W -> Res unit * W)) : Prop :=
  forall cb, onProgress = Some cb ->
    forall p r w, fst (cb p r w) = Ok tt.

(** [r] is the result of the workflow of [platformId] from some state. *)
Definition result_of {B : Builtins} {W} {R : Runtime W} {G : Registry W}
    (article : Article) (platformId : string) (r : SyncResult) : Prop :=
  exists s s', syncToPlatform article platformId s = (Ok r, s').

(** The fields of a response object that hold expressions, replaced. *)
Definition with_expressions (rs : Obj) (successExpr errorExpr : string)
    (paths : list (string * string)) : Obj :=
  obj_set (obj_set (obj_set rs "success" (VStr successExpr))
                   "error" (VStr errorExpr))
          "extract" (VObj (strings_as_values paths)).

(** A computation that leaves the trace as it is. *)
Definition keeps_trace {W A} (c : M W A) : Prop :=
  forall st, trace (snd (c st)) = trace st.


(** The result object of a failure, as [syncToPlatform] and the [catch] of
    [publish] build it. *)
Definition failure_result (platformId : string) (now : Z) (text : string)
  : SyncResult :=
  {| platform := platformId; success := false; timestamp := now;
     postId := VUndefined; postUrl := VUndefined; draftOnly := None;
     error := Some text |}.

(** The world after [register] was called on every item, in order. *)
Definition register_all {B : Builtins} {W} {R : Runtime W} {G : Registry W}
    (adapters : list (AdapterDSL * option (CustomLogic W))) (w : W) : W :=
  fold_left
    (fun w item =>
       snd (registry_register (createAdapterFromDSL (fst item) (snd item)) w))
    adapters w.

(** The messages for the items whose registration threw, in order. *)
Fixpoint load_errors {B : Builtins} {W} {R : Runtime W} {G : Registry W}
    (adapters : list (AdapterDSL * option (CustomLogic W))) (w : W)
  : list (string * string) :=
  match adapters with
  | [] => []
  | (dsl, customLogic) :: rest =>
      let '(r, w') := registry_register (createAdapterFromDSL dsl customLogic) w in
      (match r with
       | Ok _ => []
       | Throw _ =>
           [("error", ("Failed to load adapter " ++ name dsl ++ ":")%string)]
       end ++ load_errors rest w')%list
  end.

(* ------------------------------------------------------------------ *)
(** ** Escaping in [lib/html-processor.ts] *)

(** [text.replace(/c/g, replacement)] for a pattern of one character and a
    replacement without dollar sign. *)
Fixpoint replace_char (c : ascii) (replacement : string) (text : string)
  : string :=
  match text with
  | EmptyString => EmptyString
  | String x r =>
      (if (x =? c)%char then replacement else String x EmptyString)
      ++ replace_char c replacement r
  end.

(** [escapeHtml] (html-processor.ts 471-478), which [processCodeBlocks]
    applies to the text of code blocks: five replacements, one after the
    other. *)
Definition escapeHtml (text : string) : string :=
  replace_char "'" "&#039;"
    (replace_char (ascii_of_nat 34) "&quot;"
       (replace_char ">" "&gt;"
          (replace_char "<" "&lt;"
             (replace_char "&" "&amp;" text)))).

(* ------------------------------------------------------------------ *)
(** ** Compaction in [lib/html-processor.ts] *)

(** One attempt of [/>\s+</] at the head of [s]: what follows the match.
    The white space goes to [\s+] as a whole; giving some of it back leaves
    white space where the pattern wants the opening bracket. *)
Definition match_gap (s : string) : option string :=
  match s with
  | String ">" r =>
      let '(ws, rest) := span is_space r in
      match ws, rest with
      | String _ _, String "<" rest' => Some rest'
      | _, _ => None
      end
  | _ => None
  end.

(** [html.replace(/>\s+</g, '><')], scanning from the left; after a match
    the scan resumes behind it. *)
Equations? remove_gaps (html : string) : string
  by wf (String.length html) lt :=
  remove_gaps EmptyString := EmptyString;
  remove_gaps (String c r) with inspect (match_gap (String c r)) := {
    | exist _ (Some rest) Hm => "><" ++ remove_gaps rest
    | exist _ None _ => String c (remove_gaps r) }.
Proof.
  unfold match_gap in Hm.
  destruct c as [[] [] [] [] [] [] [] []]; try discriminate.
  assert (Hspan : forall p s a b, span p s = (a, b) ->
            String.length b <= String.length s).
  { clear. intros p s. induction s as [|x s IH]; intros a b H; simpl in H.
    - inversion H; subst; simpl; lia.
    - destruct (p x).
      + destruct (span p s) as [a' b'] eqn:E. inversion H; subst.
        specialize (IH _ _ eq_refl). simpl. lia.
      + inversion H; subst. simpl. lia. }
  destruct (span is_space r) as [ws rest0] eqn:E.
  apply Hspan in E.
  destruct ws; [discriminate|].
  destruct rest0 as [|x rest1]; [discriminate|].
  destruct x as [[] [] [] [] [] [] [] []]; try discriminate.
  inversion Hm; subst. simpl in *. lia.
Qed.

(** [compactHtml] (html-processor.ts 366-372) *)
Definition compactHtml (html : string) : string := trim (remove_gaps html).

(* ------------------------------------------------------------------ *)
(** ** Notions for the properties of the remaining code *)

(** The log of the attempts that failed with [errors], the first of them at
    the index [i], each followed by its delay. *)
Fixpoint failed_attempts (errors : list Exn) (i : Z) : list RetryStep :=
  match errors with
  | [] => []
  | e :: rest =>
      Attempt (Throw e) :: Delay (1000 * (i + 1)) :: failed_attempts rest (i + 1)
  end.

(** The test of [clearCompleted]. *)
Definition finished (task : SyncTask) : bool :=
  match task_status task with
  | completed | failed => true
  | _ => false
  end.








(** A computation that executes no endpoint. *)
Definition keeps_executions {W A} (c : M W A) : Prop :=
  forall st, executions (trace (snd (c st))) = executions (trace st).

(** An endpoint definition written as the document the parser reads; an
    optional field that is absent is left out. *)
Definition method_name (m : Method) : string :=
  match m with
  | GET => "GET" | POST => "POST" | PUT => "PUT" | PATCH => "PATCH"
  | DELETE => "DELETE"
  end.

Definition content_type_name (c : ContentType) : string :=
  match c with
  | CT_json => "json" | CT_form => "form" | CT_multipart => "multipart"
  end.

Definition optional_field (key : string) (v : option JsVal) : Obj :=
  match v with
  | Some x => [(key, x)]
  | None => []
  end.

Definition endpoint_document (ep : EndpointDef) : JsVal :=
  VObj
    [("request",
      VObj ([("url", VStr (req_url ep));
             ("method", VStr (method_name (req_method ep)))]
            ++ optional_field "headers" (option_map VObj (req_headers ep))
            ++ optional_field "content_type"
                 (option_map (fun c => VStr (content_type_name c))
                             (req_content_type ep))
            ++ optional_field "body" (option_map VObj (req_body ep)))%list);
     ("response",
      VObj (optional_field "success" (option_map VStr (resp_success ep))
            ++ optional_field "extract"
                 (option_map (fun l => VObj (strings_as_values l))
                             (resp_extract ep))
            ++ optional_field "error" (option_map VStr (resp_error ep)))%list)].

(** The characters of markup: angle brackets and the two quotes. *)
Definition is_markup (c : ascii) : bool :=
  ((c =? "<") || (c =? ">") || (c =? ascii_of_nat 34) || (c =? "'"))%char.

(** The text that stands for a character in escaped text. *)
Definition entity (c : ascii) : string :=
  if (c =? "&")%char then "&amp;"
  else if (c =? "<")%char then "&lt;"
  else if (c =? ">")%char then "&gt;"
  else if (c =? ascii_of_nat 34)%char then "&quot;"
  else if (c =? "'")%char then "&#039;"
  else String c EmptyString.

(** Escaping in one pass, character by character. *)
Fixpoint escape_each (text : string) : string :=
  match text with
  | EmptyString => EmptyString
  | String c r => entity c ++ escape_each r
  end.

(** No white space between a closing and an opening angle bracket, anywhere
    in [s]. *)
Definition no_gap (s : string) : Prop :=
  forall k, match_gap (string_drop k s) = None.

Definition head_char (s : string) : option ascii :=
  match s with
  | EmptyString => None
  | String c _ => Some c
  end.

(* ------------------------------------------------------------------ *)
(** ** A concrete host, for the examples *)

Module Demo.

Record World : Type := {
  clock : Z;
  cancelRequested : bool;
  fetched : list string;
  registered : list string
}.

Definition tick (url : string) (w : World) : World :=
  {| clock := clock w + 1;
     cancelRequested := cancelRequested w;
     fetched := url :: fetched w;
     registered := registered w |}.

Definition world0 : World :=
  {| clock := 1000; cancelRequested := false; fetched := []; registered := [] |}.

Definition state0 : State World := {| world := world0; trace := [] |}.

(** Exact on the integers, which is all the examples print. *)
Definition show_number (q : Q) : string :=
  NilZero.string_of_int (Z.to_int (Qnum q / Zpos (Qden q))).

Definition json_ok : JsVal :=
  VObj [("code", VNum 0);
        ("msg", VStr "title too long");
        ("data", VObj [("id", VStr "42");
                       ("url", VStr "https://example.com/p/42")])].

Definition fetch (url : string) (options : RequestInit) (w : World)
  : Res Response * World :=
  if includes "offline" url then (Throw (Error "Failed to fetch"), tick url w)
  else if includes "denied" url then
    (Ok {| ok := false; status := 401; statusText := "Unauthorized";
           content_type_header := None;
           json := Throw (Error "Unexpected end of JSON input");
           text := Ok "" |}, tick url w)
  else
    (Ok {| ok := true; status := 200; statusText := "OK";
           content_type_header := Some "application/json; charset=utf-8";
           json := Ok json_ok;
           text := Ok "" |}, tick url w).

Definition runtime : Runtime World :=
  {| runtime_fetch := fetch;
     Date_now := clock;
     Math_random_suffix := fun _ => "k3x9q2a" |}.

Definition ep (url : string) (method : Method) (body : option Obj)
    (success : option string) (extract : option (list (string * string)))
  : EndpointDef :=
  {| req_url := url; req_method := method; req_headers := None;
     req_content_type := None; req_body := body;
     resp_success := success; resp_extract := extract;
     resp_error := Some "$.message" |}.

Definition auth_ep : EndpointDef :=
  ep "https://example.com/api/me" GET None (Some "$.code == 0")
     (Some [("userId", "$.data.id")]).

Definition create_ep : EndpointDef :=
  ep "https://example.com/api/drafts" POST
     (Some [("title", VStr "{{article.title}}")])
     (Some "$.code == 0") (Some [("draft_id", "$.data.id")]).

Definition update_ep : EndpointDef :=
  ep "https://example.com/api/drafts/{{draft_id}}" PUT
     (Some [("content", VStr "{{article.content}}")])
     (Some "$.code == 0") None.

Definition adapter_dsl (name : string) (auth : EndpointDef)
    (eps : list (string * EndpointDef)) : AdapterDSL :=
  {| name := name; display_name := name;
     icon := "https://example.com/favicon.ico";
     homepage := "https://example.com/";
     capabilities := ["article"; "draft"];
     draft_url_template := Some "https://example.com/edit/{{draft_id}}";
     auth_check := auth;
     endpoints := eps;
     header_rules := None;
     html_processing := None;
     output_format := None;
     markdown_options := VUndefined;
     custom_logic := None |}.

(** Drafts only: [create_draft] and [update_draft], no [publish]. *)
Definition drafts_dsl : AdapterDSL :=
  adapter_dsl "drafts" auth_ep
    [("create_draft", create_ep); ("update_draft", update_ep)].


(** The authentication probe is refused with HTTP 401. *)
Definition denied_dsl : AdapterDSL :=
  adapter_dsl "denied"
    (ep "https://example.com/denied" GET None None None)
    [("create_draft", create_ep)].

Definition article : Article :=
  [("title", VStr "Hello"); ("html", VStr "<p>Hi</p>");
   ("markdown", VStr "Hi")].

Definition article_with_cover : Article :=
  [("title", VStr "Hello"); ("html", VStr "<p>Hi</p>");
   ("markdown", VStr "Hi"); ("cover", VStr "https://example.com/c.png")].

(** [create_draft] is answered, but its success expression is false. *)
Definition rejecting_dsl : AdapterDSL :=
  adapter_dsl "rejecting" auth_ep
    [("create_draft",
      {| req_url := "https://example.com/api/drafts"; req_method := POST;
         req_headers := None; req_content_type := None; req_body := None;
         resp_success := Some "$.code == 1"; resp_extract := None;
         resp_error := Some "$.msg" |})].

(** [create_draft] cannot be reached. *)
Definition offline_dsl : AdapterDSL :=
  adapter_dsl "offline" auth_ep
    [("create_draft", ep "https://offline.example.com/api" POST None None None)].

Definition no_hooks : CustomLogic World :=
  {| process_images := None; upload_image_by_url := None;
     content_transform := None; before_request := None;
     prepare_body := None |}.

(** The cover upload throws. *)
Definition cover_fails : CustomLogic World :=
  {| process_images := None;
     upload_image_by_url :=
       Some (fun _ w => (Throw (Error "cover host unreachable"), w));
     content_transform := None; before_request := None;
     prepare_body := None |}.

(** The content transformation throws. *)
Definition transform_fails : CustomLogic World :=
  {| process_images := None; upload_image_by_url := None;
     content_transform :=
       Some (fun _ _ w => (Throw (Error "transform failed"), w));
     before_request := None; prepare_body := None |}.

Definition builtins_with (yaml : string -> Res JsVal) : Builtins :=
  {| Number_toString := show_number;
     markdownToHtml := fun v => Ok v;
     htmlToMarkdown := fun v _ => Ok v;
     processHtml := fun v _ => Ok v;
     parseYaml := yaml;
     is_url := startsWith "https://" |}.

(** The parsed form of an endpoint document. *)
Definition endpoint_doc (url successExpr : string) : JsVal :=
  VObj [("request", VObj [("url", VStr url); ("method", VStr "GET")]);
        ("response", VObj [("success", VStr successExpr)])].

(** The parsed form of a definition whose success expression is [successExpr]. *)
Definition definition_doc (successExpr : string) : JsVal :=
  VObj [("name", VStr "example");
        ("display_name", VStr "Example");
        ("icon", VStr "https://example.com/favicon.ico");
        ("homepage", VStr "https://example.com/");
        ("capabilities", VArr [VStr "article"; VStr "draft"]);
        ("auth", VObj [("check",
                        endpoint_doc "https://example.com/api/me" successExpr)]);
        ("endpoints", VObj [])].

(** A stand-in for the YAML parser: three documents. *)
Definition yaml (content : string) : Res JsVal :=
  if (content =? "good")%string then Ok (definition_doc "$.code == 0")
  else if (content =? "odd")%string then Ok (definition_doc "$.code >= 200")
  else if (content =? "bad")%string then Ok (VObj [("name", VStr "bad")])
  else Throw (Error "YAMLParseError").

Definition builtins : Builtins := builtins_with yaml.

Definition registry : Registry World :=
  {| registry_get := fun platformId w =>
       if (platformId =? "drafts")%string then
         (Ok (Some (DSLAdapter (B := builtins) (R := runtime) drafts_dsl None)), w)
       else if (platformId =? "denied")%string then
         (Ok (Some (DSLAdapter (B := builtins) (R := runtime) denied_dsl None)), w)
       else if (platformId =? "broken")%string then
         (Throw (Error "registry unavailable"), w)
       else (Ok None, w);
     registry_register := fun entry w =>
       let key := meta_id (meta entry) in
       if (key =? "")%string then
         (Throw (Error "Adapter id is required"), w)
       else
         (Ok tt, {| clock := clock w;
                    cancelRequested := cancelRequested w;
                    fetched := fetched w;
                    registered := key :: registered w |}) |}.

(** A progress callback through which the caller asks for cancellation. *)
Definition request_cancel (p : string) (r : SyncResult) (w : World)
  : Res unit * World :=
  (Ok tt, {| clock := clock w;
             cancelRequested := true;
             fetched := fetched w;
             registered := registered w |}).

Definition options (c : Z) (continue : bool)
    (cb : option (string -> SyncResult -> World -> Res unit * World))
  : SyncOptions World :=
  {| concurrency := Some c; continueOnError := Some continue; onProgress := cb |}.

Definition publish_options (draftOnly : bool) : option (PublishOptions World) :=
  Some {| opt_draftOnly := Some draftOnly; opt_onImageProgress := None |}.

(** The run of the drafts-only definition, step by step. *)
Definition drafts_wa : Obj :=
  [("title", VStr "Hello"); ("html", VStr "<p>Hi</p>");
   ("markdown", VStr "Hi"); ("content", VStr "<p>Hi</p>")].

Definition drafts_context : Obj := [("article", VObj drafts_wa)].

Definition drafts_dr : ExecResult :=
  {| data := json_ok; extracted := [("draft_id", VStr "42")] |}.

Definition drafts_st2 : State World :=
  {| world := tick "https://example.com/api/drafts" world0;
     trace := [EvExecute create_ep (VObj drafts_context)] |}.

Definition drafts_st3 : State World :=
  {| world := tick "https://example.com/api/drafts/42" (world drafts_st2);
     trace := [EvExecute update_ep
                 (VObj (obj_set drafts_context "draft_id" (VStr "42")));
               EvExecute create_ep (VObj drafts_context)] |}.

(** Waiting moves the clock. *)
Definition timers : Timers World :=
  {| elapse := fun ms w =>
       {| clock := clock w + ms;
          cancelRequested := cancelRequested w;
          fetched := fetched w;
          registered := registered w |} |}.

(** A progress callback that throws. *)
Definition failing_progress (p : string) (r : SyncResult) (w : World)
  : Res unit * World :=
  (Throw (Error "listener failed"), w).


(** A store with a task that runs, one that completed and one that failed. *)
Definition stored_task (taskId : string) (status : TaskStatus) : SyncTask :=
  {| task_id := taskId; task_article := article; task_platforms := ["drafts"];
     task_status := status; results := []; createdAt := 0;
     completedAt := None |}.

Definition stored_tasks : TaskMap :=
  [("task_1", stored_task "task_1" running);
   ("task_2", stored_task "task_2" completed);
   ("task_3", stored_task "task_3" failed)].

(** Publication without drafts. *)
Definition publish_ep : EndpointDef :=
  ep "https://example.com/api/posts" POST
     (Some [("title", VStr "{{article.title}}")])
     (Some "$.code == 0")
     (Some [("post_id", "$.data.id"); ("post_url", "$.data.url")]).

Definition direct_dsl : AdapterDSL :=
  adapter_dsl "direct" auth_ep [("publish", publish_ep)].

(** The upload hook answers with an object whose [src] is empty. *)
Definition upload_object : CustomLogic World :=
  {| process_images := None;
     upload_image_by_url :=
       Some (fun _ w =>
               (Ok (VObj [("src", VStr "");
                          ("url", VStr "https://cdn.example.com/c.png")]), w));
     content_transform := None; before_request := None;
     prepare_body := None |}.

(** A definition with a [get_categories] endpoint. *)
Definition categories_dsl : AdapterDSL :=
  adapter_dsl "categories" auth_ep
    [("get_categories",
      ep "https://example.com/api/categories" GET None (Some "$.code == 0")
         (Some [("categories", "$.data.list")]))].

End Demo.

(* ================================================================== *)
(** * Properties *)

(* ------------------------------------------------------------------ *)
(** ** Strings *)

Lemma span_all (p : ascii -> bool) (b : string) (c : ascii) (r : string) :
  string_forallb p b = true -> p c = false ->
  span p (b ++ String c r) = (b, String c r).
Proof.
  intros Hb Hc. induction b as [|x b IH]; simpl in *.
  - rewrite Hc. reflexivity.
  - apply andb_true_iff in Hb as [Hx Hb]. rewrite Hx, (IH Hb). reflexivity.
Qed.

Lemma span_inv (p : ascii -> bool) (s a b : string) :
  span p s = (a, b) ->
  s = a ++ b /\ string_forallb p a = true.
Proof.
  revert a b. induction s as [|x s IH]; intros a b H; simpl in H.
  - inversion H; subst. split; reflexivity.
  - destruct (p x) eqn:Hx.
    + destruct (span p s) as [a' b'] eqn:E. inversion H; subst.
      destruct (IH _ _ eq_refl) as [-> Ha]. simpl. rewrite Hx, Ha.
      split; reflexivity.
    + inversion H; subst. split; reflexivity.
Qed.

Lemma string_app_assoc (a b c : string) : (a ++ b) ++ c = a ++ (b ++ c).
Proof. induction a as [|x a IH]; simpl; [reflexivity | now rewrite IH]. Qed.

Lemma string_app_nil_r (a : string) : a ++ EmptyString = a.
Proof. induction a as [|x a IH]; simpl; [reflexivity | now rewrite IH]. Qed.

Lemma string_length_app (a b : string) :
  String.length (a ++ b) = String.length a + String.length b.
Proof. induction a as [|x a IH]; simpl; [reflexivity | now rewrite IH]. Qed.

Lemma ascii_eqb_true (a b : ascii) : (a =? b)%char = true -> a = b.
Proof. apply Ascii.eqb_eq. Qed.

(* ------------------------------------------------------------------ *)
(** ** The placeholder pattern *)



(* ------------------------------------------------------------------ *)
(** ** Template interpolation and field paths *)

Section ExpressionFacts.
Context {B : Builtins}.


(** The guard of [getNestedValue] keeps the property read away from
    [undefined] and [null]. *)
Lemma guarded_read (v : JsVal) (key : string) :
  (if truthy v && typeof_object v then get_prop v key else Ok VUndefined)
  = Ok (value_at v [key]).
Proof.
  destruct v; simpl; rewrite ?andb_false_r; try reflexivity.
  destruct (key =? "length")%string; [reflexivity|].
  destruct (parse_index key); reflexivity.
Qed.


Lemma value_at_app (v : JsVal) (keys more : list string) :
  value_at v (keys ++ more)%list = value_at (value_at v keys) more.
Proof.
  revert v. induction keys as [|k r IH]; intros v; simpl; [reflexivity|].
  destruct v; apply IH.
Qed.

Lemma value_at_step (v : JsVal) (key : string) (rest : list string) :
  value_at v (key :: rest) = value_at (value_at v [key]) rest.
Proof. apply (value_at_app v [key] rest). Qed.

Lemma getNestedValue_value_at (obj : JsVal) (path : string) :
  getNestedValue obj path = Ok (value_at obj (split_on "." path)).
Proof.
  unfold getNestedValue. generalize (split_on "." path) as keys.
  intros keys. revert obj. induction keys as [|k r IH]; intros obj.
  - reflexivity.
  - cbn [fold_left res_bind]. rewrite guarded_read, IH.
    rewrite (value_at_step obj k r). reflexivity.
Qed.








End ExpressionFacts.

(* ------------------------------------------------------------------ *)
(** ** Response expressions: evaluation and validation *)

Lemma extractValue_total (path : string) (data : JsVal) :
  exists v, extractValue path data = Ok v.
Proof.
  unfold extractValue. rewrite getNestedValue_value_at. eexists; reflexivity.
Qed.

Lemma evaluateJsonPath_total (path : string) (data : JsVal) :
  exists v, evaluateJsonPath path data = Ok v.
Proof.
  unfold evaluateJsonPath.
  destruct (match_comparison path) as [[[fieldPath op] compareValue]|].
  - destruct (extractValue_total fieldPath data) as [v ->]. cbn [res_bind].
    destruct op; eexists; reflexivity.
  - apply extractValue_total.
Qed.

Lemma obj_get_set (o : Obj) (k k' : string) (v : JsVal) :
  obj_get (obj_set o k v) k' = if (k =? k')%string then v else obj_get o k'.
Proof.
  induction o as [|[k0 w] r IH]; simpl.
  - reflexivity.
  - destruct (k0 =? k)%string eqn:E0; simpl.
    + apply String.eqb_eq in E0. subst k0.
      destruct (k =? k')%string; reflexivity.
    + rewrite IH. destruct (k0 =? k')%string eqn:E1; [|reflexivity].
      apply String.eqb_eq in E1. subst k0. rewrite String.eqb_sym, E0.
      reflexivity.
Qed.

Lemma traverse_strings (loc : string) (l : list (string * string)) :
  traverse_fields z_string loc (strings_as_values l) = Ok l.
Proof.
  induction l as [|[k s] r IH]; simpl; [reflexivity|].
  rewrite IH. reflexivity.
Qed.


Lemma EndpointSchema_any_expression (loc : string) (o rs : Obj)
    (ep : EndpointDef) (successExpr errorExpr : string)
    (paths : list (string * string)) :
  obj_get o "response" = VObj rs ->
  EndpointSchema loc (VObj o) = Ok ep ->
  EndpointSchema loc
    (VObj (obj_set o "response"
             (VObj (with_expressions rs successExpr errorExpr paths))))
  = Ok {| req_url := req_url ep;
          req_method := req_method ep;
          req_headers := req_headers ep;
          req_content_type := req_content_type ep;
          req_body := req_body ep;
          resp_success := Some successExpr;
          resp_extract := Some paths;
          resp_error := Some errorExpr |}.
Proof.
  intros Hrs H. unfold EndpointSchema in *. cbn [z_object res_bind] in *.
  rewrite !obj_get_set. cbn [String.eqb Ascii.eqb Bool.eqb].
  rewrite Hrs in H. cbn [z_object res_bind] in *.
  unfold with_expressions. rewrite !obj_get_set.
  cbn [String.eqb Ascii.eqb Bool.eqb z_optional z_string z_record res_bind].
  rewrite traverse_strings. cbn [res_bind].
  repeat match type of H with
         | res_bind ?c _ = Ok _ =>
             destruct c; cbn [res_bind] in *; [|discriminate H]
         end.
  inversion H; subst ep. reflexivity.
Qed.

(** C7, as the code has it. No expression is validated when a definition is
    loaded: the endpoint schema takes every string as success expression,
    as error expression and as extract path. Evaluation never fails: a string
    that is not a comparison is read as a field path. *)
Theorem expressions_unchecked_at_load_total_at_run :
  (forall path data, exists v, evaluateJsonPath path data = Ok v)
  /\ (forall path data,
        match_comparison path = None ->
        evaluateJsonPath path data = extractValue path data)
  /\ (forall loc o rs ep successExpr errorExpr paths,
        obj_get o "response" = VObj rs ->
        EndpointSchema loc (VObj o) = Ok ep ->
        exists ep',
          EndpointSchema loc
            (VObj (obj_set o "response"
                     (VObj (with_expressions rs successExpr errorExpr paths))))
          = Ok ep'
          /\ resp_success ep' = Some successExpr
          /\ resp_error ep' = Some errorExpr
          /\ resp_extract ep' = Some paths).
Proof.
  split; [apply evaluateJsonPath_total|].
  split.
  { intros path data H. unfold evaluateJsonPath. rewrite H. reflexivity. }
  intros loc o rs ep s e ps Hrs H.
  eexists. split.
  - apply EndpointSchema_any_expression; eassumption.
  - repeat split; reflexivity.
Qed.

(** C7, as stated, fails: a definition whose success expression is outside
    the grammar is loaded, expression and all. *)
Lemma unsupported_expression_is_loaded :
  supported_expr "$.code >= 200" = false
  /\ exists dsl,
       AdapterDSLSchema (B := Demo.builtins) (Demo.definition_doc "$.code >= 200")
       = Ok dsl
       /\ parseDSL (B := Demo.builtins) "odd" = Ok dsl
       /\ resp_success (auth_check dsl) = Some "$.code >= 200".
Proof.
  split; [reflexivity|].
  eexists. split; [reflexivity|]. split; reflexivity.
Qed.

(* ------------------------------------------------------------------ *)
(** ** The monad: what leaves the trace alone *)

Section MonadFacts.
Context {W : Type}.


Lemma keeps_ret {A} (a : A) : keeps_trace (@ret W A a).
Proof. intros st. reflexivity. Qed.

Lemma keeps_throw {A} (e : Exn) : keeps_trace (@throw W A e).
Proof. intros st. reflexivity. Qed.

Lemma keeps_lift {A} (r : Res A) : keeps_trace (@lift W A r).
Proof. intros st. reflexivity. Qed.

Lemma keeps_ext {A} (f : W -> Res A * W) : keeps_trace (ext f).
Proof. intros st. unfold ext. destruct (f (world st)). reflexivity. Qed.

Lemma keeps_read_world {A} (f : W -> A) : keeps_trace (read_world f).
Proof. intros st. reflexivity. Qed.

Lemma keeps_bind {A C} (c : M W A) (k : A -> M W C) :
  keeps_trace c -> (forall a, keeps_trace (k a)) -> keeps_trace (bind c k).
Proof.
  intros Hc Hk st. unfold bind. specialize (Hc st).
  destruct (c st) as [[a|e] st1]; simpl in *.
  - rewrite Hk. exact Hc.
  - exact Hc.
Qed.

Lemma keeps_try_catch {A} (c : M W A) (h : Exn -> M W A) :
  keeps_trace c -> (forall e, keeps_trace (h e)) -> keeps_trace (try_catch c h).
Proof.
  intros Hc Hh st. unfold try_catch. specialize (Hc st).
  destruct (c st) as [[a|e] st1]; simpl in *.
  - exact Hc.
  - rewrite Hh. exact Hc.
Qed.

Lemma bind_ok {A C} (c : M W A) (k : A -> M W C) st a st1 :
  c st = (Ok a, st1) -> bind c k st = k a st1.
Proof. intros H. unfold bind. rewrite H. reflexivity. Qed.

Lemma bind_throw {A C} (c : M W A) (k : A -> M W C) st e st1 :
  c st = (Throw e, st1) -> bind c k st = (Throw e, st1).
Proof. intros H. unfold bind. rewrite H. reflexivity. Qed.

Lemma emit_then {A} (e : Event) (k : M W A) (st : State W) :
  bind (emit e) (fun _ => k) st
  = k {| world := world st; trace := e :: trace st |}.
Proof. reflexivity. Qed.

End MonadFacts.

Ltac keeps :=
  repeat first
    [ apply keeps_ret | apply keeps_throw | apply keeps_lift | apply keeps_ext
    | apply keeps_read_world
    | apply keeps_bind; [|intros ?]
    | apply keeps_try_catch; [|intros ?]
    | match goal with
      | |- keeps_trace (match ?x with _ => _ end) => destruct x
      | |- keeps_trace (if ?x then _ else _) => destruct x
      end ].

(* ------------------------------------------------------------------ *)
(** ** The adapter runtime *)

Section AdapterFacts.
Context {B : Builtins} {W : Type} {R : Runtime W}.
Variable dsl : AdapterDSL.
Variable customLogic : option (CustomLogic W).

Lemma createResult_run (ok : bool) (d : ResultData) (st : State W) :
  createResult dsl ok d st =
  (Ok {| platform := name dsl; success := ok;
         timestamp := Date_now (world st);
         postId := d_postId d; postUrl := d_postUrl d;
         draftOnly := d_draftOnly d; error := d_error d |}, st).
Proof. reflexivity. Qed.

Lemma request_keeps_trace url options :
  keeps_trace (request (W := W) url options).
Proof. unfold request. keeps. Qed.

(** An execution of an endpoint adds one event to the trace: its own. *)
Lemma executeEndpoint_trace (endpoint : EndpointDef) (context : JsVal)
    (st : State W) :
  trace (snd (executeEndpoint customLogic endpoint context st))
  = EvExecute endpoint context :: trace st.
Proof.
  unfold executeEndpoint. rewrite emit_then.
  set (s := {| world := world st;
               trace := EvExecute endpoint context :: trace st |}).
  change (EvExecute endpoint context :: trace st) with (trace s).
  generalize s.
  match goal with
  | |- forall s0, trace (snd (?c s0)) = trace s0 => change (keeps_trace c)
  end.
  keeps; apply request_keeps_trace.
Qed.

(** A transport answer that is not ok raises, with the status in the
    message; a transport that throws raises what it threw. *)
Lemma request_transport_failure (url : string) (options : RequestInit)
    (st : State W) :
  match runtime_fetch url
          {| ri_method := ri_method options;
             ri_headers := obj_spread [("Content-Type", VStr "application/json")]
                                      (ri_headers options);
             ri_body := ri_body options |} (world st) with
  | (Throw e, w) =>
      request url options st = (Throw e, {| world := w; trace := trace st |})
  | (Ok response, w) =>
      ok response = false ->
      request url options st =
      (Throw (Error ("HTTP " ++ Number_toString (inject_Z (status response))
                     ++ ": " ++ statusText response)),
       {| world := w; trace := trace st |})
  end.
Proof.
  unfold request, bind, ext.
  destruct (runtime_fetch _ _ (world st)) as [[response|e] w].
  - intros Hok. rewrite Hok. reflexivity.
  - reflexivity.
Qed.

(** The cover step never throws: a failing upload clears the cover. *)
Lemma upload_cover_contained (workingArticle : Obj) (st : State W) :
  exists wa' st',
    upload_cover customLogic workingArticle st = (Ok wa', st')
    /\ (forall upload e w,
          hook customLogic (@upload_image_by_url W) = Some upload ->
          truthy (obj_get workingArticle "cover") = true ->
          upload (obj_get workingArticle "cover") (world st) = (Throw e, w) ->
          wa' = obj_set workingArticle "cover" (VStr "")
          /\ world st' = w
          /\ console (trace st')
             = (console (trace st)
                ++ [("warn", ("[DSLAdapter] Failed to upload cover image: "
                              ++ message e)%string)])%list).
Proof.
  unfold upload_cover.
  destruct (hook customLogic (@upload_image_by_url W)) as [f|].
  2:{ eexists _, _. split; [reflexivity|]. intros u e w H. discriminate H. }
  destruct (truthy (obj_get workingArticle "cover")).
  2:{ eexists _, _. split; [reflexivity|]. intros u e w _ H. discriminate H. }
  unfold try_catch, bind, ext.
  destruct (f (obj_get workingArticle "cover") (world st)) as [[v|e] w] eqn:E.
  - destruct (typeof_string v).
    + eexists _, _. split; [reflexivity|].
      intros u e w0 Hu _ Hf. inversion Hu; subst u. rewrite E in Hf.
      discriminate Hf.
    + unfold lift, get_prop_opt.
      destruct v; cbn;
        (eexists _, _; split; [reflexivity|];
         intros u e w0 Hu _ Hf; inversion Hu; subst u; rewrite E in Hf;
         discriminate Hf).
  - eexists _, _. split; [reflexivity|].
    intros u e' w0 Hu _ Hf. inversion Hu; subst u. rewrite E in Hf.
    inversion Hf; subst. cbn. repeat split; reflexivity.
Qed.

Lemma publish_returns (article : Article)
    (options : option (PublishOptions W)) (st : State W) :
  exists r st',
    publish dsl customLogic article options st = (Ok r, st')
    /\ (forall e st1,
          publish_try dsl customLogic article options st = (Throw e, st1) ->
          st' = st1
          /\ r = {| platform := name dsl; success := false;
                    timestamp := Date_now (world st1);
                    postId := VUndefined; postUrl := VUndefined;
                    draftOnly := None; error := Some (message e) |})
    /\ (forall r0 st1,
          publish_try dsl customLogic article options st = (Ok r0, st1) ->
          st' = st1 /\ r = r0).
Proof.
  unfold publish, try_catch.
  destruct (publish_try dsl customLogic article options st) as [[r0|e] st1].
  - exists r0, st1. split; [reflexivity|]. split.
    + intros e st2 H. discriminate H.
    + intros r1 st2 H. inversion H; subst. split; reflexivity.
  - rewrite createResult_run. eexists _, st1. split; [reflexivity|]. split.
    + intros e' st2 H. inversion H; subst. split; reflexivity.
    + intros r1 st2 H. discriminate H.
Qed.

Lemma checkAuth_returns (st : State W) :
  match executeEndpoint customLogic (auth_check dsl) (VObj []) st with
  | (Ok result, st') =>
      checkAuth dsl customLogic st =
      (Ok (obj_spread [("isAuthenticated", VBool true)] (extracted result)), st')
  | (Throw e, st') =>
      checkAuth dsl customLogic st =
      (Ok [("isAuthenticated", VBool false); ("error", VStr (message e))], st')
  end.
Proof.
  unfold checkAuth, try_catch, bind.
  destruct (executeEndpoint customLogic (auth_check dsl) (VObj []) st)
    as [[result|e] st']; reflexivity.
Qed.

End AdapterFacts.

(* ------------------------------------------------------------------ *)
(** ** Objects: spreading *)

Lemma obj_has_set (o : Obj) (k k' : string) (v : JsVal) :
  obj_has (obj_set o k v) k' = (k =? k')%string || obj_has o k'.
Proof.
  induction o as [|[k0 w] r IH]; simpl.
  - rewrite orb_false_r. reflexivity.
  - destruct (k0 =? k)%string eqn:E0; simpl.
    + apply String.eqb_eq in E0. subst k0.
      destruct (k =? k')%string; reflexivity.
    + rewrite IH. destruct (k0 =? k')%string, (k =? k')%string; reflexivity.
Qed.


Lemma obj_has_false_not_in (o : Obj) (k : string) :
  obj_has o k = false -> ~ In k (map fst o).
Proof.
  induction o as [|[k0 w] r IH]; simpl; intros H; [tauto|].
  apply orb_false_iff in H as [H0 Hr]. intros [->|Hin].
  - rewrite String.eqb_refl in H0. discriminate.
  - exact (IH Hr Hin).
Qed.





(* ------------------------------------------------------------------ *)
(** ** Running a sequence of steps *)

Lemma bind_inv_ok {W A C} (c : M W A) (k : A -> M W C) st b st' :
  bind c k st = (Ok b, st') ->
  exists a st1, c st = (Ok a, st1) /\ k a st1 = (Ok b, st').
Proof.
  unfold bind. destruct (c st) as [[a|e] st1]; intros H.
  - exists a, st1. split; [reflexivity | exact H].
  - discriminate H.
Qed.

Ltac bind_inv H :=
  let a := fresh "a" in
  let s := fresh "s" in
  let Ha := fresh "Hstep" in
  apply bind_inv_ok in H as (a & s & Ha & H).

Section AuthFacts.
Context {B : Builtins} {W : Type} {R : Runtime W}.
Variable dsl : AdapterDSL.
Variable customLogic : option (CustomLogic W).



End AuthFacts.

(* ------------------------------------------------------------------ *)
(** ** The publish workflow *)


Section PublishFacts.
Context {B : Builtins} {W : Type} {R : Runtime W}.
Variable dsl : AdapterDSL.
Variable customLogic : option (CustomLogic W).

Lemma publish_after_transform article options (st st1 : State W) wa :
  publish_transform dsl customLogic article options st = (Ok wa, st1) ->
  publish dsl customLogic article options st =
  try_catch (publish_steps dsl customLogic (context_of wa) options)
    (fun error =>
       createResult dsl false
         {| d_postId := VUndefined; d_postUrl := VUndefined;
            d_draftOnly := None; d_error := Some (message error) |}) st1.
Proof.
  intros H. unfold publish, publish_try, try_catch, bind. rewrite H.
  reflexivity.
Qed.

Lemma executions_cons_execute e c tr :
  executions (EvExecute e c :: tr) = (executions tr ++ [(e, c)])%list.
Proof. reflexivity. Qed.


Ltac trace_back :=
  repeat match goal with
         | T : trace _ = _ |- _ => rewrite T; clear T
         end;
  rewrite ?executions_cons_execute; cbn [app];
  rewrite <- ?app_assoc; cbn [app]; rewrite ?app_nil_r; reflexivity.





(** C3, as the code has it. With [create_draft] and [update_draft] but no
    [publish] endpoint, and every step going through, the workflow ends
    behind the draft steps with a successful result whose [postId] is the
    extracted [draft_id]. The [draftOnly] flag and the [postUrl] built from
    [draft_url_template] are there exactly when the caller asked for
    draft-only; without that request both are absent. *)
Theorem no_publish_endpoint_result (article : Article)
    (options : option (PublishOptions W)) (st st1 st2 st3 : State W)
    (wa : Obj) (cd ud : EndpointDef) (dr : ExecResult) :
  endpoint dsl "publish" = None ->
  endpoint dsl "create_draft" = Some cd ->
  endpoint dsl "update_draft" = Some ud ->
  publish_transform dsl customLogic article options st = (Ok wa, st1) ->
  executeEndpoint customLogic cd (VObj (context_of wa)) st1 = (Ok dr, st2) ->
  (if truthy (obj_get (extracted dr) "draft_id")
   then exists ur,
       executeEndpoint customLogic ud
         (VObj (obj_set (context_of wa) "draft_id"
                  (obj_get (extracted dr) "draft_id"))) st2 = (Ok ur, st3)
   else st3 = st2) ->
  let draftId := obj_get (extracted dr) "draft_id" in
  publish dsl customLogic article options st =
  (Ok {| platform := name dsl;
         success := true;
         timestamp := Date_now (world st3);
         postId := draftId;
         postUrl :=
           if wants_draftOnly options then
             match truthy_string (draft_url_template dsl) with
             | Some template =>
                 if truthy draftId
                 then VStr (js_replace template "{{draft_id}}"
                                       (to_String draftId))
                 else VUndefined
             | None => VUndefined
             end
           else VUndefined;
         draftOnly := if wants_draftOnly options then Some true else None;
         error := None |}, st3)
  /\ executions (trace st3)
     = (executions (trace st1)
        ++ (cd, VObj (context_of wa))
           :: (if truthy draftId
               then [(ud, VObj (obj_set (context_of wa) "draft_id" draftId))]
               else []))%list.
Proof.
  intros Hp Hcd Hud Ht Hc Hu draftId.
  rewrite (publish_after_transform _ _ _ Ht).
  pose proof (executeEndpoint_trace customLogic cd (VObj (context_of wa)) st1)
    as T1.
  rewrite Hc in T1. cbn [snd] in T1.
  unfold publish_steps, try_catch, bind.
  rewrite Hcd, Hc, Hud, Hp. cbn [ret fst snd]. fold draftId in Hu |- *.
  destruct (truthy draftId).
  - destruct Hu as [ur Hu].
    pose proof (executeEndpoint_trace customLogic ud
                  (VObj (obj_set (context_of wa) "draft_id" draftId)) st2)
      as T2.
    rewrite Hu in T2 |- *. cbn [snd] in T2. cbn [ret fst snd].
    destruct (wants_draftOnly options); rewrite createResult_run;
      (split; [reflexivity | trace_back]).
  - subst st3. cbn [ret fst snd].
    destruct (wants_draftOnly options); rewrite createResult_run;
      (split; [reflexivity | ]);
      rewrite T1, executions_cons_execute; reflexivity.
Qed.

End PublishFacts.

(* ------------------------------------------------------------------ *)
(** ** The workflow of one platform *)

Section WorkflowFacts.
Context {B : Builtins} {W : Type} {R : Runtime W} {G : Registry W}.


Lemma failure_run (platformId text : string) (st : State W) :
  failure platformId text st
  = (Ok (failure_result platformId (Date_now (world st)) text), st).
Proof. reflexivity. Qed.

Lemma syncToPlatform_returns (article : Article) (platformId : string)
    (st : State W) :
  exists r st',
    syncToPlatform article platformId st = (Ok r, st')
    /\ (forall e st1,
          syncToPlatform_try article platformId st = (Throw e, st1) ->
          st' = st1
          /\ r = failure_result platformId (Date_now (world st1)) (message e))
    /\ (forall r0 st1,
          syncToPlatform_try article platformId st = (Ok r0, st1) ->
          st' = st1 /\ r = r0).
Proof.
  unfold syncToPlatform, try_catch.
  destruct (syncToPlatform_try article platformId st) as [[r0|e] st1].
  - exists r0, st1. split; [reflexivity|]. split.
    + intros e st2 H. discriminate H.
    + intros r1 st2 H. inversion H; subst. split; reflexivity.
  - rewrite failure_run. eexists _, st1. split; [reflexivity|]. split.
    + intros e' st2 H. inversion H; subst. split; reflexivity.
    + intros r1 st2 H. discriminate H.
Qed.


Lemma syncToPlatform_not_authenticated (article : Article)
    (platformId : string) (st st1 : State W) (w : W)
    (adapter : PlatformAdapter W) (auth : AuthResult) :
  registry_get platformId (world st) = (Ok (Some adapter), w) ->
  pa_checkAuth adapter {| world := w; trace := trace st |} = (Ok auth, st1) ->
  truthy (obj_get auth "isAuthenticated") = false ->
  syncToPlatform article platformId st =
  (Ok (failure_result platformId (Date_now (world st1))
         ("Not authenticated: "
          ++ to_String (js_or (obj_get auth "error")
                              (VStr "Please login first")))), st1).
Proof.
  intros H Ha Ht.
  unfold syncToPlatform, syncToPlatform_try, try_catch, bind, ext.
  rewrite H, Ha, Ht. reflexivity.
Qed.

End WorkflowFacts.

(* ------------------------------------------------------------------ *)
(** ** [chunk] *)

Section ChunkFacts.
Context {T : Type}.
Variable array : list T.
Variable size : Z.

Lemma chunk_loop_eq (fuel : nat) (i : Z) :
  chunk_loop fuel array size i =
  if (i <? Z.of_nat (length array))%Z then
    match fuel with
    | O => None
    | S fuel' =>
        option_map (cons (js_slice array i (i + size)))
                   (chunk_loop fuel' array size (i + size))
    end
  else Some [].
Proof. destruct fuel; reflexivity. Qed.

(** A size that is not positive never lets the loop end. *)
Lemma chunk_loop_diverges (fuel : nat) (i : Z) :
  (size <= 0)%Z -> (i < Z.of_nat (length array))%Z ->
  chunk_loop fuel array size i = None.
Proof.
  intros Hs. revert i. induction fuel as [|fuel IH]; intros i Hi;
    rewrite chunk_loop_eq;
    destruct (Z.ltb_spec i (Z.of_nat (length array))); try lia.
  - reflexivity.
  - rewrite IH by lia. reflexivity.
Qed.

Lemma js_slice_batch (i : Z) :
  (0 <= i < Z.of_nat (length array))%Z -> (1 <= size)%Z ->
  js_slice array i (i + size)
  = firstn (Z.to_nat size) (skipn (Z.to_nat i) array).
Proof.
  intros Hi Hs. unfold js_slice.
  destruct (Z.ltb_spec i 0); [lia|].
  destruct (Z.ltb_spec (i + size) 0); [lia|].
  rewrite (Z.min_l i) by lia.
  destruct (Z.le_ge_cases (i + size) (Z.of_nat (length array))) as [Hle|Hge].
  - rewrite Z.min_l by lia. f_equal. lia.
  - rewrite Z.min_r by lia.
    rewrite !firstn_all2; [reflexivity | |]; rewrite length_skipn; lia.
Qed.

Lemma chunk_loop_sound (fuel : nat) (i : Z) (batches : list (list T)) :
  (0 <= i)%Z ->
  chunk_loop fuel array size i = Some batches ->
  concat batches = skipn (Z.to_nat i) array
  /\ Forall (fun b => 1 <= length b /\ (Z.of_nat (length b) <= size)%Z) batches.
Proof.
  revert i batches. induction fuel as [|fuel IH]; intros i batches Hi H;
    rewrite chunk_loop_eq in H;
    destruct (Z.ltb_spec i (Z.of_nat (length array))) as [Hlt|Hge].
  - discriminate H.
  - inversion H; subst. simpl. rewrite skipn_all2 by lia. split; constructor.
  - destruct (Z.le_gt_cases size 0) as [Hs|Hs].
    { rewrite (chunk_loop_diverges fuel) in H by lia. discriminate H. }
    destruct (chunk_loop fuel array size (i + size)) as [rest|] eqn:E;
      [|discriminate H].
    inversion H; subst batches. clear H.
    destruct (IH (i + size)%Z rest) as [Hc Hf]; [lia | exact E |].
    rewrite js_slice_batch by lia. split.
    + simpl. rewrite Hc.
      replace (Z.to_nat (i + size)) with (Z.to_nat size + Z.to_nat i) by lia.
      rewrite <- skipn_skipn. apply firstn_skipn.
    + constructor; [|exact Hf].
      rewrite length_firstn, length_skipn. lia.
  - inversion H; subst. simpl. rewrite skipn_all2 by lia. split; constructor.
Qed.

Lemma chunk_loop_terminates (fuel : nat) (i : Z) :
  (1 <= size)%Z -> (0 <= i)%Z ->
  (Z.of_nat (length array) - i <= Z.of_nat fuel * size)%Z ->
  exists batches, chunk_loop fuel array size i = Some batches.
Proof.
  intros Hs. revert i. induction fuel as [|fuel IH]; intros i Hi Hf;
    rewrite chunk_loop_eq;
    destruct (Z.ltb_spec i (Z.of_nat (length array))) as [Hlt|Hge];
    try (eexists; reflexivity).
  - lia.
  - destruct (IH (i + size)%Z) as [rest Hr]; [lia | nia |].
    rewrite Hr. eexists; reflexivity.
Qed.

(** [chunk] returns exactly when the size is positive or the array empty;
    what it returns are the consecutive pieces of the array. *)
Lemma chunk_spec :
  ((1 <= size)%Z \/ array = [] -> exists batches, chunk array size = Some batches)
  /\ (forall batches,
        chunk array size = Some batches ->
        concat batches = array
        /\ Forall (fun b => 1 <= length b /\ (Z.of_nat (length b) <= size)%Z)
                  batches)
  /\ ((size <= 0)%Z -> array <> [] ->
      forall fuel, chunk_loop fuel array size 0 = None).
Proof.
  split; [|split].
  - intros [Hs | ->].
    + apply chunk_loop_terminates; [exact Hs | lia | nia].
    + exists []. reflexivity.
  - intros batches H. apply (chunk_loop_sound _ (i := 0%Z)) in H; [|lia].
    exact H.
  - intros Hs Hne fuel. apply chunk_loop_diverges; [exact Hs|].
    destruct array; [contradiction Hne; reflexivity | simpl; lia].
Qed.

End ChunkFacts.

Lemma Promise_all_oks {A} (rs : list A) : Promise_all (map Ok rs) = Ok rs.
Proof. induction rs as [|r rs IH]; simpl; [|rewrite IH]; reflexivity. Qed.

Lemma Promise_all_inv {A} (outs : list (Res A)) (rs : list A) :
  Promise_all outs = Ok rs -> outs = map Ok rs.
Proof.
  revert rs. induction outs as [|[a|e] outs IH]; intros rs H; simpl in H.
  - inversion H; reflexivity.
  - destruct (Promise_all outs) as [l|]; simpl in H; [|discriminate].
    inversion H; subst. simpl. rewrite (IH l eq_refl). reflexivity.
  - discriminate.
Qed.

(* ------------------------------------------------------------------ *)
(** ** The loop over the batches *)


Section SyncFacts.
Context {B : Builtins} {W : Type} {R : Runtime W} {G : Registry W}.
Variable article : Article.
Variable cb : option (string -> SyncResult -> W -> Res unit * W).

Lemma run_platform_result (p : string) (st st' : State W) (r : SyncResult) :
  run_platform article cb p st = (Ok r, st') -> result_of article p r.
Proof.
  unfold run_platform, bind.
  destruct (syncToPlatform_returns article p st) as (r0 & s0 & H0 & _).
  rewrite H0. destruct cb as [f|].
  - unfold ext. destruct (f p r0 (world s0)) as [[[]|e] w]; simpl;
      intros H; inversion H; subst; eexists _, _; exact H0.
  - unfold ret. intros H. inversion H; subst. eexists _, _. exact H0.
Qed.

Lemma run_platform_never_throws (p : string) (st : State W) :
  never_throws cb ->
  exists r st', run_platform article cb p st = (Ok r, st').
Proof.
  intros Hnt. unfold run_platform, bind.
  destruct (syncToPlatform_returns article p st) as (r0 & s0 & H0 & _).
  rewrite H0. destruct cb as [f|].
  - unfold ext. pose proof (Hnt f eq_refl p r0 (world s0)) as Hf.
    destruct (f p r0 (world s0)) as [x w]. simpl in Hf. subst x.
    eexists _, _. reflexivity.
  - eexists _, _. reflexivity.
Qed.

Lemma run_batch_results (batch : list string) (st st' : State W)
    (outs : list (Res SyncResult)) (rs : list SyncResult) :
  run_batch article cb batch st = (outs, st') ->
  Promise_all outs = Ok rs ->
  Forall2 (result_of article) batch rs.
Proof.
  revert st outs rs. induction batch as [|p rest IH]; intros st outs rs H HP;
    simpl in H.
  - inversion H; subst. simpl in HP. inversion HP. constructor.
  - destruct (run_platform article cb p st) as [r0 s1] eqn:E1.
    destruct (run_batch article cb rest s1) as [rs' s2] eqn:E2.
    inversion H; subst. simpl in HP.
    destruct r0 as [a|e]; [|discriminate].
    destruct (Promise_all rs') as [l|] eqn:EP; simpl in HP; [|discriminate].
    inversion HP; subst. constructor.
    + eapply run_platform_result; exact E1.
    + eapply IH; eassumption.
Qed.

Lemma run_batch_never_throws (batch : list string) (st : State W) :
  never_throws cb ->
  exists rs st', run_batch article cb batch st = (map Ok rs, st').
Proof.
  intros Hnt. revert st. induction batch as [|p rest IH]; intros st; simpl.
  - exists [], st. reflexivity.
  - destruct (run_platform_never_throws p st Hnt) as (r & s1 & ->).
    destruct (IH s1) as (rs & s2 & ->).
    exists (r :: rs), s2. reflexivity.
Qed.

Lemma no_failure_all_succeed (rs : list SyncResult) :
  existsb (fun r => negb (success r)) rs = false ->
  Forall (fun r => success r = true) rs.
Proof.
  induction rs as [|r rs IH]; simpl; intros H; constructor.
  - apply orb_false_iff in H as [H _]. now apply negb_false_iff in H.
  - apply IH. apply orb_false_iff in H as [_ H]. exact H.
Qed.

Lemma failure_not_in_successes (res0 rs : list SyncResult) (i : nat)
    (r : SyncResult) :
  Forall (fun r => success r = true) res0 ->
  nth_error (res0 ++ rs)%list i = Some r -> success r = false ->
  length res0 <= i < length res0 + length rs.
Proof.
  intros Hall Hn Hf. split.
  - destruct (Nat.le_gt_cases (length res0) i) as [Hle|Hlt]; [exact Hle|].
    rewrite nth_error_app1 in Hn by exact Hlt.
    apply nth_error_In in Hn. rewrite Forall_forall in Hall.
    rewrite (Hall _ Hn) in Hf. discriminate.
  - rewrite <- length_app. apply nth_error_Some. congruence.
Qed.

(** With [continueOnError = false], a failing result sits in the last batch
    that was started. *)
Lemma sync_batches_failure_stops (batches : list (list string))
    (res0 : list SyncResult) (sl0 : list string) (st st' : State W)
    (e : LoopEnd) :
  sync_batches article cb false batches res0 sl0 st = (e, st') ->
  Forall (fun r => success r = true) res0 ->
  forall i r,
    nth_error (loop_results e) i = Some r -> success r = false ->
    exists k rs,
      k < length batches
      /\ length res0 + length (concat (firstn k batches)) <= i
      /\ i < length res0 + length (concat (firstn (S k) batches))
      /\ started e = (sl0 ++ concat (firstn (S k) batches))%list
      /\ loop_results e = (res0 ++ rs)%list
      /\ Forall2 (result_of article) (concat (firstn (S k) batches)) rs
      /\ ended e = Ok tt.
Proof.
  revert res0 sl0 st. induction batches as [|b rest IH];
    intros res0 sl0 st H Hall i r Hn Hf; simpl in H.
  - inversion H; subst. simpl in Hn.
    rewrite <- (app_nil_r res0) in Hn.
    pose proof (failure_not_in_successes _ _ Hall Hn Hf). simpl in *. lia.
  - destruct (run_batch article cb b st) as [outs s1] eqn:Eb.
    destruct (Promise_all outs) as [brs|err] eqn:EP.
    + pose proof (run_batch_results _ _ Eb EP) as HF2.
      pose proof (Forall2_length HF2) as HL.
      cbn [negb andb] in H.
      destruct (existsb (fun r => negb (success r)) brs) eqn:Ex.
      * inversion H; subst. simpl in *.
        pose proof (failure_not_in_successes _ _ Hall Hn Hf) as Hi.
        exists 0, brs. simpl. rewrite app_nil_r.
        repeat split; try lia; try assumption.
      * assert (Hall' : Forall (fun r => success r = true) (res0 ++ brs)%list).
        { apply Forall_app. split; [exact Hall|].
          apply no_failure_all_succeed, Ex. }
        destruct (IH _ _ _ H Hall' i r Hn Hf)
          as (k & rs & Hk & Hlo & Hhi & Hst & Hres & HF & Hend).
        exists (S k), (brs ++ rs)%list. rewrite length_app in *.
        change (firstn (S (S k)) (b :: rest)) with (b :: firstn (S k) rest).
        change (firstn (S k) (b :: rest)) with (b :: firstn k rest).
        cbn [concat length]. rewrite !length_app.
        repeat split; try lia.
        -- rewrite Hst. rewrite <- app_assoc. reflexivity.
        -- rewrite Hres. rewrite <- app_assoc. reflexivity.
        -- apply Forall2_app; assumption.
        -- exact Hend.
    + inversion H; subst. simpl in Hn.
      rewrite <- (app_nil_r res0) in Hn.
      pose proof (failure_not_in_successes _ _ Hall Hn Hf). simpl in *. lia.
Qed.

(** With a callback that never throws, the loop ends regularly after some
    number of batches, with one result for each platform of these batches,
    in their order; it runs all batches unless it stops at a failure. *)
Lemma sync_batches_never_throws (continue : bool)
    (batches : list (list string)) (res0 : list SyncResult)
    (sl0 : list string) (st : State W) :
  never_throws cb ->
  exists e st' k rs,
    sync_batches article cb continue batches res0 sl0 st = (e, st')
    /\ ended e = Ok tt
    /\ k <= length batches
    /\ started e = (sl0 ++ concat (firstn k batches))%list
    /\ loop_results e = (res0 ++ rs)%list
    /\ Forall2 (result_of article) (concat (firstn k batches)) rs
    /\ (continue = true -> k = length batches)
    /\ (k < length batches ->
        existsb (fun r => negb (success r)) rs = true).
Proof.
  intros Hnt. revert res0 sl0 st.
  induction batches as [|b rest IH]; intros res0 sl0 st.
  - eexists _, st, 0, []. simpl. rewrite !app_nil_r.
    repeat split; try reflexivity; try lia. constructor.
  - simpl.
    destruct (run_batch_never_throws b st Hnt) as (brs & s1 & Eb).
    rewrite Eb, Promise_all_oks.
    pose proof (run_batch_results _ _ Eb (Promise_all_oks brs)) as HF2.
    destruct (negb continue && existsb (fun r => negb (success r)) brs)
      eqn:Estop.
    + apply andb_true_iff in Estop as [Hc Hex].
      eexists _, s1, 1, brs. simpl. rewrite !app_nil_r.
      repeat split; try reflexivity; try lia; try assumption.
      * intros ->. discriminate Hc.
      * intros _. exact Hex.
    + destruct (IH (res0 ++ brs)%list (sl0 ++ b)%list s1)
        as (e & st' & k & rs & Hrun & Hend & Hk & Hst & Hres & HF & Hall & Hex).
      exists e, st', (S k), (brs ++ rs)%list. simpl.
      repeat split; try assumption; try lia.
      * rewrite Hst, <- app_assoc. reflexivity.
      * rewrite Hres, <- app_assoc. reflexivity.
      * apply Forall2_app; assumption.
      * intros Hc. rewrite (Hall Hc). reflexivity.
      * intros Hlt. rewrite existsb_app, Hex by lia. apply orb_true_r.
Qed.

End SyncFacts.

(* ------------------------------------------------------------------ *)
(** ** The sync engine *)

Section EngineFacts.
Context {B : Builtins} {W : Type} {R : Runtime W} {G : Registry W}.

Lemma sync_of_loop (article : Article) (platforms : list string)
    (options : SyncOptions W) (st st' : State W) (e : LoopEnd) :
  sync_loop article platforms options st = Some (e, st') ->
  exists task,
    sync article platforms options st = Some (task, st')
    /\ results task = loop_results e
    /\ task_platforms task = platforms
    /\ task_status task =
       match ended e with
       | Ok _ => if forallb success (loop_results e) then completed else failed
       | Throw _ => failed
       end.
Proof.
  intros H. unfold sync. rewrite H. eexists. repeat split; reflexivity.
Qed.

Lemma failing_result_fails_task (rs : list SyncResult) (i : nat)
    (r : SyncResult) :
  nth_error rs i = Some r -> success r = false -> forallb success rs = false.
Proof.
  intros Hn Hf. apply nth_error_In in Hn.
  destruct (forallb success rs) eqn:E; [|reflexivity].
  rewrite forallb_forall in E. rewrite (E _ Hn) in Hf. discriminate.
Qed.



(** C2. With [continueOnError = false], whatever the concurrency and the
    platform list: when a result with [success = false] is among the
    results, the batch it belongs to is the last one that was started. The
    platforms started are those of the batches up to and including that
    batch; [task.results] holds the result of the workflow of each of them,
    in their order (the successful ones of the failing batch too), and
    nothing else: the platforms of the later batches are neither started
    nor given any result. *)
Theorem failing_batch_ends_scheduling (article : Article)
    (platforms : list string) (c : Z)
    (cb : option (string -> SyncResult -> W -> Res unit * W))
    (st st' : State W) (e : LoopEnd) (i : nat) (r : SyncResult) :
  sync_loop article platforms
    {| concurrency := Some c; continueOnError := Some false;
       onProgress := cb |} st = Some (e, st') ->
  nth_error (loop_results e) i = Some r ->
  success r = false ->
  exists batches k task,
    chunk platforms c = Some batches
    /\ concat batches = platforms
    /\ k < length batches
    /\ length (concat (firstn k batches)) <= i
    /\ i < length (concat (firstn (S k) batches))
    /\ started e = concat (firstn (S k) batches)
    /\ platforms = (started e ++ concat (skipn (S k) batches))%list
    /\ sync article platforms
         {| concurrency := Some c; continueOnError := Some false;
            onProgress := cb |} st = Some (task, st')
    /\ results task = loop_results e
    /\ Forall2 (result_of article) (started e) (results task)
    /\ task_status task = failed.
Proof.
  intros H Hn Hf.
  destruct (sync_of_loop _ _ _ _ H) as (task & Hs & Hr & _ & Hst).
  unfold sync_loop in H. cbn [concurrency continueOnError onProgress
                              option_default] in H.
  destruct (chunk platforms c) as [batches|] eqn:Ec; [|discriminate H].
  inversion H as [H']. clear H.
  destruct (proj1 (proj2 (chunk_spec platforms c)) _ Ec) as [Hcat _].
  destruct (sync_batches_failure_stops _ _ _ _ _ H' (Forall_nil _) _ Hn Hf)
    as (k & rs & Hk & Hlo & Hhi & Hstart & Hres & HF & Hend).
  cbn [length Nat.add app] in Hlo, Hhi, Hstart, Hres.
  exists batches, k, task.
  repeat split; try assumption.
  - rewrite Hstart, <- concat_app, firstn_skipn. symmetry. exact Hcat.
  - rewrite Hr, Hres, Hstart. exact HF.
  - rewrite Hst, Hend, (failing_result_fails_task _ _ Hn Hf). reflexivity.
Qed.


(** C4, as the code has it. Nothing in the world stops the loop: from
    every state, with a positive concurrency, [continueOnError] true or left
    out and a progress callback that does not throw, every platform is
    started and has the result of its workflow among the results. *)
Theorem every_batch_runs_whatever_the_world (article : Article)
    (platforms : list string) (c : Z) (continue : option bool)
    (cb : option (string -> SyncResult -> W -> Res unit * W))
    (st : State W) :
  (1 <= c)%Z ->
  never_throws cb ->
  option_default true continue = true ->
  exists e st',
    sync_loop article platforms
      {| concurrency := Some c; continueOnError := continue;
         onProgress := cb |} st = Some (e, st')
    /\ ended e = Ok tt
    /\ started e = platforms
    /\ Forall2 (result_of article) platforms (loop_results e).
Proof.
  intros Hc Hnt Hcont.
  destruct (proj1 (chunk_spec platforms c) (or_introl Hc)) as [batches Ec].
  destruct (proj1 (proj2 (chunk_spec platforms c)) _ Ec) as [Hcat _].
  destruct (sync_batches_never_throws article (option_default true continue)
              batches [] [] st Hnt)
    as (e & st' & k & rs & Hrun & Hend & Hk & Hst & Hres & HF & Hall & _).
  simpl in Hst, Hres. rewrite (Hall Hcont), firstn_all, Hcat in Hst, HF.
  exists e, st'. repeat split; try assumption.
  - unfold sync_loop.
    cbn [concurrency continueOnError onProgress option_default].
    rewrite Ec, Hrun. reflexivity.
  - rewrite Hres. exact HF.
Qed.

End EngineFacts.

(* ------------------------------------------------------------------ *)
(** ** Loading definitions in batches *)

Section LoaderFacts.
Context {B : Builtins} {W : Type} {R : Runtime W} {G : Registry W}.

Lemma parseDSLFiles_first_failure (valid rest : list (string * string))
    (path content : string) (e : Exn) (st : State W) :
  Forall (fun f => is_ok (parseDSL (snd f)) = true) valid ->
  parseDSL content = Throw e ->
  parseDSLFiles (valid ++ (path, content) :: rest)%list st =
  (Throw e,
   {| world := world st;
      trace := EvConsole "error" ("Failed to parse DSL file: " ++ path)
               :: trace st |}).
Proof.
  intros Hv He. induction Hv as [|[p c] valid Hok _ IH].
  - cbn [app parseDSLFiles]. unfold bind, try_catch, lift.
    rewrite He. reflexivity.
  - cbn [app parseDSLFiles]. unfold bind at 1. unfold try_catch, lift.
    unfold bind at 1. simpl in Hok.
    destruct (parseDSL c) as [dsl|]; [|discriminate Hok].
    cbn [ret]. unfold bind. rewrite IH. reflexivity.
Qed.

Lemma parseDSLFiles_all_valid (files : list (string * string)) (st : State W) :
  Forall (fun f => is_ok (parseDSL (snd f)) = true) files ->
  exists entries,
    parseDSLFiles files st = (Ok entries, st)
    /\ length entries = length files.
Proof.
  intros Hv. induction Hv as [|[p c] files Hok _ (entries & IH & Hlen)].
  - exists []. split; reflexivity.
  - cbn [parseDSLFiles]. unfold bind at 1. unfold try_catch, lift.
    unfold bind at 1. simpl in Hok.
    destruct (parseDSL c) as [dsl|]; [|discriminate Hok].
    cbn [ret]. unfold bind. rewrite IH. eexists. split; [reflexivity|].
    simpl. rewrite Hlen. reflexivity.
Qed.


Lemma loadAdapters_total
    (adapters : list (AdapterDSL * option (CustomLogic W))) (st : State W) :
  exists st',
    loadAdapters adapters st = (Ok tt, st')
    /\ world st' = register_all adapters (world st)
    /\ console (trace st')
       = (console (trace st) ++ load_errors adapters (world st))%list.
Proof.
  revert st. induction adapters as [|[dsl cl] rest IH]; intros st.
  - exists st. cbn. rewrite app_nil_r. repeat split; reflexivity.
  - cbn [loadAdapters load_errors]. unfold register_all. cbn [fold_left fst snd].
    unfold bind at 1. unfold try_catch, loadAdapter, ext.
    destruct (registry_register (createAdapterFromDSL dsl cl) (world st))
      as [[[]|e] w'] eqn:E.
    + destruct (IH {| world := w'; trace := trace st |})
        as (st' & Hrun & Hw & Hc).
      exists st'. rewrite Hrun. repeat split; assumption.
    + cbn [emit].
      destruct (IH {| world := w';
                      trace := EvConsole "error"
                                 ("Failed to load adapter " ++ name dsl ++ ":")
                               :: trace st |})
        as (st' & Hrun & Hw & Hc).
      exists st'. cbn [world trace] in *. rewrite Hrun.
      repeat split; try assumption.
      rewrite Hc. cbn [console]. rewrite <- app_assoc. reflexivity.
Qed.

(** C8, as the code has it. [parseDSLFiles] logs the first file that does
    not parse or validate and throws its error again: it returns no entry at
    all, and the files behind are not looked at. When every file is valid it
    returns one entry for each. [loadAdapters] is the best-effort one: it
    never throws, offers every item to the registry in order, and logs one
    message for each item whose registration threw. *)
Theorem batch_loading_policies :
  (forall valid rest path content e (st : State W),
     Forall (fun f => is_ok (parseDSL (snd f)) = true) valid ->
     parseDSL content = Throw e ->
     parseDSLFiles (valid ++ (path, content) :: rest)%list st =
     (Throw e,
      {| world := world st;
         trace := EvConsole "error" ("Failed to parse DSL file: " ++ path)
                  :: trace st |}))
  /\ (forall files (st : State W),
        Forall (fun f => is_ok (parseDSL (snd f)) = true) files ->
        exists entries,
          parseDSLFiles files st = (Ok entries, st)
          /\ length entries = length files)
  /\ (forall adapters (st : State W),
        exists st',
          loadAdapters adapters st = (Ok tt, st')
          /\ world st' = register_all adapters (world st)
          /\ console (trace st')
             = (console (trace st) ++ load_errors adapters (world st))%list).
Proof.
  split; [apply parseDSLFiles_first_failure|].
  split; [apply parseDSLFiles_all_valid | apply loadAdapters_total].
Qed.

End LoaderFacts.

(* ================================================================== *)
(** * The properties on the concrete host *)

Lemma never_throws_request_cancel : never_throws (Some Demo.request_cancel).
Proof. intros cb H p r w. inversion H. reflexivity. Defined.

(** C2 at work: four platforms in batches of two, the second platform is
    not registered; the second batch is never started. *)
Lemma failing_batch_witness :
  exists e st' r,
    sync_loop (B := Demo.builtins) (R := Demo.runtime) (G := Demo.registry)
      Demo.article ["drafts"; "nope"; "denied"; "drafts"]
      {| concurrency := Some 2%Z; continueOnError := Some false;
         onProgress := None |} Demo.state0 = Some (e, st')
    /\ nth_error (loop_results e) 1 = Some r
    /\ success r = false
    /\ exists batches k task,
         chunk ["drafts"; "nope"; "denied"; "drafts"] 2 = Some batches
         /\ concat batches = ["drafts"; "nope"; "denied"; "drafts"]
         /\ k < length batches
         /\ length (concat (firstn k batches)) <= 1
         /\ 1 < length (concat (firstn (S k) batches))
         /\ started e = concat (firstn (S k) batches)
         /\ ["drafts"; "nope"; "denied"; "drafts"]
            = (started e ++ concat (skipn (S k) batches))%list
         /\ sync (B := Demo.builtins) (R := Demo.runtime) (G := Demo.registry)
              Demo.article ["drafts"; "nope"; "denied"; "drafts"]
              {| concurrency := Some 2%Z; continueOnError := Some false;
                 onProgress := None |} Demo.state0 = Some (task, st')
         /\ results task = loop_results e
         /\ Forall2 (result_of (B := Demo.builtins) (R := Demo.runtime)
                       (G := Demo.registry) Demo.article)
                    (started e) (results task)
         /\ task_status task = failed.
Proof.
  eexists _, _, _.
  split; [vm_compute; reflexivity|].
  split; [vm_compute; reflexivity|].
  split; [reflexivity|].
  eapply (failing_batch_ends_scheduling (B := Demo.builtins)
            (R := Demo.runtime) (G := Demo.registry));
    vm_compute; reflexivity.
Defined.


(** C4 at work: cancellation asked for before the run begins. *)
Lemma every_batch_runs_witness :
  (1 <= 2)%Z
  /\ never_throws (Some Demo.request_cancel)
  /\ option_default true (@None bool) = true
  /\ exists e st',
       sync_loop (B := Demo.builtins) (R := Demo.runtime) (G := Demo.registry)
         Demo.article ["drafts"; "nope"; "denied"]
         {| concurrency := Some 2%Z; continueOnError := None;
            onProgress := Some Demo.request_cancel |}
         {| world := {| Demo.clock := 0; Demo.cancelRequested := true;
                        Demo.fetched := []; Demo.registered := [] |};
            trace := [] |}
       = Some (e, st')
       /\ ended e = Ok tt
       /\ started e = ["drafts"; "nope"; "denied"]
       /\ Forall2 (result_of (B := Demo.builtins) (R := Demo.runtime)
                     (G := Demo.registry) Demo.article)
                  ["drafts"; "nope"; "denied"] (loop_results e).
Proof.
  split; [lia|].
  split; [exact never_throws_request_cancel|].
  split; [reflexivity|].
  apply (every_batch_runs_whatever_the_world (B := Demo.builtins)
           (R := Demo.runtime) (G := Demo.registry));
    [lia | exact never_throws_request_cancel | reflexivity].
Defined.

(** C4, as stated, fails: the caller asks for cancellation when the first
    platform completes (and, in the second run, before the run begins); the
    next batch is started all the same and its platform gets the ordinary
    result of its workflow. *)
Lemma cancel_request_is_not_observed :
  (exists e st',
     sync_loop (B := Demo.builtins) (R := Demo.runtime) (G := Demo.registry)
       Demo.article ["drafts"]
       (Demo.options 1 true (Some Demo.request_cancel)) Demo.state0
     = Some (e, st')
     /\ Demo.cancelRequested (world st') = true)
  /\ (exists e st',
        sync_loop (B := Demo.builtins) (R := Demo.runtime) (G := Demo.registry)
          Demo.article ["drafts"; "drafts"]
          (Demo.options 1 true (Some Demo.request_cancel)) Demo.state0
        = Some (e, st')
        /\ Demo.cancelRequested (world st') = true
        /\ started e = ["drafts"; "drafts"]
        /\ map success (loop_results e) = [true; true]
        /\ map error (loop_results e) = [None; None])
  /\ (exists e st',
        sync_loop (B := Demo.builtins) (R := Demo.runtime) (G := Demo.registry)
          Demo.article ["drafts"; "drafts"]
          (Demo.options 1 true None)
          {| world := {| Demo.clock := 0; Demo.cancelRequested := true;
                         Demo.fetched := []; Demo.registered := [] |};
             trace := [] |}
        = Some (e, st')
        /\ started e = ["drafts"; "drafts"]
        /\ map success (loop_results e) = [true; true]
        /\ map error (loop_results e) = [None; None]).
Proof.
  split; [|split].
  - eexists _, _. split; [vm_compute; reflexivity | reflexivity].
  - eexists _, _. split; [vm_compute; reflexivity |].
    repeat split; reflexivity.
  - eexists _, _. split; [vm_compute; reflexivity |].
    repeat split; reflexivity.
Qed.

(** C3, as stated, fails: [create_draft] and [update_draft] but no
    [publish] endpoint, a draft URL template, and [draftOnly = false]. The
    result has neither the [draftOnly] flag nor a [postUrl]. *)
Lemma draft_only_is_not_forced :
  endpoint Demo.drafts_dsl "create_draft" = Some Demo.create_ep
  /\ endpoint Demo.drafts_dsl "update_draft" = Some Demo.update_ep
  /\ endpoint Demo.drafts_dsl "publish" = None
  /\ draft_url_template Demo.drafts_dsl
     = Some "https://example.com/edit/{{draft_id}}"
  /\ exists st',
       publish (B := Demo.builtins) (R := Demo.runtime) Demo.drafts_dsl None
         Demo.article (Demo.publish_options false) Demo.state0
       = (Ok {| platform := "drafts"; success := true; timestamp := 1002;
                postId := VStr "42"; postUrl := VUndefined;
                draftOnly := None; error := None |}, st').
Proof.
  repeat split; try reflexivity.
  eexists. vm_compute. reflexivity.
Qed.

(** C3 at work, with the request for draft-only. *)
Lemma no_publish_endpoint_witness :
  (endpoint Demo.drafts_dsl "publish" = None
   /\ publish_transform (B := Demo.builtins) (W := Demo.World)
        Demo.drafts_dsl None Demo.article (Demo.publish_options true)
        Demo.state0 = (Ok Demo.drafts_wa, Demo.state0)
   /\ executeEndpoint (B := Demo.builtins) (R := Demo.runtime) None
        Demo.create_ep (VObj (context_of Demo.drafts_wa)) Demo.state0
      = (Ok Demo.drafts_dr, Demo.drafts_st2))
  /\ publish (B := Demo.builtins) (R := Demo.runtime) Demo.drafts_dsl None
       Demo.article (Demo.publish_options true) Demo.state0
     = (Ok {| platform := "drafts"; success := true; timestamp := 1002;
              postId := VStr "42";
              postUrl := VStr "https://example.com/edit/42";
              draftOnly := Some true; error := None |}, Demo.drafts_st3)
  /\ executions (trace Demo.drafts_st3)
     = [(Demo.create_ep, VObj (context_of Demo.drafts_wa));
        (Demo.update_ep,
         VObj (obj_set (context_of Demo.drafts_wa) "draft_id" (VStr "42")))].
Proof.
  assert (Ht : publish_transform (B := Demo.builtins) (W := Demo.World)
                 Demo.drafts_dsl None Demo.article (Demo.publish_options true)
                 Demo.state0 = (Ok Demo.drafts_wa, Demo.state0))
    by (vm_compute; reflexivity).
  assert (Hc : executeEndpoint (B := Demo.builtins) (R := Demo.runtime) None
                 Demo.create_ep (VObj (context_of Demo.drafts_wa)) Demo.state0
               = (Ok Demo.drafts_dr, Demo.drafts_st2))
    by (vm_compute; reflexivity).
  split; [split; [reflexivity | split; [exact Ht | exact Hc]]|].
  refine (@no_publish_endpoint_result Demo.builtins _ Demo.runtime
            Demo.drafts_dsl None Demo.article (Demo.publish_options true)
            Demo.state0 Demo.state0 Demo.drafts_st2 Demo.drafts_st3
            Demo.drafts_wa Demo.create_ep Demo.update_ep Demo.drafts_dr
            eq_refl eq_refl eq_refl Ht Hc _).
  eexists. vm_compute. reflexivity.
Defined.



(** C8, as stated, fails: the second of three files is invalid, the other
    two are valid; [parseDSLFiles] throws and returns no entry. *)
Lemma one_bad_file_fails_the_batch :
  is_ok (parseDSL (B := Demo.builtins) "good") = true
  /\ is_ok (parseDSL (B := Demo.builtins) "bad") = false
  /\ parseDSLFiles (B := Demo.builtins) (R := Demo.runtime)
       [("a.yaml", "good"); ("b.yaml", "bad"); ("c.yaml", "good")]
       Demo.state0
     = (Throw (ZodError "display_name" "Required"),
        {| world := Demo.world0;
           trace := [EvConsole "error" "Failed to parse DSL file: b.yaml"] |}).
Proof. repeat split; vm_compute; reflexivity. Qed.

(* ------------------------------------------------------------------ *)
(** ** Examples *)

Example interpolate_example :
  interpolate (B := Demo.builtins)
    (VObj [("article", VObj [("title", VStr "Hello");
                             ("tags", VArr [VStr "a"; VStr "b"])]);
           ("draft_id", VNum 42)])
    "/{{ article.title }}/{{draft_id}}/{{article.tags.length}}/{{missing.x}}/{{article.title.x}}/{ok}"
  = Ok "/Hello/42/2///{ok}".
Proof. vm_compute. reflexivity. Qed.

Example evaluateJsonPath_examples :
  evaluateJsonPath "$.code == 0" Demo.json_ok = Ok (VBool true)
  /\ evaluateJsonPath "$.data.id != null" Demo.json_ok = Ok (VBool true)
  /\ evaluateJsonPath "$.data.id == '42'" Demo.json_ok = Ok (VBool true)
  /\ evaluateJsonPath "$.data.id" Demo.json_ok = Ok (VStr "42")
  /\ evaluateJsonPath "$.code >= 200" Demo.json_ok = Ok VUndefined
  /\ evaluateJsonPath "$.message" VNull = Ok VUndefined.
Proof. repeat split; vm_compute; reflexivity. Qed.

Example chunk_examples :
  chunk [1; 2; 3; 4; 5] 2 = Some [[1; 2]; [3; 4]; [5]]
  /\ chunk [1; 2; 3] 7 = Some [[1; 2; 3]]
  /\ chunk [1; 2; 3] 0 = None
  /\ chunk (@nil nat) 0 = Some [].
Proof. repeat split; reflexivity. Qed.

Example checkAuth_examples :
  fst (checkAuth (B := Demo.builtins) (R := Demo.runtime) Demo.drafts_dsl None
         Demo.state0)
  = Ok [("isAuthenticated", VBool true); ("userId", VStr "42")]
  /\ fst (checkAuth (B := Demo.builtins) (R := Demo.runtime) Demo.denied_dsl
            None Demo.state0)
     = Ok [("isAuthenticated", VBool false);
           ("error", VStr "HTTP 401: Unauthorized")].
Proof. split; vm_compute; reflexivity. Qed.

Example syncToPlatform_examples :
  fst (syncToPlatform (B := Demo.builtins) (R := Demo.runtime)
         (G := Demo.registry) Demo.article "denied" Demo.state0)
  = Ok (failure_result "denied" 1001
          "Not authenticated: HTTP 401: Unauthorized")
  /\ fst (syncToPlatform (B := Demo.builtins) (R := Demo.runtime)
            (G := Demo.registry) Demo.article "broken" Demo.state0)
     = Ok (failure_result "broken" 1000 "registry unavailable").
Proof. split; vm_compute; reflexivity. Qed.

Example publish_failures :
  fst (publish (B := Demo.builtins) (R := Demo.runtime) Demo.rejecting_dsl
         None Demo.article None Demo.state0)
  = Ok (failure_result "rejecting" 1001 "title too long")
  /\ fst (publish (B := Demo.builtins) (R := Demo.runtime) Demo.offline_dsl
            None Demo.article None Demo.state0)
     = Ok (failure_result "offline" 1001 "Failed to fetch")
  /\ fst (publish (B := Demo.builtins) (R := Demo.runtime) Demo.drafts_dsl
            (Some Demo.transform_fails) Demo.article None Demo.state0)
     = Ok (failure_result "drafts" 1000 "transform failed").
Proof. repeat split; vm_compute; reflexivity. Qed.

(** A cover upload that throws clears the cover and the workflow goes on. *)
Example cover_failure_is_survived :
  exists r st',
    publish (B := Demo.builtins) (R := Demo.runtime) Demo.drafts_dsl
      (Some Demo.cover_fails) Demo.article_with_cover None Demo.state0
    = (Ok r, st')
    /\ success r = true
    /\ map (fun ec => value_at (snd ec) ["article"; "cover"])
           (executions (trace st'))
       = [VStr ""; VStr ""]
    /\ console (trace st')
       = [("warn",
           "[DSLAdapter] Failed to upload cover image: cover host unreachable")].
Proof.
  eexists _, _. split; [vm_compute; reflexivity|].
  repeat split; reflexivity.
Qed.

(* ================================================================== *)
(** * Further properties of the same code *)

(* ------------------------------------------------------------------ *)
(** ** The batches of [chunk] *)

Section ChunkShape.
Context {T : Type}.
Variable array : list T.
Variable size : Z.

Lemma chunk_loop_shape (fuel : nat) (i : Z) (batches : list (list T)) :
  (1 <= size)%Z -> (0 <= i)%Z ->
  chunk_loop fuel array size i = Some batches ->
  Z.of_nat (length batches)
  = ((Z.max 0 (Z.of_nat (length array) - i) + size - 1) / size)%Z
  /\ forall k, k < length batches ->
       nth k batches []
       = firstn (Z.to_nat size)
                (skipn (Z.to_nat i + k * Z.to_nat size) array).
Proof.
  intros Hs. revert i batches.
  induction fuel as [|fuel IH]; intros i batches Hi H;
    rewrite chunk_loop_eq in H;
    destruct (Z.ltb_spec i (Z.of_nat (length array))) as [Hlt|Hge];
    try discriminate H.
  - inversion H; subst. simpl. split; [|intros k Hk; lia].
    rewrite Z.max_l by lia. symmetry. apply Z.div_small. lia.
  - destruct (chunk_loop fuel array size (i + size)) as [rest|] eqn:E;
      [|discriminate H].
    inversion H; subst batches. clear H.
    destruct (IH (i + size)%Z rest) as [Hc Hn]; [lia | exact E |].
    split.
    + cbn [length]. rewrite Nat2Z.inj_succ, Hc.
      rewrite (Z.max_r 0 (Z.of_nat (length array) - i)) by lia.
      destruct (Z.le_gt_cases (Z.of_nat (length array)) (i + size)) as [Hl|Hl].
      * rewrite Z.max_l by lia.
        rewrite (Z.div_small (0 + size - 1)) by lia.
        replace (Z.of_nat (length array) - i + size - 1)%Z
          with ((Z.of_nat (length array) - i - 1) + 1 * size)%Z by lia.
        rewrite Z.div_add by lia.
        rewrite Z.div_small by lia. reflexivity.
      * rewrite Z.max_r by lia.
        replace (Z.of_nat (length array) - i + size - 1)%Z
          with ((Z.of_nat (length array) - (i + size) + size - 1) + 1 * size)%Z
          by lia.
        rewrite Z.div_add by lia. lia.
    + intros [|k] Hk.
      * cbn [nth]. rewrite (@js_slice_batch T array size i) by lia.
        f_equal. f_equal. lia.
      * cbn [nth]. cbn [length] in Hk. rewrite Hn by lia.
        f_equal. f_equal. lia.
  - inversion H; subst. simpl. split; [|intros k Hk; lia].
    rewrite Z.max_l by lia. symmetry. apply Z.div_small. lia.
Qed.

(** X1. For a size of at least one, [chunk] returns: the batches put
    together are the array, there are ceil(length / size) of them, the k-th
    is the [size] elements from position k * size on (fewer at the end of
    the array), every batch but the last has exactly [size] elements, and
    no batch is empty. *)
Theorem chunk_batches :
  (1 <= size)%Z ->
  exists batches,
    chunk array size = Some batches
    /\ concat batches = array
    /\ Z.of_nat (length batches)
       = ((Z.of_nat (length array) + size - 1) / size)%Z
    /\ (forall k, k < length batches ->
          nth k batches []
          = firstn (Z.to_nat size) (skipn (k * Z.to_nat size) array))
    /\ (forall k, S k < length batches ->
          Z.of_nat (length (nth k batches [])) = size)
    /\ Forall (fun b => b <> []) batches.
Proof.
  intros Hs.
  destruct (@chunk_spec T array size) as (Hex & Hsound & _).
  destruct (Hex (or_introl Hs)) as [bs Hb]. exists bs.
  destruct (Hsound bs Hb) as [Hc Hf].
  destruct (@chunk_loop_shape (length array) 0 bs Hs (Z.le_refl 0) Hb)
    as [Hlen Hnth].
  rewrite Z.sub_0_r, Z.max_r in Hlen by lia.
  split; [exact Hb|]. split; [exact Hc|]. split; [exact Hlen|].
  split; [exact Hnth|]. split.
  - intros k Hk. rewrite Hnth by lia.
    rewrite length_firstn, length_skipn.
    assert (Hq : (Z.of_nat (S k) <= (Z.of_nat (length array) + size - 1) / size - 1)%Z)
      by lia.
    assert (Hd : (size * ((Z.of_nat (length array) + size - 1) / size)
                  <= Z.of_nat (length array) + size - 1)%Z)
      by (apply Z.mul_div_le; lia).
    assert (Hm : (Z.of_nat (S k) * size <= Z.of_nat (length array) - 1)%Z) by nia.
    assert (Hk' : Z.of_nat (k * Z.to_nat size) = (Z.of_nat k * size)%Z)
      by (rewrite Nat2Z.inj_mul, Z2Nat.id by lia; reflexivity).
    rewrite Nat2Z.inj_succ in Hm.
    rewrite Nat.min_l by nia. lia.
  - eapply Forall_impl; [|exact Hf]. intros b [Hb1 _] ->. simpl in Hb1. lia.
Qed.

End ChunkShape.

(* ------------------------------------------------------------------ *)
(** ** Requests with retries *)

Section RetryFacts.
Context {B : Builtins} {W : Type} {R : Runtime W} {T : Timers W}.

Lemma requestWithRetry_loop_eq (url : string) (options : RequestInit)
    (maxRetries i : Z) (lastError : option Exn) (st : State W) :
  requestWithRetry_loop url options maxRetries i lastError st =
  if (i <? maxRetries)%Z then
    match request url options st with
    | (Ok a, st1) => (Resolved a, [Attempt (Ok a)], st1)
    | (Throw error, st1) =>
        let waits := (i <? maxRetries - 1)%Z in
        let st2 := if waits then snd (delay (1000 * (i + 1)) st1) else st1 in
        let rest :=
          requestWithRetry_loop url options maxRetries (i + 1)
                                (Some error) st2 in
        (fst (fst rest),
         Attempt (Throw error)
         :: (if waits then [Delay (1000 * (i + 1))] else [])
            ++ snd (fst rest),
         snd rest)
    end
  else (Rejected lastError, [], st).
Proof.
  rewrite requestWithRetry_loop_equation_1. unfold Logic.inspect.
  assert (G : forall b (e : (i <? maxRetries)%Z = b),
    requestWithRetry_loop_unfold_clause_1 url options maxRetries i
      (exist _ b e) lastError st =
    if b then
      match request url options st with
      | (Ok a, st1) => (Resolved a, [Attempt (Ok a)], st1)
      | (Throw error, st1) =>
          let waits := (i <? maxRetries - 1)%Z in
          let st2 := if waits then snd (delay (1000 * (i + 1)) st1) else st1 in
          let rest :=
            requestWithRetry_loop url options maxRetries (i + 1)
                                  (Some error) st2 in
          (fst (fst rest),
           Attempt (Throw error)
           :: (if waits then [Delay (1000 * (i + 1))] else [])
              ++ snd (fst rest),
           snd rest)
      end
    else (Rejected lastError, [], st)).
  { intros b e. destruct b; [|reflexivity]. cbn.
    destruct (request url options st) as [[a|err] st1]; reflexivity. }
  apply G.
Qed.

Lemma requestWithRetry_loop_steps (url : string) (options : RequestInit)
    (maxRetries : Z) (n : nat) :
  forall (i : Z) (lastError : option Exn) (st : State W),
    n = Z.to_nat (maxRetries - i) ->
    match requestWithRetry_loop url options maxRetries i lastError st with
    | (Resolved a, log, st') =>
        exists errors,
          log = (failed_attempts errors i ++ [Attempt (Ok a)])%list
          /\ length errors < n
    | (Rejected None, log, st') =>
        lastError = None /\ n = 0 /\ log = [] /\ st' = st
    | (Rejected (Some e), log, st') =>
        (n = 0 /\ lastError = Some e /\ log = [] /\ st' = st)
        \/ exists errors,
             log = (failed_attempts errors i ++ [Attempt (Throw e)])%list
             /\ S (length errors) = n
    end.
Proof.
  induction n as [|n IH]; intros i lastError st Hn;
    rewrite requestWithRetry_loop_eq;
    destruct (Z.ltb_spec i maxRetries) as [Hlt|Hge]; try lia.
  - destruct lastError; [left|]; repeat split; reflexivity.
  - destruct (request url options st) as [[a|err] st1].
    + exists []. split; [reflexivity | simpl; lia].
    + cbv zeta.
      set (st2 := if (i <? maxRetries - 1)%Z then _ else st1).
      assert (Hn' : n = Z.to_nat (maxRetries - (i + 1))) by lia.
      specialize (IH (i + 1)%Z (Some err) st2 Hn').
      destruct (requestWithRetry_loop url options maxRetries (i + 1)
                  (Some err) st2) as [[s log] st3].
      cbn [fst snd].
      destruct s as [a | [e|]].
      * destruct IH as (errors & -> & Hl).
        destruct (Z.ltb_spec i (maxRetries - 1)); [|lia].
        exists (err :: errors). split; [reflexivity | simpl; lia].
      * right. destruct IH as [(Hz & He & -> & _) | (errors & -> & Hl)].
        -- inversion He; subst e.
           destruct (Z.ltb_spec i (maxRetries - 1)); [lia|].
           exists []. split; [reflexivity | simpl; lia].
        -- destruct (Z.ltb_spec i (maxRetries - 1)); [|lia].
           exists (err :: errors). split; [reflexivity | simpl; lia].
      * destruct IH as (He & _). discriminate He.
Qed.

(** X2. [requestWithRetry] makes at most [maxRetries] attempts (three when
    the argument is left out) and stops at the first that succeeds. After
    every failed attempt but the last possible one it waits: 1000 ms after
    the first, 2000 ms after the second, and so on. It resolves with the
    value of the attempt that succeeded; when all attempts failed it rejects
    with the error of the last one, without a delay after it; when
    [maxRetries] is zero or negative it makes no request and rejects with
    [null]. *)
Theorem requestWithRetry_steps (url : string) (options : RequestInit)
    (maxRetries : option Z) (st : State W) :
  match requestWithRetry url options maxRetries st with
  | (Resolved a, log, st') =>
      exists errors,
        log = (failed_attempts errors 0 ++ [Attempt (Ok a)])%list
        /\ length errors < Z.to_nat (option_default 3%Z maxRetries)
  | (Rejected (Some e), log, st') =>
      exists errors,
        log = (failed_attempts errors 0 ++ [Attempt (Throw e)])%list
        /\ S (length errors) = Z.to_nat (option_default 3%Z maxRetries)
  | (Rejected None, log, st') =>
      (option_default 3%Z maxRetries <= 0)%Z /\ log = [] /\ st' = st
  end.
Proof.
  unfold requestWithRetry.
  assert (Hn : Z.to_nat (option_default 3%Z maxRetries)
               = Z.to_nat (option_default 3%Z maxRetries - 0))
    by (f_equal; lia).
  pose proof (@requestWithRetry_loop_steps url options
                (option_default 3%Z maxRetries)
                (Z.to_nat (option_default 3%Z maxRetries)) 0%Z None st Hn) as H.
  destruct (requestWithRetry_loop url options (option_default 3%Z maxRetries)
              0 None st) as [[s log] st'].
  destruct s as [a | [e|]].
  - exact H.
  - destruct H as [(_ & He & _) | H]; [discriminate He | exact H].
  - destruct H as (_ & Hz & Hl & Hs). split; [lia | split; assumption].
Qed.

End RetryFacts.

(* ------------------------------------------------------------------ *)
(** ** The task store *)

Lemma Map_get_set (m : TaskMap) (k k' : string) (t : SyncTask) :
  Map_get (Map_set m k t) k' = if (k =? k')%string then Some t else Map_get m k'.
Proof.
  induction m as [|[k0 t0] m IH]; simpl.
  - reflexivity.
  - destruct (String.eqb_spec k0 k) as [->|Hne]; simpl.
    + destruct (String.eqb_spec k k'); reflexivity.
    + rewrite IH. destruct (String.eqb_spec k0 k') as [->|]; [|reflexivity].
      destruct (String.eqb_spec k k'); [congruence | reflexivity].
Qed.

Lemma Map_set_keys (m : TaskMap) (k : string) (t : SyncTask) :
  map fst (Map_set m k t)
  = if existsb (String.eqb k) (map fst m) then map fst m
    else (map fst m ++ [k])%list.
Proof.
  induction m as [|[k0 t0] m IH]; simpl.
  - reflexivity.
  - rewrite (String.eqb_sym k k0).
    destruct (String.eqb_spec k0 k) as [->|Hne]; simpl.
    + reflexivity.
    + rewrite IH. destruct (existsb (String.eqb k) (map fst m)); reflexivity.
Qed.

Lemma Map_set_NoDup (m : TaskMap) (k : string) (t : SyncTask) :
  NoDup (map fst m) -> NoDup (map fst (Map_set m k t)).
Proof.
  intros H. rewrite Map_set_keys.
  destruct (existsb (String.eqb k) (map fst m)) eqn:E; [exact H|].
  apply NoDup_app; [exact H | repeat constructor; intros [] |].
  intros x Hx [Hxk|[]]. subst x.
  rename k into x.
  assert (existsb (String.eqb x) (map fst m) = true); [|congruence].
  apply existsb_exists. exists x. split; [exact Hx | apply String.eqb_refl].
Qed.

Lemma Map_delete_absent (m : TaskMap) (k : string) :
  ~ In k (map fst m) -> Map_delete m k = m.
Proof.
  induction m as [|[k0 t0] m IH]; simpl; intros H; [reflexivity|].
  destruct (String.eqb_spec k0 k) as [->|Hne].
  - exfalso. apply H. left. reflexivity.
  - rewrite IH; [reflexivity|]. intros Hin. apply H. right. exact Hin.
Qed.

Lemma Map_delete_middle (kept rest : TaskMap) (k : string) (t : SyncTask) :
  ~ In k (map fst kept) ->
  Map_delete (kept ++ (k, t) :: rest)%list k = (kept ++ rest)%list.
Proof.
  induction kept as [|[k0 t0] kept IH]; simpl; intros H.
  - rewrite String.eqb_refl. reflexivity.
  - destruct (String.eqb_spec k0 k) as [->|Hne].
    + exfalso. apply H. left. reflexivity.
    + rewrite IH; [reflexivity|]. intros Hin. apply H. right. exact Hin.
Qed.

Lemma clearCompleted_loop (rest kept : TaskMap) :
  NoDup (map fst (kept ++ rest)%list) ->
  fold_left
    (fun (m : TaskMap) (entry : string * SyncTask) =>
       match task_status (snd entry) with
       | completed | failed => Map_delete m (fst entry)
       | _ => m
       end)
    rest (kept ++ rest)%list
  = (kept ++ filter (fun entry => negb (finished (snd entry))) rest)%list.
Proof.
  revert kept. induction rest as [|[k t] rest IH]; intros kept H; simpl.
  - reflexivity.
  - assert (Hk : ~ In k (map fst kept)).
    { rewrite map_app in H. simpl in H. apply NoDup_remove_2 in H.
      intros Hin. apply H. apply in_or_app. left. exact Hin. }
    unfold finished at 1. simpl.
    destruct (task_status t) eqn:Es; simpl.
    + change (kept ++ (k, t) :: rest)%list
        with (kept ++ [(k, t)] ++ rest)%list.
      rewrite app_assoc. rewrite IH by (rewrite <- app_assoc; exact H).
      rewrite <- app_assoc. reflexivity.
    + change (kept ++ (k, t) :: rest)%list
        with (kept ++ [(k, t)] ++ rest)%list.
      rewrite app_assoc. rewrite IH by (rewrite <- app_assoc; exact H).
      rewrite <- app_assoc. reflexivity.
    + rewrite Map_delete_middle by exact Hk. apply IH.
      rewrite map_app in *. simpl in H. apply NoDup_remove_1 in H. exact H.
    + rewrite Map_delete_middle by exact Hk. apply IH.
      rewrite map_app in *. simpl in H. apply NoDup_remove_1 in H. exact H.
Qed.

Lemma clearCompleted_filter (tasks : TaskMap) :
  NoDup (map fst tasks) ->
  clearCompleted tasks
  = filter (fun entry => negb (finished (snd entry))) tasks.
Proof. intros H. exact (@clearCompleted_loop tasks [] H). Qed.

Lemma Map_get_filter (keep : SyncTask -> bool) (m : TaskMap) (k : string) :
  NoDup (map fst m) ->
  Map_get (filter (fun entry => keep (snd entry)) m) k
  = match Map_get m k with
    | Some t => if keep t then Some t else None
    | None => None
    end.
Proof.
  induction m as [|[k0 t0] m IH]; simpl; intros H; [reflexivity|].
  inversion H as [|? ? Hn Hd]; subst.
  destruct (String.eqb_spec k0 k) as [->|Hne].
  - destruct (keep t0) eqn:E; simpl.
    + rewrite String.eqb_refl. reflexivity.
    + rewrite IH by exact Hd.
      destruct (Map_get m k) eqn:Eg; [|reflexivity].
      exfalso. apply Hn. clear - Eg.
      induction m as [|[k1 t1] m IH]; simpl in *; [discriminate|].
      destruct (String.eqb_spec k1 k); [left; assumption | right; auto].
  - destruct (keep t0); simpl.
    + destruct (String.eqb_spec k0 k); [contradiction|]. apply IH. exact Hd.
    + apply IH. exact Hd.
Qed.

Lemma filter_keys_NoDup (keep : SyncTask -> bool) (m : TaskMap) :
  NoDup (map fst m) ->
  NoDup (map fst (filter (fun entry => keep (snd entry)) m)).
Proof.
  induction m as [|[k0 t0] m IH]; simpl; intros H; [constructor|].
  inversion H as [|? ? Hn Hd]; subst.
  destruct (keep t0); simpl; [|apply IH; exact Hd].
  constructor; [|apply IH; exact Hd].
  intros Hin. apply Hn. clear - Hin.
  induction m as [|[k1 t1] m IH]; simpl in *; [contradiction|].
  destruct (keep t1); simpl in *; [destruct Hin; auto | auto].
Qed.

(** X3. On a store with one entry per id, [clearCompleted] removes exactly
    the tasks whose status is completed or failed: [getTask] no longer finds
    them and still finds every other task, [getAllTasks] lists the tasks that
    are left in the order they had, and a second [clearCompleted] changes
    nothing. *)
Theorem clearCompleted_removes_the_finished (tasks : TaskMap) :
  NoDup (map fst tasks) ->
  (forall taskId,
     getTask (clearCompleted tasks) taskId
     = match getTask tasks taskId with
       | Some task => if finished task then None else Some task
       | None => None
       end)
  /\ getAllTasks (clearCompleted tasks)
     = filter (fun task => negb (finished task)) (getAllTasks tasks)
  /\ clearCompleted (clearCompleted tasks) = clearCompleted tasks.
Proof.
  intros H. rewrite (@clearCompleted_filter tasks H). split; [|split].
  - intros taskId. unfold getTask.
    rewrite (@Map_get_filter (fun t => negb (finished t)) tasks taskId H).
    destruct (Map_get tasks taskId) as [t|]; [|reflexivity].
    destruct (finished t); reflexivity.
  - unfold getAllTasks. clear H.
    induction tasks as [|[k t] m IH]; simpl; [reflexivity|].
    destruct (finished t); simpl; rewrite IH; reflexivity.
  - rewrite clearCompleted_filter
      by (apply (@filter_keys_NoDup (fun t => negb (finished t))); exact H).
    clear H. induction tasks as [|[k t] m IH]; simpl; [reflexivity|].
    destruct (finished t) eqn:E; simpl; [exact IH|].
    rewrite E. simpl. rewrite IH. reflexivity.
Qed.

Section StoreFacts.
Context {B : Builtins} {W : Type} {R : Runtime W} {G : Registry W}.

Lemma sync_finished (article : Article) (platforms : list string)
    (options : SyncOptions W) (st st' : State W) (task : SyncTask) :
  sync article platforms options st = Some (task, st') ->
  finished task = true
  /\ completedAt task = Some (Date_now (world st'))
  /\ createdAt task = Date_now (world st)
  /\ task_id task = generateId (world st).
Proof.
  unfold sync. destruct (sync_loop article platforms options st) as [[e st1]|];
    [|discriminate].
  intros H. inversion H; subst. clear H. unfold finished. simpl.
  repeat split.
  destruct (ended e); [destruct (forallb success (loop_results e))|];
    reflexivity.
Qed.

(** X4. When [sync] returns, the store of the engine holds the returned task
    under its id and every other id is as before; the store still has one
    entry per id; the task is completed or failed, never pending or running,
    so that a following [clearCompleted] removes it. *)
Theorem sync_stores_a_finished_task (tasks tasks' : TaskMap)
    (article : Article) (platforms : list string) (options : SyncOptions W)
    (st st' : State W) (task : SyncTask) :
  NoDup (map fst tasks) ->
  SyncEngine_sync tasks article platforms options st
  = Some (task, tasks', st') ->
  getTask tasks' (task_id task) = Some task
  /\ (forall taskId, taskId <> task_id task ->
        getTask tasks' taskId = getTask tasks taskId)
  /\ NoDup (map fst tasks')
  /\ finished task = true
  /\ getTask (clearCompleted tasks') (task_id task) = None.
Proof.
  intros Hd. unfold SyncEngine_sync. cbv zeta. cbn [task_id].
  destruct (sync article platforms options st) as [[t st1]|] eqn:E;
    [|discriminate].
  intros H. inversion H; subst. clear H.
  destruct (@sync_finished article platforms options st st' task E)
    as (Hf & _ & _ & Hid).
  rewrite <- Hid.
  set (running_task := {| task_id := task_id task; task_article := article;
                          task_platforms := platforms; task_status := running;
                          results := []; createdAt := Date_now (world st);
                          completedAt := None |}).
  set (tasks1 := Map_set tasks (task_id task) running_task).
  assert (Hd1 : NoDup (map fst tasks1)) by (apply Map_set_NoDup; exact Hd).
  assert (Hg : getTask (Map_set tasks1 (task_id task) task) (task_id task)
               = Some task).
  { unfold getTask. rewrite Map_get_set, String.eqb_refl. reflexivity. }
  assert (Hd' := @Map_set_NoDup tasks1 (task_id task) task Hd1).
  split; [exact Hg|]. split; [|split; [exact Hd'|split; [exact Hf|]]].
  - intros taskId Hne. unfold getTask, tasks1. rewrite !Map_get_set.
    destruct (String.eqb_spec (task_id task) taskId); [congruence|reflexivity].
  - rewrite (@clearCompleted_filter _ Hd'). unfold getTask in *.
    rewrite (@Map_get_filter (fun t => negb (finished t)) _ _ Hd'), Hg, Hf.
    reflexivity.
Qed.

End StoreFacts.

(* ------------------------------------------------------------------ *)
(** ** The status of a task *)

Section StatusFacts.
Context {B : Builtins} {W : Type} {R : Runtime W} {G : Registry W}.

Lemma run_batch_length (article : Article)
    (cb : option (string -> SyncResult -> W -> Res unit * W))
    (batch : list string) (st : State W) :
  length (fst (run_batch article cb batch st)) = length batch.
Proof.
  revert st. induction batch as [|p batch IH]; intros st; simpl; [reflexivity|].
  destruct (run_platform article cb p st) as [r st1].
  specialize (IH st1).
  destruct (run_batch article cb batch st1) as [rs st2]. simpl in *.
  rewrite IH. reflexivity.
Qed.

Lemma Promise_all_length {A} (outs : list (Res A)) (rs : list A) :
  Promise_all outs = Ok rs -> length rs = length outs.
Proof.
  intros H. apply Promise_all_inv in H. subst outs.
  rewrite length_map. reflexivity.
Qed.

Lemma sync_batches_results_bound (article : Article)
    (cb : option (string -> SyncResult -> W -> Res unit * W))
    (continue : bool) (batches : list (list string)) :
  forall (res0 : list SyncResult) (sl0 : list string) (st : State W),
    length (loop_results
              (fst (sync_batches article cb continue batches res0 sl0 st)))
    <= length res0 + length (concat batches).
Proof.
  induction batches as [|batch rest IH]; intros res0 sl0 st; simpl; [lia|].
  pose proof (run_batch_length article cb batch st) as Hl.
  destruct (run_batch article cb batch st) as [outs st1]. simpl in Hl.
  rewrite length_app.
  destruct (Promise_all outs) as [rs|e] eqn:Ep; simpl; [|lia].
  apply Promise_all_length in Ep.
  destruct (negb continue && existsb (fun r => negb (success r)) rs); simpl.
  - rewrite length_app. lia.
  - specialize (IH (res0 ++ rs)%list (sl0 ++ batch)%list st1).
    rewrite length_app in IH. lia.
Qed.

(** X5. The task [sync] returns is completed only if every result it holds
    is a success; with a progress callback that never throws (or none) it is
    completed exactly when every result is a success. It holds at most one
    result per requested platform. With no platform at all it is completed,
    with no result and nothing done, whatever the options. *)
Theorem sync_status (article : Article) (platforms : list string)
    (options : SyncOptions W) (st st' : State W) (task : SyncTask) :
  sync article platforms options st = Some (task, st') ->
  (task_status task = completed ->
   Forall (fun r => success r = true) (results task))
  /\ (never_throws (onProgress options) ->
      forallb success (results task) = true -> task_status task = completed)
  /\ length (results task) <= length platforms
  /\ (platforms = [] ->
      task_status task = completed /\ results task = [] /\ st' = st).
Proof.
  unfold sync, sync_loop.
  destruct (chunk platforms (option_default 3%Z (concurrency options)))
    as [batches|] eqn:Ec; [|discriminate].
  destruct (@chunk_spec string platforms
              (option_default 3%Z (concurrency options))) as (_ & Hsound & _).
  destruct (Hsound batches Ec) as [Hcat _].
  pose proof (@sync_batches_results_bound article (onProgress options)
                (option_default true (continueOnError options)) batches
                [] [] st) as Hb.
  pose proof (@sync_batches_never_throws B W R G article (onProgress options)
                (option_default true (continueOnError options)) batches
                [] [] st) as Hn.
  destruct (sync_batches article (onProgress options)
              (option_default true (continueOnError options)) batches
              [] [] st) as [e st1] eqn:Eb.
  intros H. injection H as <- <-. cbn [task_status results fst] in *.
  split; [|split; [|split]].
  - destruct (ended e); [|discriminate].
    destruct (forallb success (loop_results e)) eqn:Ef; [|discriminate].
    intros _. apply Forall_forall. intros r Hr.
    rewrite forallb_forall in Ef. apply Ef. exact Hr.
  - intros Hnt Hall.
    destruct (Hn Hnt) as (e' & st2 & k & rs & Heq & Hend & _).
    inversion Heq; subst e' st2. rewrite Hend, Hall. reflexivity.
  - rewrite Hcat in Hb. simpl in Hb. exact Hb.
  - intros ->. destruct batches as [|b bs].
    + simpl in Eb. inversion Eb; subst. simpl. repeat split; reflexivity.
    + exfalso. simpl in Ec. discriminate Ec.
Qed.

Lemma run_platform_callback_throws (article : Article)
    (cb : string -> SyncResult -> W -> Res unit * W) (p : string)
    (st : State W) :
  (forall q r w, exists e w', cb q r w = (Throw e, w')) ->
  exists e st', run_platform article (Some cb) p st = (Throw e, st').
Proof.
  intros Hcb. unfold run_platform.
  destruct (@syncToPlatform_returns B W R G article p st) as (r & st1 & Hr & _).
  erewrite bind_ok; [|exact Hr].
  destruct (Hcb p r (world st1)) as (e & w' & He).
  exists e, {| world := w'; trace := trace st1 |}.
  unfold bind, ext. rewrite He. reflexivity.
Qed.

(** X6. A progress callback that throws fails the task and loses the
    results: with a positive concurrency and at least one platform, the
    workflows of the first batch are started and only those, the task is
    failed and its result list is empty. *)
Theorem throwing_progress_callback_loses_the_results (article : Article)
    (platforms : list string) (c : Z) (continue : option bool)
    (cb : string -> SyncResult -> W -> Res unit * W) (st : State W) :
  (1 <= c)%Z ->
  platforms <> [] ->
  (forall p r w, exists e w', cb p r w = (Throw e, w')) ->
  exists task st' e,
    sync article platforms
      {| concurrency := Some c; continueOnError := continue;
         onProgress := Some cb |} st = Some (task, st')
    /\ sync_loop article platforms
         {| concurrency := Some c; continueOnError := continue;
            onProgress := Some cb |} st = Some (e, st')
    /\ task_status task = failed
    /\ results task = []
    /\ started e = firstn (Z.to_nat c) platforms.
Proof.
  intros Hc Hne Hcb. unfold sync, sync_loop. cbn [concurrency onProgress
    continueOnError option_default].
  destruct (@chunk_spec string platforms c) as (Hex & Hsound & _).
  destruct (Hex (or_introl Hc)) as [batches Hb]. rewrite Hb.
  destruct (@chunk_loop_shape string platforms c (length platforms) 0 batches
              Hc (Z.le_refl 0) Hb) as [Hlen Hnth].
  destruct batches as [|b rest].
  { destruct (Hsound [] Hb) as [Hcat _]. simpl in Hcat. congruence. }
  specialize (Hnth 0 ltac:(simpl; lia)). simpl in Hnth.
  destruct b as [|p b].
  { destruct (Hsound _ Hb) as [_ Hf]. inversion Hf as [|? ? [Hp _] ?]; subst.
    simpl in Hp. lia. }
  cbn [sync_batches run_batch].
  destruct (@run_platform_callback_throws article cb p st Hcb) as (e & st1 & He).
  rewrite He.
  destruct (run_batch article (Some cb) b st1) as [outs st2].
  cbn [Promise_all].
  eexists _, _, _. split; [reflexivity|]. split; [reflexivity|].
  cbn [task_status results ended loop_results started app].
  repeat split. exact Hnth.
Qed.

End StatusFacts.

(* ------------------------------------------------------------------ *)
(** ** Literals and comparisons *)

Lemma string_rev_append_app (s acc : string) :
  string_rev_append s acc = string_rev s ++ acc.
Proof.
  unfold string_rev. revert acc.
  induction s as [|c s IH]; intros acc; simpl; [reflexivity|].
  rewrite IH, (IH (String c EmptyString)), string_app_assoc. reflexivity.
Qed.

Lemma string_rev_cons (c : ascii) (s : string) :
  string_rev (String c s) = string_rev s ++ String c EmptyString.
Proof. unfold string_rev at 1. simpl. apply string_rev_append_app. Qed.

Lemma string_rev_app (a b : string) :
  string_rev (a ++ b) = string_rev b ++ string_rev a.
Proof.
  induction a as [|c a IH]; simpl.
  - rewrite string_app_nil_r. reflexivity.
  - rewrite !string_rev_cons, IH, string_app_assoc. reflexivity.
Qed.

Lemma string_rev_involutive (s : string) : string_rev (string_rev s) = s.
Proof.
  induction s as [|c s IH]; [reflexivity|].
  rewrite string_rev_cons, string_rev_app, IH. reflexivity.
Qed.

Lemma slice_1_m1_wrapped (c d : ascii) (s : string) :
  slice_1_m1 (String c (s ++ String d EmptyString)) = s.
Proof.
  unfold slice_1_m1. cbn [string_drop].
  rewrite string_rev_app. cbn [string_rev string_rev_append append string_drop].
  apply string_rev_involutive.
Qed.

Lemma endsWith_last (c : ascii) (s : string) :
  endsWith (String c EmptyString) (s ++ String c EmptyString) = true.
Proof.
  unfold endsWith. rewrite string_rev_app.
  cbn [string_rev string_rev_append append String.prefix].
  destruct (ascii_dec c c) as [_|Hn]; [|contradiction Hn; reflexivity].
  destruct (string_rev s); reflexivity.
Qed.

Lemma startsWith_head (c : ascii) (r : string) :
  startsWith (String c EmptyString) (String c r) = true.
Proof.
  unfold startsWith. cbn [String.prefix].
  destruct (ascii_dec c c) as [_|Hn]; [|contradiction Hn; reflexivity].
  destruct r; reflexivity.
Qed.

Section CompareFacts.
Context {B : Builtins}.

(** X7. A literal between two double quotes, or between two single quotes,
    is read by [parseCompareValue] as the string between the quotes,
    whatever that string is: a number, [null] or [true] in quotes is a
    string. *)
Theorem parseCompareValue_quoted (s : string) :
  parseCompareValue (dquote ++ s ++ dquote) = VStr s
  /\ parseCompareValue (squote ++ s ++ squote) = VStr s.
Proof.
  split.
  - unfold parseCompareValue, dquote.
    change (String (ascii_of_nat 34) "" ++ s ++ String (ascii_of_nat 34) "")
      with (String (ascii_of_nat 34) (s ++ String (ascii_of_nat 34) "")).
    rewrite slice_1_m1_wrapped.
    assert (He : endsWith (String (ascii_of_nat 34) "")
                   (String (ascii_of_nat 34) (s ++ String (ascii_of_nat 34) ""))
                 = true)
      by (apply (endsWith_last (ascii_of_nat 34)
                   (String (ascii_of_nat 34) s))).
    rewrite He, startsWith_head. reflexivity.
  - unfold parseCompareValue, squote, dquote.
    change (String (ascii_of_nat 39) "" ++ s ++ String (ascii_of_nat 39) "")
      with (String (ascii_of_nat 39) (s ++ String (ascii_of_nat 39) "")).
    rewrite slice_1_m1_wrapped.
    assert (He : endsWith (String (ascii_of_nat 39) "")
                   (String (ascii_of_nat 39) (s ++ String (ascii_of_nat 39) ""))
                 = true)
      by (apply (endsWith_last (ascii_of_nat 39)
                   (String (ascii_of_nat 39) s))).
    rewrite He, startsWith_head. reflexivity.
Qed.

End CompareFacts.




Section ComparisonFacts.
Context {B : Builtins}.



End ComparisonFacts.

(* ------------------------------------------------------------------ *)
(** ** Request bodies *)


Section InterpolateObjectFacts.
Context {B : Builtins}.
Variable context : JsVal.










End InterpolateObjectFacts.

(* ------------------------------------------------------------------ *)
(** ** What [executeEndpoint] returns and throws *)

Section ExtractFacts.
Context {B : Builtins}.

Lemma extract_fields_from (paths : list (string * string)) (response : JsVal) :
  forall (acc o : Obj),
    fold_left
      (fun (acc : Res Obj) (kp : string * string) =>
         (extracted <- acc ;;
          v <- evaluateJsonPath (snd kp) response ;;
          Ok (obj_set extracted (fst kp) v))%res) paths (Ok acc) = Ok o ->
    NoDup (map fst acc ++ map fst paths)%list ->
    map fst o = (map fst acc ++ map fst paths)%list
    /\ (forall k, In k (map fst acc) -> obj_get o k = obj_get acc k)
    /\ (forall k p, In (k, p) paths ->
          evaluateJsonPath p response = Ok (obj_get o k)).
Proof.
  induction paths as [|[k p] paths IH]; intros acc o H Hnd; simpl in H.
  - inversion H; subst o. rewrite app_nil_r. repeat split; intros ? ? [].
  - destruct (evaluateJsonPath_total p response) as [v Hv].
    rewrite Hv in H. simpl in H.
    assert (Hk : ~ In k (map fst acc)).
    { simpl in Hnd. apply NoDup_remove_2 in Hnd. intros Hin. apply Hnd.
      apply in_or_app. left. exact Hin. }
    assert (Hkeys : map fst (obj_set acc k v) = (map fst acc ++ [k])%list).
    { clear - Hk. induction acc as [|[k0 v0] acc IHacc]; simpl in *;
        [reflexivity|].
      destruct (String.eqb_spec k0 k) as [->|Hne].
      - exfalso. apply Hk. left. reflexivity.
      - simpl. rewrite IHacc; [reflexivity|]. intros Hin. apply Hk. right.
        exact Hin. }
    destruct (IH (obj_set acc k v) o H) as (Hm & Hold & Hnew).
    { rewrite Hkeys, <- app_assoc. exact Hnd. }
    rewrite Hkeys, <- app_assoc in Hm. split; [exact Hm|]. split.
    + intros k' Hin. rewrite Hold by (rewrite Hkeys; apply in_or_app; auto).
      rewrite obj_get_set. destruct (String.eqb_spec k k'); [|reflexivity].
      subst k'. contradiction.
    + intros k' p' [Heq|Hin].
      * inversion Heq; subst k' p'. rewrite Hv. f_equal.
        rewrite Hold by (rewrite Hkeys; apply in_or_app; right; left;
                         reflexivity).
        rewrite obj_get_set, String.eqb_refl. reflexivity.
      * apply Hnew. exact Hin.
Qed.

Lemma extract_fields_values (paths : list (string * string))
    (response : JsVal) (o : Obj) :
  extract_fields paths response = Ok o ->
  NoDup (map fst paths) ->
  map fst o = map fst paths
  /\ (forall k p, In (k, p) paths ->
        evaluateJsonPath p response = Ok (obj_get o k)).
Proof.
  intros H Hnd.
  destruct (@extract_fields_from paths response [] o H Hnd) as (Hm & _ & Hv).
  split; assumption.
Qed.

End ExtractFacts.

Section EndpointFacts.
Context {B : Builtins} {W : Type} {R : Runtime W}.
Variable customLogic : option (CustomLogic W).

(** X10. When [executeEndpoint] returns, the response it returns passed the
    success expression of the endpoint, if there is one that is not empty:
    the expression evaluates to a truthy value on it. The extracted fields
    are those the [extract] table yields on that response: when the table
    names each key once, the result has exactly its keys and under each the
    value of its expression; without a table it is empty. *)
Theorem executeEndpoint_result_is_checked (endpoint : EndpointDef)
    (context : JsVal) (st st' : State W) (r : ExecResult) :
  executeEndpoint customLogic endpoint context st = (Ok r, st') ->
  (forall successExpr,
     truthy_string (resp_success endpoint) = Some successExpr ->
     exists v, evaluateJsonPath successExpr (data r) = Ok v
               /\ truthy v = true)
  /\ match resp_extract endpoint with
     | Some paths =>
         extract_fields paths (data r) = Ok (extracted r)
         /\ (NoDup (map fst paths) ->
             map fst (extracted r) = map fst paths
             /\ forall k p, In (k, p) paths ->
                  evaluateJsonPath p (data r) = Ok (obj_get (extracted r) k))
     | None => extracted r = []
     end.
Proof.
  unfold executeEndpoint. intros H.
  repeat bind_inv H.
  unfold ret in H. inversion H; subst r st'. cbn [data extracted].
  split.
  - intros successExpr Hs.
    match goal with
    | Hx : match truthy_string (resp_success endpoint) with _ => _ end _ = _
      |- _ => rewrite Hs in Hx; bind_inv Hx
    end.
    match goal with
    | Hx : lift (evaluateJsonPath successExpr _) _ = (Ok ?v, _) |- _ =>
        unfold lift in Hx; inversion Hx; exists v
    end.
    split; [assumption|].
    match goal with
    | Hx : (if negb (truthy ?v) then _ else _) _ = _ |- truthy ?v = true =>
        destruct (truthy v); [reflexivity|]; simpl in Hx
    end.
    match goal with
    | Hx : bind _ _ _ = (Ok _, _) |- _ => bind_inv Hx; discriminate Hx
    end.
  - match goal with
    | Hx : match resp_extract endpoint with _ => _ end _ = _ |- _ =>
        destruct (resp_extract endpoint) as [paths|];
        unfold lift, ret in Hx; inversion Hx; subst
    end; [|reflexivity].
    split; [first [assumption | reflexivity]|]. intros Hnd.
    apply extract_fields_values; assumption.
Qed.

End EndpointFacts.

Section FailureFacts.
Context {B : Builtins} {W : Type} {R : Runtime W}.



End FailureFacts.

(* ------------------------------------------------------------------ *)
(** ** The transformations of [publish] *)

Section ExecutionsFacts.
Context {W : Type}.

Lemma keeps_trace_executions {A} (c : M W A) :
  keeps_trace c -> keeps_executions c.
Proof. intros H st. rewrite H. reflexivity. Qed.

Lemma keeps_executions_bind {A C} (c : M W A) (k : A -> M W C) :
  keeps_executions c -> (forall a, keeps_executions (k a)) ->
  keeps_executions (bind c k).
Proof.
  intros Hc Hk st. unfold bind. specialize (Hc st).
  destruct (c st) as [[a|e] st1]; simpl in *.
  - rewrite Hk. exact Hc.
  - exact Hc.
Qed.

Lemma keeps_executions_try_catch {A} (c : M W A) (h : Exn -> M W A) :
  keeps_executions c -> (forall e, keeps_executions (h e)) ->
  keeps_executions (try_catch c h).
Proof.
  intros Hc Hh st. unfold try_catch. specialize (Hc st).
  destruct (c st) as [[a|e] st1]; simpl in *.
  - exact Hc.
  - rewrite Hh. exact Hc.
Qed.

Lemma keeps_executions_console (level text : string) :
  keeps_executions (@emit W (EvConsole level text)).
Proof. intros st. reflexivity. Qed.

End ExecutionsFacts.

Section TransformFacts.
Context {B : Builtins} {W : Type} {R : Runtime W}.
Variable dsl : AdapterDSL.
Variable customLogic : option (CustomLogic W).

Lemma upload_cover_keeps_executions (workingArticle : Obj) :
  keeps_executions (upload_cover customLogic workingArticle).
Proof.
  unfold upload_cover.
  destruct (hook customLogic (@upload_image_by_url W)) as [upload|];
    [|apply keeps_trace_executions; keeps].
  destruct (truthy (obj_get workingArticle "cover"));
    [|apply keeps_trace_executions; keeps].
  apply keeps_executions_try_catch.
  - apply keeps_trace_executions. keeps.
  - intros e. apply keeps_executions_bind.
    + apply keeps_executions_console.
    + intros _. apply keeps_trace_executions. keeps.
Qed.

Lemma upload_cover_fields (workingArticle wa : Obj) (st st' : State W) :
  upload_cover customLogic workingArticle st = (Ok wa, st') ->
  (forall k, k <> "cover" -> obj_get wa k = obj_get workingArticle k)
  /\ (hook customLogic (@upload_image_by_url W) = None
      \/ truthy (obj_get workingArticle "cover") = false ->
      wa = workingArticle).
Proof.
  unfold upload_cover.
  destruct (hook customLogic (@upload_image_by_url W)) as [upload|].
  2:{ intros H. inversion H; subst. split; auto. }
  destruct (truthy (obj_get workingArticle "cover")).
  2:{ intros H. inversion H; subst. split; auto. }
  intros H. split; [|intros [Hn|Hn]; discriminate Hn].
  intros k Hk. unfold try_catch in H.
  match type of H with
  | match ?c st with _ => _ end = _ =>
      destruct (c st) as [[wa0|e] st0] eqn:E
  end.
  - inversion H; subst wa0 st0. clear H.
    repeat bind_inv E. unfold ret in E. inversion E; subst.
    rewrite obj_get_set.
    destruct (String.eqb_spec "cover" k); [congruence | reflexivity].
  - unfold bind, emit, ret in H. inversion H; subst.
    rewrite obj_get_set.
    destruct (String.eqb_spec "cover" k); [congruence | reflexivity].
Qed.

(** X12. The transformations at the start of [publish] execute no endpoint,
    whether they succeed or throw. When they succeed, the working article
    differs from the article at most in [content] and [cover]; [cover] is
    the one of the article when there is no hook to upload it or when the
    article has none. *)
Theorem publish_transform_scope (article : Article)
    (options : option (PublishOptions W)) (st : State W) :
  executions (trace (snd (publish_transform dsl customLogic article options st)))
  = executions (trace st)
  /\ forall wa st1,
       publish_transform dsl customLogic article options st = (Ok wa, st1) ->
       (forall k, k <> "content" -> k <> "cover" ->
          obj_get wa k = obj_get article k)
       /\ (hook customLogic (@upload_image_by_url W) = None
           \/ truthy (obj_get article "cover") = false ->
           obj_get wa "cover" = obj_get article "cover").
Proof.
  split.
  - revert st. change (keeps_executions
                         (publish_transform dsl customLogic article options)).
    unfold publish_transform.
    repeat first
      [ apply upload_cover_keeps_executions
      | apply keeps_executions_bind; [|intros ?]
      | apply keeps_trace_executions; solve [keeps] ].
  - intros wa st1 H. unfold publish_transform in H.
    repeat bind_inv H.
    assert (Hset : forall (o : Obj) c k,
              k <> "content" -> obj_get (obj_set o "content" c) k = obj_get o k).
    { intros o c k Hk. rewrite obj_get_set.
      destruct (String.eqb_spec "content" k); congruence. }
    assert (H0 : forall k, k <> "content" -> obj_get a0 k = obj_get article k).
    { destruct (html_processing dsl); [bind_inv Hstep0|];
        unfold ret in Hstep0; inversion Hstep0; subst; intros k Hk;
        rewrite ?Hset by exact Hk; reflexivity. }
    assert (H1 : forall k, k <> "content" -> obj_get a1 k = obj_get a0 k).
    { destruct (hook customLogic (@process_images W)); [bind_inv Hstep1|];
        unfold ret in Hstep1; inversion Hstep1; subst; intros k Hk;
        rewrite ?Hset by exact Hk; reflexivity. }
    destruct (@upload_cover_fields a1 a2 s1 s2 Hstep2) as [Hf Hsame].
    assert (H3 : forall k, k <> "content" -> obj_get a3 k = obj_get a2 k).
    { destruct (hook customLogic (@content_transform W)); [bind_inv Hstep3|];
        unfold ret in Hstep3; inversion Hstep3; subst; intros k Hk;
        rewrite ?Hset by exact Hk; reflexivity. }
    assert (H4 : forall k, k <> "content" -> obj_get wa k = obj_get a3 k).
    { destruct (output_format dsl) as [[|]|]; [| bind_inv H |];
        unfold ret in H; inversion H; subst; intros k Hk;
        rewrite ?Hset by exact Hk; reflexivity. }
    assert (Hcc : "cover" <> "content") by discriminate.
    split.
    + intros k Hk1 Hk2.
      rewrite H4, H3, Hf, H1, H0 by assumption. reflexivity.
    + intros Hcase. rewrite H4, H3 by exact Hcc.
      rewrite Hsame; [rewrite H1, H0 by exact Hcc; reflexivity|].
      destruct Hcase as [Hn|Hn]; [left; exact Hn | right].
      rewrite H1, H0 by exact Hcc. exact Hn.
Qed.

End TransformFacts.

(* ------------------------------------------------------------------ *)
(** ** The results of a declarative adapter *)

Section ResultFacts.
Context {B : Builtins} {W : Type} {R : Runtime W}.
Variable dsl : AdapterDSL.
Variable customLogic : option (CustomLogic W).



End ResultFacts.

Section EngineResultFacts.
Context {B : Builtins} {W : Type} {R : Runtime W} {G : Registry W}.


(** X14. When the authentication probe of a declarative adapter throws, the
    workflow of the platform ends there: the result is the failure
    [Not authenticated: ] followed by the message of the error ([Please
    login first] when that message is empty), and the probe is the only
    endpoint that was executed. *)
Theorem failed_probe_ends_the_workflow (dsl : AdapterDSL)
    (customLogic : option (CustomLogic W)) (article : Article)
    (platformId : string) (st st1 : State W) (w : W) (e : Exn) :
  registry_get platformId (world st)
  = (Ok (Some (DSLAdapter dsl customLogic)), w) ->
  executeEndpoint customLogic (auth_check dsl) (VObj [])
    {| world := w; trace := trace st |} = (Throw e, st1) ->
  syncToPlatform article platformId st
  = (Ok (failure_result platformId (Date_now (world st1))
           ("Not authenticated: "
            ++ (if string_is_empty (message e) then "Please login first"
                else message e))), st1)
  /\ executions (trace st1)
     = (executions (trace st) ++ [(auth_check dsl, VObj [])])%list.
Proof.
  intros Hg He.
  pose proof (@checkAuth_returns B W R dsl customLogic
                {| world := w; trace := trace st |}) as Hc.
  rewrite He in Hc.
  split.
  - rewrite (@syncToPlatform_not_authenticated B W R G article platformId
               st st1 w (DSLAdapter dsl customLogic) _ Hg Hc eq_refl).
    do 3 f_equal. cbn [obj_get String.eqb Ascii.eqb Bool.eqb js_or truthy].
    destruct (message e); reflexivity.
  - pose proof (@executeEndpoint_trace B W R customLogic (auth_check dsl)
                  (VObj []) {| world := w; trace := trace st |}) as Ht.
    rewrite He in Ht. cbn [snd trace] in Ht. rewrite Ht.
    apply executions_cons_execute.
Qed.

End EngineResultFacts.

(* ------------------------------------------------------------------ *)
(** ** Validated definitions *)

Lemma enum_lookup_in {A} (options : list (string * A)) (s : string) (a : A) :
  enum_lookup options s = Some a -> In (s, a) options.
Proof.
  induction options as [|[k x] options IH]; simpl; [discriminate|].
  destruct (String.eqb_spec k s) as [->|Hne]; intros H.
  - inversion H; subst. left. reflexivity.
  - right. apply IH. exact H.
Qed.

Lemma traverse_items_enum {A} (options : list (string * A)) (loc : string)
    (xs : list JsVal) (l : list A) :
  traverse_items (z_enum options) loc xs = Ok l ->
  Forall2 (fun x a => exists s, x = VStr s /\ In (s, a) options) xs l.
Proof.
  revert l. induction xs as [|x xs IH]; intros l H; simpl in H.
  - inversion H. constructor.
  - destruct (z_enum options loc x) as [a|] eqn:Ea; [|discriminate].
    simpl in H.
    destruct (traverse_items (z_enum options) loc xs) as [l'|] eqn:El;
      [|discriminate].
    simpl in H. inversion H; subst l. constructor; [|apply IH; reflexivity].
    unfold z_enum in Ea. destruct x; try discriminate.
    destruct (enum_lookup options s) eqn:Eo; [|discriminate].
    inversion Ea; subst. exists s. split; [reflexivity|].
    apply enum_lookup_in. exact Eo.
Qed.

Ltac res_inv H :=
  match type of H with
  | res_bind ?c _ = Ok _ =>
      let E := fresh "E" in
      destruct c eqn:E; [cbn [res_bind] in H | discriminate H]
  end.

Section SchemaFacts.
Context {B : Builtins} {W : Type} {R : Runtime W}.

(** X15. A definition that [AdapterDSLSchema] accepts has a homepage that
    is a URL and capabilities among the seven known ones; its name and
    homepage are those of the document. It has no [draft_url_template], no
    [html_processing] and no [output_format], whatever the document says:
    an adapter made from it never returns a post URL when drafts only are
    asked for. *)
Theorem validated_definition (v : JsVal) (dsl : AdapterDSL) :
  AdapterDSLSchema v = Ok dsl ->
  is_url (homepage dsl) = true
  /\ Forall (fun c => In c ["article"; "draft"; "image_upload"; "categories";
                           "tags"; "cover"; "schedule"])
            (capabilities dsl)
  /\ (exists o, v = VObj o
                /\ obj_get o "name" = VStr (name dsl)
                /\ obj_get o "homepage" = VStr (homepage dsl))
  /\ draft_url_template dsl = None
  /\ html_processing dsl = None
  /\ output_format dsl = None
  /\ forall (customLogic : option (CustomLogic W)) article options st r st',
       publish dsl customLogic article options st = (Ok r, st') ->
       postUrl r = VUndefined \/ wants_draftOnly options = false.
Proof.
  unfold AdapterDSLSchema. intros H. repeat res_inv H.
  inversion H; subst dsl. clear H. cbn [homepage capabilities name
    draft_url_template html_processing output_format].
  repeat match goal with
         | |- _ /\ _ => split
         end; try reflexivity.
  - match goal with
    | Hx : z_url _ _ = Ok _ |- _ =>
        unfold z_url in Hx; res_inv Hx;
        match type of Hx with
        | (if ?c then _ else _) = _ => destruct c eqn:Eu; inversion Hx; subst
        end
    end. exact Eu.
  - match goal with
    | Hx : z_array (z_enum capability_names) _ _ = Ok _ |- _ =>
        unfold z_array in Hx;
        match type of Hx with
        | match ?x with _ => _ end = _ => destruct x; try discriminate Hx
        end;
        apply traverse_items_enum in Hx
    end.
    match goal with
    | Hx : Forall2 _ _ ?l |- Forall _ ?l =>
        clear - Hx; induction Hx as [|x c xs l (s & _ & Hin) _ IH];
        constructor; [|exact IH]
    end.
    unfold capability_names in Hin. apply in_map_iff in Hin.
    destruct Hin as (c0 & Hc & Hin). inversion Hc; subst. exact Hin.
  - match goal with
    | Hx : z_object "" v = Ok ?o |- _ =>
        unfold z_object in Hx; destruct v; try discriminate Hx;
        inversion Hx; subst; exists o
    end.
    split; [reflexivity|].
    repeat match goal with
           | Hx : z_string _ ?x = Ok _ |- _ =>
               unfold z_string in Hx; destruct x eqn:?; try discriminate Hx;
               inversion Hx; subst; clear Hx
           | Hx : z_url _ ?x = Ok _ |- _ =>
               unfold z_url, z_string in Hx; destruct x eqn:?;
               try discriminate Hx; cbn [res_bind] in Hx;
               match type of Hx with
               | (if ?c then _ else _) = _ =>
                   destruct c; inversion Hx; subst; clear Hx
               end
           end.
    split; reflexivity.
  - intros customLogic article options st r st' Hp.
    destruct (wants_draftOnly options) eqn:Ew; [left | right; reflexivity].
    match type of Hp with
    | publish ?d _ _ _ _ = _ => set (dsl := d) in *
    end.
    destruct (@publish_returns B W R dsl customLogic article options st)
      as (r0 & st0 & Hq & Hthrow & Hok).
    rewrite Hq in Hp. inversion Hp; subst r0 st0. clear Hp.
    destruct (publish_try dsl customLogic article options st)
      as [[r1|e] st1] eqn:Et.
    + destruct (Hok r1 st1 eq_refl) as [-> ->].
      unfold publish_try in Et. bind_inv Et.
      unfold publish_steps in Et. repeat bind_inv Et. rewrite Ew in Et.
      rewrite createResult_run in Et. inversion Et; subst. reflexivity.
    + destruct (Hthrow e st1 eq_refl) as [-> ->]. reflexivity.
Qed.

End SchemaFacts.

(* ------------------------------------------------------------------ *)
(** ** The optional methods *)

Section OptionalFacts.
Context {B : Builtins} {W : Type} {R : Runtime W}.
Variable dsl : AdapterDSL.
Variable customLogic : option (CustomLogic W).

(** X16. [uploadImageByUrl] throws [Platform does not support URL-based
    image upload] when there is no upload hook, and throws what the hook
    throws. It also throws when the hook returns [null] or [undefined].
    Otherwise it returns a value that is neither: for an object the first
    truthy one of [src], [url] and [image_url], or the object itself; for
    anything else, a string in particular, what the hook returned. The trace
    is left as it is. *)
Theorem uploadImageByUrl_outcome (imageUrl : string) (st : State W) :
  match hook customLogic (@upload_image_by_url W) with
  | None =>
      uploadImageByUrl customLogic imageUrl st
      = (Throw (Error "Platform does not support URL-based image upload"), st)
  | Some upload =>
      match upload (VStr imageUrl) (world st) with
      | (Throw e, w) =>
          uploadImageByUrl customLogic imageUrl st
          = (Throw e, {| world := w; trace := trace st |})
      | (Ok result, w) =>
          if is_nullish result then
            exists e,
              uploadImageByUrl customLogic imageUrl st
              = (Throw e, {| world := w; trace := trace st |})
          else
            exists v,
              uploadImageByUrl customLogic imageUrl st
              = (Ok v, {| world := w; trace := trace st |})
              /\ is_nullish v = false
              /\ match result with
                 | VObj o =>
                     v = js_or (obj_get o "src")
                           (js_or (obj_get o "url")
                              (js_or (obj_get o "image_url") result))
                 | _ => v = result
                 end
      end
  end.
Proof.
  unfold uploadImageByUrl.
  destruct (hook customLogic (@upload_image_by_url W)) as [upload|];
    [|reflexivity].
  unfold bind, ext, lift, ret.
  destruct (upload (VStr imageUrl) (world st)) as [[result|e] w];
    [|reflexivity].
  assert (Htn : forall x, truthy x = true -> is_nullish x = false)
    by (intros []; simpl; congruence).
  destruct result as [| |b|q|s|xs|o]; cbn.
  1-2: eexists; reflexivity.
  1-4: eexists; split; [reflexivity | split; reflexivity].
  unfold js_or.
  destruct (truthy (obj_get o "src")) eqn:E0;
    [eexists; split; [reflexivity | split; [apply Htn; exact E0 | reflexivity]]|].
  destruct (truthy (obj_get o "url")) eqn:E1;
    [eexists; split; [reflexivity | split; [apply Htn; exact E1 | reflexivity]]|].
  destruct (truthy (obj_get o "image_url")) eqn:E2;
    [eexists; split; [reflexivity | split; [apply Htn; exact E2 | reflexivity]]|].
  eexists; split; [reflexivity | split; reflexivity].
Qed.

(** X17. Without a [get_categories] endpoint, [getCategories] returns the
    empty list and does nothing. With one, it executes that endpoint once,
    with an empty context; what the execution throws is thrown on, not
    caught; otherwise the result is the extracted [categories] when that is
    truthy and the empty list when it is not, so never [undefined]. *)
Theorem getCategories_outcome (st : State W) :
  match endpoint dsl "get_categories" with
  | None => getCategories dsl customLogic st = (Ok (VArr []), st)
  | Some get_categories =>
      executions (trace (snd (getCategories dsl customLogic st)))
      = (executions (trace st) ++ [(get_categories, VObj [])])%list
      /\ match executeEndpoint customLogic get_categories (VObj []) st with
         | (Throw e, st') => getCategories dsl customLogic st = (Throw e, st')
         | (Ok result, st') =>
             exists v,
               getCategories dsl customLogic st = (Ok v, st')
               /\ truthy v = true
               /\ (truthy (obj_get (extracted result) "categories") = true ->
                   v = obj_get (extracted result) "categories")
               /\ (truthy (obj_get (extracted result) "categories") = false ->
                   v = VArr [])
         end
  end.
Proof.
  unfold getCategories.
  destruct (endpoint dsl "get_categories") as [get_categories|];
    [|reflexivity].
  pose proof (@executeEndpoint_trace B W R customLogic get_categories
                (VObj []) st) as Ht.
  unfold bind.
  destruct (executeEndpoint customLogic get_categories (VObj []) st)
    as [[result|e] st'] eqn:Ee; cbn [snd fst] in *.
  - unfold ret. cbn [snd].
    split; [rewrite Ht; apply executions_cons_execute|].
    unfold js_or.
    destruct (truthy (obj_get (extracted result) "categories")) eqn:Ec;
      eexists; (split; [reflexivity|]); repeat split; auto; discriminate.
  - split; [rewrite Ht; apply executions_cons_execute | reflexivity].
Qed.

End OptionalFacts.

(* ------------------------------------------------------------------ *)
(** ** From a definition to its document and back *)

Lemma traverse_unknown (loc : string) (fs : Obj) :
  traverse_fields z_unknown loc fs = Ok fs.
Proof.
  induction fs as [|[k x] fs IH]; simpl; [reflexivity|].
  rewrite IH. reflexivity.
Qed.

(** X18. An endpoint definition whose headers are strings, written as a
    document with its absent optional fields left out, is accepted by
    [EndpointSchema] and read back as it was: validation loses no field of
    an endpoint. *)
Theorem EndpointSchema_round_trip (loc : string) (ep : EndpointDef) :
  (forall h, req_headers ep = Some h -> exists l, h = strings_as_values l) ->
  EndpointSchema loc (endpoint_document ep) = Ok ep.
Proof.
  destruct ep as [url method headers ct body success extract error].
  cbn [req_headers]. intros Hh.
  unfold EndpointSchema, endpoint_document.
  cbn [z_object res_bind obj_get String.eqb Ascii.eqb Bool.eqb
       req_url req_method req_headers req_content_type req_body
       resp_success resp_extract resp_error app].
  unfold z_string at 1. cbn [res_bind].
  assert (Hm : z_enum [("GET", GET); ("POST", POST); ("PUT", PUT);
                       ("PATCH", PATCH); ("DELETE", DELETE)]
                 (loc ++ ".request.method") (VStr (method_name method))
               = Ok method) by (destruct method; reflexivity).
  rewrite Hm. cbn [res_bind].
  destruct headers as [h|].
  - destruct (Hh h eq_refl) as [l ->].
    destruct ct as [c|], body as [b|], success as [s|], extract as [x|],
      error as [e|];
      cbn [optional_field option_map app obj_get String.eqb Ascii.eqb
           Bool.eqb z_optional z_record z_string res_bind];
      rewrite ?traverse_strings, ?traverse_unknown; cbn [res_bind];
      try (destruct c; cbn [content_type_name z_enum enum_lookup String.eqb
                            Ascii.eqb Bool.eqb res_bind]);
      rewrite ?traverse_strings, ?traverse_unknown; reflexivity.
  - destruct ct as [c|], body as [b|], success as [s|], extract as [x|],
      error as [e|];
      cbn [optional_field option_map app obj_get String.eqb Ascii.eqb
           Bool.eqb z_optional z_record z_string res_bind];
      rewrite ?traverse_strings, ?traverse_unknown; cbn [res_bind];
      try (destruct c; cbn [content_type_name z_enum enum_lookup String.eqb
                            Ascii.eqb Bool.eqb res_bind]);
      rewrite ?traverse_strings, ?traverse_unknown; reflexivity.
Qed.

Section FilesFacts.
Context {B : Builtins} {W : Type} {R : Runtime W} {G : Registry W}.

(** X19. When [parseDSLFiles] returns, it returns one entry per file, in
    the order of the files; each is the entry made from the definition
    parsed from that file, without custom logic, registered under the name
    of the definition. Nothing was logged and the world is as before. *)
Theorem parseDSLFiles_entries (files : list (string * string))
    (st st' : State W) (entries : list (AdapterRegistryEntry W)) :
  parseDSLFiles files st = (Ok entries, st') ->
  st' = st
  /\ Forall2 (fun file entry =>
                exists dsl,
                  parseDSL (snd file) = Ok dsl
                  /\ entry = createAdapterFromDSL dsl None
                  /\ meta_id (meta entry) = name dsl)
             files entries.
Proof.
  revert st st' entries.
  induction files as [|[path content] files IH]; intros st st' entries H;
    simpl in H.
  - inversion H; subst. split; [reflexivity | constructor].
  - bind_inv H. bind_inv H. unfold ret in H. inversion H; subst. clear H.
    unfold try_catch, bind, lift in Hstep.
    destruct (parseDSL content) as [dsl|e] eqn:Ep.
    + unfold ret in Hstep. inversion Hstep; subst.
      destruct (IH _ _ _ Hstep0) as [-> Hf].
      split; [reflexivity|]. constructor; [|exact Hf].
      exists dsl. repeat split. exact Ep.
    + unfold emit, throw in Hstep. discriminate Hstep.
Qed.

End FilesFacts.

(* ------------------------------------------------------------------ *)
(** ** Escaping *)

Lemma replace_char_app (c : ascii) (replacement a b : string) :
  replace_char c replacement (a ++ b)
  = replace_char c replacement a ++ replace_char c replacement b.
Proof.
  induction a as [|x a IH]; simpl; [reflexivity|].
  rewrite IH, string_app_assoc. reflexivity.
Qed.

Lemma entity_cases (c : ascii) :
  (c = "&"%char \/ c = "<"%char \/ c = ">"%char \/ c = ascii_of_nat 34
   \/ c = "'"%char)
  \/ ((c =? "&")%char = false /\ is_markup c = false
      /\ entity c = String c EmptyString).
Proof.
  unfold is_markup, entity.
  destruct (Ascii.eqb_spec c "&"); [auto|].
  destruct (Ascii.eqb_spec c "<"); [auto|].
  destruct (Ascii.eqb_spec c ">"); [auto|].
  destruct (Ascii.eqb_spec c (ascii_of_nat 34)); [auto 6|].
  destruct (Ascii.eqb_spec c "'"); [auto 6|].
  right. repeat split.
Qed.

Lemma escapeHtml_cons (c : ascii) (r : string) :
  escapeHtml (String c r) = entity c ++ escapeHtml r.
Proof.
  unfold escapeHtml. cbn [replace_char].
  rewrite !replace_char_app. f_equal.
  destruct (entity_cases c) as [[ -> | [ -> | [ -> | [ -> | -> ]]]] | (Ha & Hm & He)];
    try reflexivity.
  rewrite He, Ha. unfold is_markup in Hm.
  apply orb_false_iff in Hm as [Hm H4]. apply orb_false_iff in Hm as [Hm H3].
  apply orb_false_iff in Hm as [H1 H2].
  cbn [replace_char append]. rewrite H1. cbn [replace_char append].
  rewrite H2. cbn [replace_char append]. rewrite H3.
  cbn [replace_char append]. rewrite H4. reflexivity.
Qed.

Lemma escapeHtml_each (text : string) : escapeHtml text = escape_each text.
Proof.
  induction text as [|c r IH]; [reflexivity|].
  rewrite escapeHtml_cons, IH. reflexivity.
Qed.

Lemma string_forallb_app (p : ascii -> bool) (a b : string) :
  string_forallb p (a ++ b) = string_forallb p a && string_forallb p b.
Proof.
  induction a as [|x a IH]; simpl; [reflexivity|].
  rewrite IH, andb_assoc. reflexivity.
Qed.

Lemma entity_inj (x y : ascii) (a b : string) :
  entity x ++ a = entity y ++ b -> x = y /\ a = b.
Proof.
  destruct (entity_cases x) as [[ -> | [ -> | [ -> | [ -> | -> ]]]] | (Hx & Hmx & Hex)];
    destruct (entity_cases y) as [[ -> | [ -> | [ -> | [ -> | -> ]]]] | (Hy & Hmy & Hey)];
    try rewrite Hex; try rewrite Hey;
    intros H; try (vm_compute in H; discriminate H);
    try (cbn in H; inversion H; subst; split; reflexivity);
    try (cbn in H; inversion H; subst;
         first [discriminate Hx | discriminate Hy
               | vm_compute in Hmx; discriminate Hmx
               | vm_compute in Hmy; discriminate Hmy]).
Qed.

(** X20. [escapeHtml], five replacements one after the other, is escaping
    in one pass: each ampersand, angle bracket and quote is replaced by its
    entity and every other character is kept; no replacement touches the
    output of an earlier one. The result holds no angle bracket and no
    quote. Two texts with the same escaped text are the same text. A text
    without these five characters is returned as it is. *)
Theorem escapeHtml_escapes (text : string) :
  escapeHtml text = escape_each text
  /\ string_forallb (fun c => negb (is_markup c)) (escapeHtml text) = true
  /\ (forall other, escapeHtml other = escapeHtml text -> other = text)
  /\ (string_forallb (fun c => negb (is_markup c) && negb (c =? "&")%char) text
      = true -> escapeHtml text = text).
Proof.
  split; [apply escapeHtml_each|]. split; [|split].
  - rewrite escapeHtml_each. induction text as [|c r IH]; [reflexivity|].
    cbn [escape_each]. rewrite string_forallb_app, IH, andb_true_r.
    destruct (entity_cases c) as [[ -> | [ -> | [ -> | [ -> | -> ]]]] | (Ha & Hm & He)];
      try reflexivity.
    rewrite He. simpl. rewrite Hm. reflexivity.
  - induction text as [|c r IH]; intros other H;
      rewrite !escapeHtml_each in H.
    + destruct other as [|y o]; [reflexivity|]. exfalso. cbn in H.
      destruct (entity_cases y) as [[ -> | [ -> | [ -> | [ -> | -> ]]]] | (_ & _ & He)];
        try rewrite He in H; discriminate H.
    + destruct other as [|y o].
      * exfalso. cbn in H.
        destruct (entity_cases c) as [[ -> | [ -> | [ -> | [ -> | -> ]]]] | (_ & _ & He)];
          try rewrite He in H; discriminate H.
      * cbn [escape_each] in H. apply entity_inj in H as [-> H].
        f_equal. apply IH. rewrite !escapeHtml_each. exact H.
  - rewrite escapeHtml_each. induction text as [|c r IH]; intros H;
      [reflexivity|].
    simpl in H. apply andb_true_iff in H as [Hc Hr].
    apply andb_true_iff in Hc as [Hm Ha].
    cbn [escape_each]. rewrite IH by exact Hr.
    destruct (entity_cases c) as [[ -> | [ -> | [ -> | [ -> | -> ]]]] | (_ & _ & He)];
      try discriminate Hm; try discriminate Ha.
    rewrite He. reflexivity.
Qed.

(* ------------------------------------------------------------------ *)
(** ** The steps of [publish] *)

Section StepFacts.
Context {B : Builtins} {W : Type} {R : Runtime W}.
Variable dsl : AdapterDSL.
Variable customLogic : option (CustomLogic W).

(** X21. Once the transformations are done, a draft step that throws ends
    [publish]: when [create_draft] throws, the result is the failure with
    the message of the error and [create_draft] is the only endpoint
    executed; when [create_draft] returns a truthy [draft_id] and
    [update_draft] throws, the result is the failure with that message and
    these two are the only endpoints executed. The [publish] endpoint is
    not executed in either case. *)
Theorem failing_draft_step_ends_publish (article : Article)
    (options : option (PublishOptions W)) (st st1 : State W) (wa : Obj) :
  publish_transform dsl customLogic article options st = (Ok wa, st1) ->
  (forall cd e st2,
     endpoint dsl "create_draft" = Some cd ->
     executeEndpoint customLogic cd (VObj (context_of wa)) st1 = (Throw e, st2) ->
     publish dsl customLogic article options st
     = (Ok (failure_result (name dsl) (Date_now (world st2)) (message e)), st2)
     /\ executions (trace st2)
        = (executions (trace st1) ++ [(cd, VObj (context_of wa))])%list)
  /\ (forall cd ud dr e st2 st3,
        endpoint dsl "create_draft" = Some cd ->
        endpoint dsl "update_draft" = Some ud ->
        executeEndpoint customLogic cd (VObj (context_of wa)) st1
        = (Ok dr, st2) ->
        truthy (obj_get (extracted dr) "draft_id") = true ->
        executeEndpoint customLogic ud
          (VObj (obj_set (context_of wa) "draft_id"
                   (obj_get (extracted dr) "draft_id"))) st2
        = (Throw e, st3) ->
        publish dsl customLogic article options st
        = (Ok (failure_result (name dsl) (Date_now (world st3)) (message e)),
           st3)
        /\ executions (trace st3)
           = (executions (trace st1)
              ++ [(cd, VObj (context_of wa));
                  (ud, VObj (obj_set (context_of wa) "draft_id"
                               (obj_get (extracted dr) "draft_id")))])%list).
Proof.
  intros Ht.
  rewrite (@publish_after_transform B W R dsl customLogic article options
             st st1 wa Ht).
  split.
  - intros cd e st2 Hcd He.
    pose proof (@executeEndpoint_trace B W R customLogic cd
                  (VObj (context_of wa)) st1) as Htr.
    rewrite He in Htr. cbn [snd] in Htr.
    split.
    + unfold try_catch, publish_steps. rewrite Hcd.
      erewrite bind_throw; [|erewrite bind_throw; [reflexivity|exact He]].
      rewrite createResult_run. reflexivity.
    + rewrite Htr. apply executions_cons_execute.
  - intros cd ud dr e st2 st3 Hcd Hud Hdr Hid He.
    pose proof (@executeEndpoint_trace B W R customLogic cd
                  (VObj (context_of wa)) st1) as Htr1.
    rewrite Hdr in Htr1. cbn [snd] in Htr1.
    pose proof (@executeEndpoint_trace B W R customLogic ud
                  (VObj (obj_set (context_of wa) "draft_id"
                           (obj_get (extracted dr) "draft_id"))) st2) as Htr2.
    rewrite He in Htr2. cbn [snd] in Htr2.
    split.
    + unfold try_catch, publish_steps. rewrite Hcd, Hud.
      erewrite bind_ok; [|erewrite bind_ok; [reflexivity|exact Hdr]].
      cbn [fst snd]. rewrite Hid.
      erewrite bind_throw; [|erewrite bind_throw; [reflexivity|exact He]].
      rewrite createResult_run. reflexivity.
    + rewrite Htr2, Htr1. rewrite !executions_cons_execute.
      rewrite <- app_assoc. reflexivity.
Qed.

(** X22. When the definition has a [publish] endpoint and drafts only are
    not asked for, a successful result of [publish] comes from the execution
    of that endpoint, which is the last thing done: [postId] and [postUrl]
    are its extracted [post_id] and [post_url] and nothing else (not the
    id of the draft). The context of that execution holds the working
    article and, when [create_draft] is defined, the [draft_id]. *)
Theorem publish_endpoint_gives_the_ids (article : Article)
    (options : option (PublishOptions W)) (st st' : State W) (r : SyncResult)
    (p : EndpointDef) :
  endpoint dsl "publish" = Some p ->
  wants_draftOnly options = false ->
  publish dsl customLogic article options st = (Ok r, st') ->
  success r = true ->
  exists wa st1 context pr stp,
    publish_transform dsl customLogic article options st = (Ok wa, st1)
    /\ executeEndpoint customLogic p (VObj context) stp = (Ok pr, st')
    /\ postId r = obj_get (extracted pr) "post_id"
    /\ postUrl r = obj_get (extracted pr) "post_url"
    /\ obj_get context "article" = VObj wa
    /\ map fst context
       = match endpoint dsl "create_draft" with
         | Some _ => ["article"; "draft_id"]
         | None => ["article"]
         end
    /\ trace st' = EvExecute p (VObj context) :: trace stp.
Proof.
  intros Hp Hw H Hs.
  destruct (@publish_returns B W R dsl customLogic article options st)
    as (r0 & st0 & Hq & Hthrow & Hok).
  rewrite Hq in H. inversion H; subst r0 st0. clear H.
  destruct (publish_try dsl customLogic article options st)
    as [[r1|e] st9] eqn:Et.
  2:{ destruct (Hthrow e st9 eq_refl) as [_ ->]. discriminate Hs. }
  destruct (Hok r1 st9 eq_refl) as [-> ->]. clear Hok Hthrow Hq.
  unfold publish_try in Et. bind_inv Et. rename a into wa, s into st1.
  exists wa, st1.
  unfold publish_steps in Et. rewrite Hw, Hp in Et.
  bind_inv Et. destruct a as [draftId context]. cbn [fst snd] in Et.
  bind_inv Et. bind_inv Et. rewrite createResult_run in Et.
  inversion Et; subst. clear Et.
  exists context, a0, s0.
  pose proof (@executeEndpoint_trace B W R customLogic p (VObj context) s0)
    as Htr.
  rewrite Hstep2 in Htr. cbn [snd] in Htr.
  split; [exact Hstep|]. split; [exact Hstep2|].
  split; [reflexivity|]. split; [reflexivity|].
  assert (Hc : obj_get context "article" = VObj wa
               /\ map fst context
                  = match endpoint dsl "create_draft" with
                    | Some _ => ["article"; "draft_id"]
                    | None => ["article"]
                    end).
  { destruct (endpoint dsl "create_draft") as [cd|].
    - bind_inv Hstep0. unfold ret in Hstep0. inversion Hstep0; subst.
      split; reflexivity.
    - unfold ret in Hstep0. inversion Hstep0; subst. split; reflexivity. }
  destruct Hc as [Hc1 Hc2].
  split; [exact Hc1|]. split; [exact Hc2 | exact Htr].
Qed.

End StepFacts.

(* ------------------------------------------------------------------ *)
(** ** Compaction *)

Lemma remove_gaps_cons (c : ascii) (r : string) :
  remove_gaps (String c r) =
  match match_gap (String c r) with
  | Some rest => "><" ++ remove_gaps rest
  | None => String c (remove_gaps r)
  end.
Proof.
  rewrite remove_gaps_equation_2. unfold Logic.inspect.
  assert (G : forall o (e : match_gap (String c r) = o),
    remove_gaps_unfold_clause_2 c r (exist _ o e) =
    match o with
    | Some rest => "><" ++ remove_gaps rest
    | None => String c (remove_gaps r)
    end).
  { intros o e. destruct o; reflexivity. }
  apply G.
Qed.

Lemma match_gap_inv (s rest : string) :
  match_gap s = Some rest ->
  exists ws, s = ">" ++ ws ++ "<" ++ rest
             /\ ws <> EmptyString
             /\ string_forallb is_space ws = true.
Proof.
  unfold match_gap. destruct s as [|c r]; [discriminate|].
  destruct c as [[] [] [] [] [] [] [] []]; try discriminate.
  destruct (span is_space r) as [ws rest0] eqn:E.
  apply span_inv in E as [-> Hws].
  destruct ws as [|w ws]; [discriminate|].
  destruct rest0 as [|x rest1]; [discriminate|].
  destruct x as [[] [] [] [] [] [] [] []]; try discriminate.
  intros H. inversion H; subst. exists (String w ws).
  split; [reflexivity|]. split; [discriminate | exact Hws].
Qed.

Lemma match_gap_intro (ws rest : string) :
  ws <> EmptyString ->
  string_forallb is_space ws = true ->
  match_gap (">" ++ ws ++ "<" ++ rest) = Some rest.
Proof.
  intros Hne Hws.
  change (">" ++ ws ++ "<" ++ rest) with (String ">" (ws ++ String "<" rest)).
  unfold match_gap.
  rewrite (@span_all is_space ws "<" rest Hws eq_refl).
  destruct ws; [contradiction Hne; reflexivity | reflexivity].
Qed.

Lemma match_gap_other (c : ascii) (r : string) :
  c <> ">"%char -> match_gap (String c r) = None.
Proof.
  intros Hc. unfold match_gap.
  destruct c as [[] [] [] [] [] [] [] []]; try reflexivity.
  contradiction Hc. reflexivity.
Qed.

Lemma space_not_gt (c : ascii) : is_space c = true -> c <> ">"%char.
Proof. intros H ->. discriminate H. Qed.

Lemma remove_gaps_head (s : string) :
  head_char (remove_gaps s) = head_char s.
Proof.
  destruct s as [|c r]; [reflexivity|]. rewrite remove_gaps_cons.
  destruct (match_gap (String c r)) as [rest|] eqn:E; [|reflexivity].
  apply match_gap_inv in E as (ws & Hs & _). inversion Hs. reflexivity.
Qed.

Lemma remove_gaps_spaces (ws s : string) :
  string_forallb is_space ws = true ->
  remove_gaps (ws ++ s) = ws ++ remove_gaps s.
Proof.
  induction ws as [|c ws IH]; intros H; [reflexivity|].
  simpl in H. apply andb_true_iff in H as [Hc Hws].
  cbn [append]. rewrite remove_gaps_cons.
  rewrite (@match_gap_other c (ws ++ s) (@space_not_gt c Hc)), IH by exact Hws.
  reflexivity.
Qed.

Lemma span_rest_head (p : ascii -> bool) (s a b : string) :
  span p s = (a, b) ->
  match head_char b with
  | Some c => p c = false
  | None => True
  end.
Proof.
  revert a b. induction s as [|x s IH]; intros a b H; simpl in H.
  - inversion H; subst. exact I.
  - destruct (p x) eqn:E.
    + destruct (span p s) as [a' b'] eqn:Es. inversion H; subst.
      exact (IH _ _ eq_refl).
    + inversion H; subst. exact E.
Qed.

Lemma span_stop (p : ascii -> bool) (a b : string) :
  string_forallb p a = true ->
  match head_char b with
  | Some c => p c = false
  | None => True
  end ->
  span p (a ++ b) = (a, b).
Proof.
  intros Ha Hb. destruct b as [|c b].
  - rewrite string_app_nil_r. clear Hb.
    induction a as [|x a IH]; [reflexivity|].
    simpl in *. apply andb_true_iff in Ha as [Hx Ha].
    rewrite Hx, IH by exact Ha. reflexivity.
  - apply span_all; assumption.
Qed.

Lemma span_remove_gaps (r ws rest : string) :
  span is_space r = (ws, rest) ->
  span is_space (remove_gaps r) = (ws, remove_gaps rest).
Proof.
  intros E. pose proof (@span_rest_head is_space r ws rest E) as Hh.
  apply span_inv in E as [-> Hws].
  rewrite remove_gaps_spaces by exact Hws.
  apply span_stop; [exact Hws|]. rewrite remove_gaps_head. exact Hh.
Qed.

Lemma match_gap_kept (c : ascii) (r : string) :
  match_gap (String c r) = None ->
  match_gap (String c (remove_gaps r)) = None.
Proof.
  destruct (ascii_dec c ">") as [->|Hc]; [|intros _; apply match_gap_other;
                                            exact Hc].
  unfold match_gap.
  destruct (span is_space r) as [ws rest] eqn:E.
  rewrite (@span_remove_gaps r ws rest E).
  destruct ws as [|w ws]; [reflexivity|].
  pose proof (remove_gaps_head rest) as Hh.
  destruct rest as [|x rest].
  - destruct (remove_gaps EmptyString); [reflexivity | discriminate Hh].
  - destruct (remove_gaps (String x rest)) as [|y t]; [discriminate Hh|].
    inversion Hh; subst y.
    destruct x as [[] [] [] [] [] [] [] []]; try reflexivity.
    intros H. discriminate H.
Qed.

Lemma remove_gaps_no_gap (n : nat) :
  forall s, String.length s <= n -> no_gap (remove_gaps s).
Proof.
  induction n as [|n IH]; intros s Hn.
  - destruct s; [|simpl in Hn; lia]. intros [|k]; reflexivity.
  - destruct s as [|c r]; [intros [|k]; reflexivity|].
    rewrite remove_gaps_cons.
    destruct (match_gap (String c r)) as [rest|] eqn:E.
    + pose proof E as E'. apply match_gap_inv in E' as (ws & Hs & Hne & Hws).
      assert (Hl : String.length rest <= n).
      { apply (f_equal String.length) in Hs. simpl in Hs.
        rewrite !string_length_app in Hs. simpl in *. lia. }
      intros [|[|k]].
      * simpl. destruct (remove_gaps rest); reflexivity.
      * reflexivity.
      * exact (IH rest Hl k).
    + intros [|k].
      * cbn [string_drop]. apply match_gap_kept. exact E.
      * cbn [string_drop]. apply (IH r); simpl in Hn; lia.
Qed.

Lemma no_gap_fixed (t : string) : no_gap t -> remove_gaps t = t.
Proof.
  induction t as [|c r IH]; intros H; [reflexivity|].
  rewrite remove_gaps_cons. pose proof (H 0) as H0. cbn [string_drop] in H0.
  rewrite H0. f_equal. apply IH. intros k. exact (H (S k)).
Qed.

Lemma string_drop_drop (n k : nat) (s : string) :
  string_drop k (string_drop n s) = string_drop (n + k) s.
Proof.
  revert s. induction n as [|n IH]; intros s; [reflexivity|].
  destruct s as [|c s]; simpl.
  - destruct k; reflexivity.
  - apply IH.
Qed.

Lemma no_gap_suffix (n : nat) (t : string) :
  no_gap t -> no_gap (string_drop n t).
Proof. intros H k. rewrite string_drop_drop. apply H. Qed.

Lemma drop_while_suffix (p : ascii -> bool) (s : string) :
  exists n, drop_while p s = string_drop n s.
Proof.
  induction s as [|c s [n IH]]; [exists 0; reflexivity|].
  simpl. destruct (p c); [exists (S n); exact IH | exists 0; reflexivity].
Qed.

Lemma drop_while_split (p : ascii -> bool) (s : string) :
  exists pre, s = pre ++ drop_while p s /\ string_forallb p pre = true.
Proof.
  induction s as [|c s (pre & Hs & Hp)]; [exists EmptyString; split; reflexivity|].
  simpl. destruct (p c) eqn:E.
  - exists (String c pre). simpl. rewrite E, Hp, <- Hs. split; reflexivity.
  - exists EmptyString. split; reflexivity.
Qed.

Lemma trimEnd_split (s : string) :
  exists ws, s = trimEnd s ++ ws.
Proof.
  unfold trimEnd.
  destruct (drop_while_split is_space (string_rev s)) as (pre & Hs & _).
  exists (string_rev pre).
  rewrite <- string_rev_app, <- Hs, string_rev_involutive. reflexivity.
Qed.

Lemma string_drop_app (k : nat) (p x : string) :
  k < String.length p -> string_drop k (p ++ x) = string_drop k p ++ x.
Proof.
  revert p. induction k as [|k IH]; intros p Hk; [reflexivity|].
  destruct p as [|c p]; [simpl in Hk; lia|].
  simpl. apply IH. simpl in Hk. lia.
Qed.

Lemma string_drop_all (k : nat) (p : string) :
  String.length p <= k -> string_drop k p = EmptyString.
Proof.
  revert p. induction k as [|k IH]; intros p Hk.
  - destruct p; [reflexivity | simpl in Hk; lia].
  - destruct p as [|c p]; [reflexivity|]. simpl. apply IH. simpl in Hk. lia.
Qed.

Lemma match_gap_app (s x rest : string) :
  match_gap s = Some rest -> match_gap (s ++ x) = Some (rest ++ x).
Proof.
  intros H. apply match_gap_inv in H as (ws & -> & Hne & Hws).
  rewrite !string_app_assoc.
  change ("<" ++ rest ++ x) with ("<" ++ (rest ++ x)).
  rewrite <- (string_app_assoc ws "<" (rest ++ x)).
  rewrite (string_app_assoc ws "<" (rest ++ x)).
  apply match_gap_intro; assumption.
Qed.

Lemma no_gap_prefix (p x : string) : no_gap (p ++ x) -> no_gap p.
Proof.
  intros H k. destruct (Nat.lt_ge_cases k (String.length p)) as [Hk|Hk].
  - specialize (H k). rewrite string_drop_app in H by exact Hk.
    destruct (match_gap (string_drop k p)) as [rest|] eqn:E; [|reflexivity].
    rewrite (@match_gap_app (string_drop k p) x rest E) in H. discriminate H.
  - rewrite string_drop_all by exact Hk. reflexivity.
Qed.

Lemma no_gap_trim (t : string) : no_gap t -> no_gap (trim t).
Proof.
  intros H. unfold trim.
  destruct (trimEnd_split (trimStart t)) as [ws Hs].
  apply (@no_gap_prefix _ ws). rewrite <- Hs. unfold trimStart.
  destruct (drop_while_suffix is_space t) as [n ->].
  apply no_gap_suffix. exact H.
Qed.

Lemma drop_while_idem (p : ascii -> bool) (s : string) :
  drop_while p (drop_while p s) = drop_while p s.
Proof.
  induction s as [|c s IH]; [reflexivity|]. simpl.
  destruct (p c) eqn:E; [exact IH|]. simpl. rewrite E. reflexivity.
Qed.

Lemma trimEnd_idem (s : string) : trimEnd (trimEnd s) = trimEnd s.
Proof.
  unfold trimEnd. rewrite string_rev_involutive, drop_while_idem. reflexivity.
Qed.

Lemma drop_while_head (p : ascii -> bool) (s : string) :
  match head_char (drop_while p s) with
  | Some c => p c = false
  | None => True
  end.
Proof.
  induction s as [|c s IH]; [exact I|]. simpl.
  destruct (p c) eqn:E; [exact IH | exact E].
Qed.

Lemma trimStart_trimEnd (s : string) :
  trimStart (trimEnd (trimStart s)) = trimEnd (trimStart s).
Proof.
  pose proof (drop_while_head is_space s) as Hh. fold (trimStart s) in Hh.
  destruct (trimEnd_split (trimStart s)) as [ws Hs].
  destruct (trimEnd (trimStart s)) as [|c t] eqn:E; [reflexivity|].
  rewrite Hs in Hh. simpl in Hh. unfold trimStart. simpl. rewrite Hh.
  reflexivity.
Qed.

Lemma trim_idem (s : string) : trim (trim s) = trim s.
Proof.
  unfold trim. rewrite trimStart_trimEnd, trimEnd_idem. reflexivity.
Qed.

(** X23. [compactHtml] leaves no white space between a closing and an
    opening angle bracket, anywhere in its result, and no white space at
    either end of it. Applying it twice is applying it once. On a text
    without such white space it only trims. *)
Theorem compactHtml_leaves_no_gap (html : string) :
  (forall k, match_gap (string_drop k (compactHtml html)) = None)
  /\ compactHtml (compactHtml html) = compactHtml html
  /\ trimStart (compactHtml html) = compactHtml html
  /\ trimEnd (compactHtml html) = compactHtml html
  /\ (no_gap html -> compactHtml html = trim html).
Proof.
  assert (Hg : no_gap (compactHtml html)).
  { apply no_gap_trim. apply (@remove_gaps_no_gap (String.length html)).
    apply Nat.le_refl. }
  split; [exact Hg|]. split; [|split; [|split]].
  - unfold compactHtml at 1. rewrite (@no_gap_fixed _ Hg).
    unfold compactHtml. apply trim_idem.
  - unfold compactHtml, trim. apply trimStart_trimEnd.
  - unfold compactHtml, trim. apply trimEnd_idem.
  - intros H. unfold compactHtml. rewrite (@no_gap_fixed _ H). reflexivity.
Qed.

(* ------------------------------------------------------------------ *)
(** ** Form bodies, and a concurrency that is not positive *)

Section FormFacts.
Context {B : Builtins}.


End FormFacts.

Section HangFacts.
Context {B : Builtins} {W : Type} {R : Runtime W} {G : Registry W}.

(** X25. With a concurrency of zero or less and at least one platform, the
    loop of [chunk] never ends, whatever the number of turns it is given:
    [sync] does not return, neither a task nor an error. *)
Theorem nonpositive_concurrency_never_returns (article : Article)
    (platforms : list string) (options : SyncOptions W) (c : Z)
    (tasks : TaskMap) (st : State W) :
  concurrency options = Some c ->
  (c <= 0)%Z ->
  platforms <> [] ->
  (forall fuel, chunk_loop fuel platforms c 0 = None)
  /\ sync article platforms options st = None
  /\ SyncEngine_sync tasks article platforms options st = None.
Proof.
  intros Hc Hneg Hne.
  destruct (@chunk_spec string platforms c) as (_ & _ & Hdiv).
  assert (Hloop : forall fuel, chunk_loop fuel platforms c 0 = None)
    by (apply Hdiv; assumption).
  assert (Hs : sync article platforms options st = None).
  { unfold sync, sync_loop, chunk. rewrite Hc. cbn [option_default].
    rewrite Hloop. reflexivity. }
  split; [exact Hloop|]. split; [exact Hs|].
  unfold SyncEngine_sync. cbv zeta. rewrite Hs. reflexivity.
Qed.

End HangFacts.

(* ------------------------------------------------------------------ *)
(** ** The further properties on the concrete host *)

(** X1 at work: five elements in batches of two. *)
Lemma chunk_batches_witness :
  (1 <= 2)%Z
  /\ exists batches,
       chunk [1; 2; 3; 4; 5] 2 = Some batches
       /\ concat batches = [1; 2; 3; 4; 5]
       /\ Z.of_nat (length batches)
          = ((Z.of_nat (length [1; 2; 3; 4; 5]) + 2 - 1) / 2)%Z
       /\ (forall k, k < length batches ->
             nth k batches []
             = firstn (Z.to_nat 2) (skipn (k * Z.to_nat 2) [1; 2; 3; 4; 5]))
       /\ (forall k, S k < length batches ->
             Z.of_nat (length (nth k batches [])) = 2%Z)
       /\ Forall (fun b => b <> []) batches.
Proof.
  split; [lia|].
  apply (@chunk_batches nat [1; 2; 3; 4; 5] 2). lia.
Defined.

(** X3 at work: of three tasks the running one is kept. *)
Lemma clearCompleted_witness :
  NoDup (map fst Demo.stored_tasks)
  /\ (forall taskId,
        getTask (clearCompleted Demo.stored_tasks) taskId
        = match getTask Demo.stored_tasks taskId with
          | Some task => if finished task then None else Some task
          | None => None
          end)
  /\ getAllTasks (clearCompleted Demo.stored_tasks)
     = filter (fun task => negb (finished task))
              (getAllTasks Demo.stored_tasks)
  /\ clearCompleted (clearCompleted Demo.stored_tasks)
     = clearCompleted Demo.stored_tasks.
Proof.
  assert (H : NoDup (map fst Demo.stored_tasks)).
  { repeat constructor; simpl; intuition discriminate. }
  split; [exact H|].
  exact (@clearCompleted_removes_the_finished Demo.stored_tasks H).
Defined.

(** X4 at work: a run on the engine that holds the three tasks. *)
Lemma sync_stores_witness :
  exists task tasks' st',
    NoDup (map fst Demo.stored_tasks)
    /\ SyncEngine_sync (B := Demo.builtins) (R := Demo.runtime)
         (G := Demo.registry) Demo.stored_tasks Demo.article
         ["drafts"; "nope"] (Demo.options 2 true None) Demo.state0
       = Some (task, tasks', st')
    /\ getTask tasks' (task_id task) = Some task
    /\ (forall taskId, taskId <> task_id task ->
          getTask tasks' taskId = getTask Demo.stored_tasks taskId)
    /\ NoDup (map fst tasks')
    /\ finished task = true
    /\ getTask (clearCompleted tasks') (task_id task) = None.
Proof.
  assert (H : NoDup (map fst Demo.stored_tasks)).
  { repeat constructor; simpl; intuition discriminate. }
  eexists _, _, _.
  split; [exact H|].
  split; [vm_compute; reflexivity|].
  refine (@sync_stores_a_finished_task Demo.builtins _ Demo.runtime
            Demo.registry Demo.stored_tasks _ Demo.article ["drafts"; "nope"]
            (Demo.options 2 true None) Demo.state0 _ _ H _).
  vm_compute. reflexivity.
Defined.

(** X5 at work: one platform publishes, the other is not registered. *)
Lemma sync_status_witness :
  exists task st',
    sync (B := Demo.builtins) (R := Demo.runtime) (G := Demo.registry)
      Demo.article ["drafts"; "nope"] (Demo.options 2 true None) Demo.state0
    = Some (task, st')
    /\ (task_status task = completed ->
        Forall (fun r => success r = true) (results task))
    /\ (never_throws (onProgress (Demo.options 2 true None)) ->
        forallb success (results task) = true -> task_status task = completed)
    /\ length (results task) <= length ["drafts"; "nope"]
    /\ (["drafts"; "nope"] = [] ->
        task_status task = completed /\ results task = []
        /\ st' = Demo.state0).
Proof.
  eexists _, _.
  split; [vm_compute; reflexivity|].
  refine (@sync_status Demo.builtins _ Demo.runtime Demo.registry
            Demo.article ["drafts"; "nope"] (Demo.options 2 true None)
            Demo.state0 _ _ _).
  vm_compute. reflexivity.
Defined.

(** X6 at work: three platforms in batches of two and a callback that
    throws. *)
Lemma throwing_progress_callback_witness :
  (1 <= 2)%Z
  /\ ["drafts"; "nope"; "denied"] <> []
  /\ (forall p r w, exists e w', Demo.failing_progress p r w = (Throw e, w'))
  /\ exists task st' e,
       sync (B := Demo.builtins) (R := Demo.runtime) (G := Demo.registry)
         Demo.article ["drafts"; "nope"; "denied"]
         {| concurrency := Some 2%Z; continueOnError := None;
            onProgress := Some Demo.failing_progress |} Demo.state0
       = Some (task, st')
       /\ sync_loop (B := Demo.builtins) (R := Demo.runtime)
            (G := Demo.registry)
            Demo.article ["drafts"; "nope"; "denied"]
            {| concurrency := Some 2%Z; continueOnError := None;
               onProgress := Some Demo.failing_progress |} Demo.state0
          = Some (e, st')
       /\ task_status task = failed
       /\ results task = []
       /\ started e = firstn (Z.to_nat 2) ["drafts"; "nope"; "denied"].
Proof.
  assert (Hcb : forall p r w,
            exists e w', Demo.failing_progress p r w = (Throw e, w'))
    by (intros p r w; eexists _, _; reflexivity).
  split; [lia|]. split; [discriminate|]. split; [exact Hcb|].
  apply (@throwing_progress_callback_loses_the_results Demo.builtins _
           Demo.runtime Demo.registry);
    [lia | discriminate | exact Hcb].
Defined.


(** X10 at work on the creation of the draft. *)
Lemma executeEndpoint_result_witness :
  executeEndpoint (B := Demo.builtins) (R := Demo.runtime) None
    Demo.create_ep (VObj (context_of Demo.drafts_wa)) Demo.state0
  = (Ok Demo.drafts_dr, Demo.drafts_st2)
  /\ (forall successExpr,
        truthy_string (resp_success Demo.create_ep) = Some successExpr ->
        exists v, evaluateJsonPath successExpr (data Demo.drafts_dr) = Ok v
                  /\ truthy v = true)
  /\ match resp_extract Demo.create_ep with
     | Some paths =>
         extract_fields paths (data Demo.drafts_dr)
         = Ok (extracted Demo.drafts_dr)
         /\ (NoDup (map fst paths) ->
             map fst (extracted Demo.drafts_dr) = map fst paths
             /\ forall k p, In (k, p) paths ->
                  evaluateJsonPath p (data Demo.drafts_dr)
                  = Ok (obj_get (extracted Demo.drafts_dr) k))
     | None => extracted Demo.drafts_dr = []
     end.
Proof.
  assert (H : executeEndpoint (B := Demo.builtins) (R := Demo.runtime) None
                Demo.create_ep (VObj (context_of Demo.drafts_wa)) Demo.state0
              = (Ok Demo.drafts_dr, Demo.drafts_st2))
    by (vm_compute; reflexivity).
  split; [exact H|].
  exact (@executeEndpoint_result_is_checked Demo.builtins _ Demo.runtime None
           Demo.create_ep (VObj (context_of Demo.drafts_wa)) Demo.state0
           Demo.drafts_st2 Demo.drafts_dr H).
Defined.


(** X14 at work: the probe of the platform is answered with HTTP 401. *)
Lemma failed_probe_witness :
  exists st1,
    registry_get (Registry := Demo.registry) "denied" (world Demo.state0)
    = (Ok (Some (DSLAdapter (B := Demo.builtins) (R := Demo.runtime)
                   Demo.denied_dsl None)), Demo.world0)
    /\ executeEndpoint (B := Demo.builtins) (R := Demo.runtime) None
         (auth_check Demo.denied_dsl) (VObj [])
         {| world := Demo.world0; trace := trace Demo.state0 |}
       = (Throw (Error "HTTP 401: Unauthorized"), st1)
    /\ syncToPlatform (B := Demo.builtins) (R := Demo.runtime)
         (G := Demo.registry) Demo.article "denied" Demo.state0
       = (Ok (failure_result "denied"
                (Date_now (Runtime := Demo.runtime) (world st1))
                ("Not authenticated: "
                 ++ (if string_is_empty (message (Error "HTTP 401: Unauthorized"))
                     then "Please login first"
                     else message (Error "HTTP 401: Unauthorized")))), st1)
    /\ executions (trace st1)
       = (executions (trace Demo.state0)
          ++ [(auth_check Demo.denied_dsl, VObj [])])%list.
Proof.
  eexists. split; [reflexivity|]. split; [vm_compute; reflexivity|].
  eapply (@failed_probe_ends_the_workflow Demo.builtins _ Demo.runtime
            Demo.registry Demo.denied_dsl None Demo.article "denied"
            Demo.state0 _ Demo.world0 (Error "HTTP 401: Unauthorized"));
    [reflexivity | vm_compute; reflexivity].
Defined.

(** X15 at work on the document of the examples. *)
Lemma validated_definition_witness :
  exists dsl,
    AdapterDSLSchema (B := Demo.builtins) (Demo.definition_doc "$.code == 0")
    = Ok dsl
    /\ is_url (Builtins := Demo.builtins) (homepage dsl) = true
    /\ Forall (fun c => In c ["article"; "draft"; "image_upload"; "categories";
                             "tags"; "cover"; "schedule"])
              (capabilities dsl)
    /\ (exists o, Demo.definition_doc "$.code == 0" = VObj o
                  /\ obj_get o "name" = VStr (name dsl)
                  /\ obj_get o "homepage" = VStr (homepage dsl))
    /\ draft_url_template dsl = None
    /\ html_processing dsl = None
    /\ output_format dsl = None
    /\ forall (customLogic : option (CustomLogic Demo.World))
              article options st r st',
         publish (B := Demo.builtins) (R := Demo.runtime) dsl customLogic
           article options st = (Ok r, st') ->
         postUrl r = VUndefined \/ wants_draftOnly options = false.
Proof.
  eexists. split; [vm_compute; reflexivity|].
  refine (@validated_definition Demo.builtins Demo.World Demo.runtime
            (Demo.definition_doc "$.code == 0") _ _).
  vm_compute. reflexivity.
Defined.

(** X18 at work on the endpoint that creates the draft. *)
Lemma EndpointSchema_round_trip_witness :
  (forall h, req_headers Demo.create_ep = Some h ->
             exists l, h = strings_as_values l)
  /\ EndpointSchema "endpoints.create_draft" (endpoint_document Demo.create_ep)
     = Ok Demo.create_ep.
Proof.
  assert (H : forall h, req_headers Demo.create_ep = Some h ->
                        exists l, h = strings_as_values l)
    by (intros h Hh; discriminate Hh).
  split; [exact H|].
  exact (@EndpointSchema_round_trip "endpoints.create_draft" Demo.create_ep H).
Defined.

(** X19 at work on two files. *)
Lemma parseDSLFiles_entries_witness :
  exists entries st',
    parseDSLFiles (B := Demo.builtins) (R := Demo.runtime)
      [("a.yaml", "good"); ("b.yaml", "odd")] Demo.state0
    = (Ok entries, st')
    /\ st' = Demo.state0
    /\ Forall2 (fun file entry =>
                  exists dsl,
                    parseDSL (B := Demo.builtins) (snd file) = Ok dsl
                    /\ entry = createAdapterFromDSL (B := Demo.builtins)
                                 (R := Demo.runtime) dsl None
                    /\ meta_id (meta entry) = name dsl)
               [("a.yaml", "good"); ("b.yaml", "odd")] entries.
Proof.
  eexists _, _. split; [vm_compute; reflexivity|].
  refine (@parseDSLFiles_entries Demo.builtins _ Demo.runtime
            [("a.yaml", "good"); ("b.yaml", "odd")] Demo.state0 _ _ _).
  vm_compute. reflexivity.
Defined.

(** X21 at work: [create_draft] is refused. *)
Lemma failing_draft_step_witness :
  publish_transform (B := Demo.builtins) (W := Demo.World)
    Demo.rejecting_dsl None Demo.article None Demo.state0
  = (Ok Demo.drafts_wa, Demo.state0)
  /\ (forall cd e st2,
        endpoint Demo.rejecting_dsl "create_draft" = Some cd ->
        executeEndpoint (B := Demo.builtins) (R := Demo.runtime) None cd
          (VObj (context_of Demo.drafts_wa)) Demo.state0 = (Throw e, st2) ->
        publish (B := Demo.builtins) (R := Demo.runtime) Demo.rejecting_dsl
          None Demo.article None Demo.state0
        = (Ok (failure_result (name Demo.rejecting_dsl)
                 (Date_now (Runtime := Demo.runtime) (world st2))
                 (message e)), st2)
        /\ executions (trace st2)
           = (executions (trace Demo.state0)
              ++ [(cd, VObj (context_of Demo.drafts_wa))])%list)
  /\ (forall cd ud dr e st2 st3,
        endpoint Demo.rejecting_dsl "create_draft" = Some cd ->
        endpoint Demo.rejecting_dsl "update_draft" = Some ud ->
        executeEndpoint (B := Demo.builtins) (R := Demo.runtime) None cd
          (VObj (context_of Demo.drafts_wa)) Demo.state0 = (Ok dr, st2) ->
        truthy (obj_get (extracted dr) "draft_id") = true ->
        executeEndpoint (B := Demo.builtins) (R := Demo.runtime) None ud
          (VObj (obj_set (context_of Demo.drafts_wa) "draft_id"
                   (obj_get (extracted dr) "draft_id"))) st2
        = (Throw e, st3) ->
        publish (B := Demo.builtins) (R := Demo.runtime) Demo.rejecting_dsl
          None Demo.article None Demo.state0
        = (Ok (failure_result (name Demo.rejecting_dsl)
                 (Date_now (Runtime := Demo.runtime) (world st3))
                 (message e)), st3)
        /\ executions (trace st3)
           = (executions (trace Demo.state0)
              ++ [(cd, VObj (context_of Demo.drafts_wa));
                  (ud, VObj (obj_set (context_of Demo.drafts_wa) "draft_id"
                               (obj_get (extracted dr) "draft_id")))])%list).
Proof.
  assert (Ht : publish_transform (B := Demo.builtins) (W := Demo.World)
                 Demo.rejecting_dsl None Demo.article None Demo.state0
               = (Ok Demo.drafts_wa, Demo.state0))
    by (vm_compute; reflexivity).
  split; [exact Ht|].
  exact (@failing_draft_step_ends_publish Demo.builtins _ Demo.runtime
           Demo.rejecting_dsl None Demo.article None Demo.state0 Demo.state0
           Demo.drafts_wa Ht).
Defined.

(** X22 at work on a definition that publishes without drafts. *)
Lemma publish_endpoint_witness :
  exists r st',
    endpoint Demo.direct_dsl "publish" = Some Demo.publish_ep
    /\ wants_draftOnly (W := Demo.World) None = false
    /\ publish (B := Demo.builtins) (R := Demo.runtime) Demo.direct_dsl None
         Demo.article None Demo.state0 = (Ok r, st')
    /\ success r = true
    /\ exists wa st1 context pr stp,
         publish_transform (B := Demo.builtins) (W := Demo.World)
           Demo.direct_dsl None Demo.article None Demo.state0 = (Ok wa, st1)
         /\ executeEndpoint (B := Demo.builtins) (R := Demo.runtime) None
              Demo.publish_ep (VObj context) stp = (Ok pr, st')
         /\ postId r = obj_get (extracted pr) "post_id"
         /\ postUrl r = obj_get (extracted pr) "post_url"
         /\ obj_get context "article" = VObj wa
         /\ map fst context
            = match endpoint Demo.direct_dsl "create_draft" with
              | Some _ => ["article"; "draft_id"]
              | None => ["article"]
              end
         /\ trace st' = EvExecute Demo.publish_ep (VObj context) :: trace stp.
Proof.
  eexists _, _.
  split; [reflexivity|]. split; [reflexivity|].
  split; [vm_compute; reflexivity|]. split; [reflexivity|].
  refine (@publish_endpoint_gives_the_ids Demo.builtins _ Demo.runtime
            Demo.direct_dsl None Demo.article None Demo.state0 _ _
            Demo.publish_ep eq_refl eq_refl _ _);
    [vm_compute; reflexivity | reflexivity].
Defined.


(** X25 at work: a concurrency of zero. *)
Lemma nonpositive_concurrency_witness :
  concurrency (Demo.options 0 true None) = Some 0%Z
  /\ (0 <= 0)%Z
  /\ ["drafts"] <> []
  /\ (forall fuel, chunk_loop fuel ["drafts"] 0 0 = None)
  /\ sync (B := Demo.builtins) (R := Demo.runtime) (G := Demo.registry)
       Demo.article ["drafts"] (Demo.options 0 true None) Demo.state0 = None
  /\ SyncEngine_sync (B := Demo.builtins) (R := Demo.runtime)
       (G := Demo.registry) Demo.stored_tasks Demo.article ["drafts"]
       (Demo.options 0 true None) Demo.state0 = None.
Proof.
  assert (Hne : ["drafts"] <> @nil string) by discriminate.
  split; [reflexivity|]. split; [apply Z.le_refl|]. split; [exact Hne|].
  exact (@nonpositive_concurrency_never_returns Demo.builtins _ Demo.runtime
           Demo.registry Demo.article ["drafts"] (Demo.options 0 true None)
           0%Z Demo.stored_tasks Demo.state0 eq_refl (Z.le_refl 0) Hne).
Defined.

(* ------------------------------------------------------------------ *)
(** ** Further examples *)

(** Three attempts at a host that cannot be reached, and none at all. *)
Example requestWithRetry_examples :
  (exists st',
     requestWithRetry (B := Demo.builtins) (R := Demo.runtime)
       (T := Demo.timers) "https://offline.example.com/api"
       {| ri_method := GET; ri_headers := []; ri_body := None |} None
       Demo.state0
     = (Rejected (Some (Error "Failed to fetch")),
        [Attempt (Throw (Error "Failed to fetch")); Delay 1000;
         Attempt (Throw (Error "Failed to fetch")); Delay 2000;
         Attempt (Throw (Error "Failed to fetch"))], st')
     /\ Demo.clock (world st') = 4003%Z)
  /\ requestWithRetry (B := Demo.builtins) (R := Demo.runtime)
       (T := Demo.timers) "https://example.com/api"
       {| ri_method := GET; ri_headers := []; ri_body := None |} (Some 0%Z)
       Demo.state0
     = (Rejected None, [], Demo.state0)
  /\ exists st',
       requestWithRetry (B := Demo.builtins) (R := Demo.runtime)
         (T := Demo.timers) "https://example.com/api"
         {| ri_method := GET; ri_headers := []; ri_body := None |} None
         Demo.state0
       = (Resolved Demo.json_ok, [Attempt (Ok Demo.json_ok)], st').
Proof.
  split; [|split].
  - eexists. split; [vm_compute; reflexivity | reflexivity].
  - vm_compute. reflexivity.
  - eexists. vm_compute. reflexivity.
Qed.

(** The hook answers with an empty [src] and a [url]: [uploadImageByUrl]
    takes the [url], the cover step of [publish] takes the empty [src]. *)
Example upload_results :
  fst (uploadImageByUrl (Some Demo.upload_object)
         "https://example.com/c.png" Demo.state0)
  = Ok (VStr "https://cdn.example.com/c.png")
  /\ fst (upload_cover (Some Demo.upload_object) Demo.article_with_cover
            Demo.state0)
     = Ok (obj_set Demo.article_with_cover "cover" (VStr ""))
  /\ fst (uploadImageByUrl (W := Demo.World) None
            "https://example.com/c.png" Demo.state0)
     = Throw (Error "Platform does not support URL-based image upload").
Proof. repeat split; vm_compute; reflexivity. Qed.

(** The answer of the examples has no [data.list]: the categories are the
    empty list. *)
Example getCategories_examples :
  fst (getCategories (B := Demo.builtins) (R := Demo.runtime)
         Demo.categories_dsl None Demo.state0) = Ok (VArr [])
  /\ getCategories (B := Demo.builtins) (R := Demo.runtime)
       Demo.drafts_dsl None Demo.state0 = (Ok (VArr []), Demo.state0).
Proof. split; vm_compute; reflexivity. Qed.

Example clearCompleted_example :
  clearCompleted Demo.stored_tasks
  = [("task_1", Demo.stored_task "task_1" running)].
Proof. reflexivity. Qed.

(** A body with a list: the list is sent as an object. *)
Example interpolateObject_example :
  interpolateObject (B := Demo.builtins)
    [("title", VStr "{{article.title}}");
     ("tags", VArr [VStr "a"; VStr "{{article.title}}"]);
     ("images", VArr []);
     ("count", VNum 2)]
    (VObj [("article", VObj Demo.article)])
  = Ok [("title", VStr "Hello");
        ("tags", VObj [("0", VStr "a"); ("1", VStr "Hello")]);
        ("images", VObj []);
        ("count", VNum 2)].
Proof. vm_compute. reflexivity. Qed.

(** A number in quotes is a string, and is not equal to the number. *)
Example quoted_number_example :
  evaluateJsonPath "$.code == 0" Demo.json_ok = Ok (VBool true)
  /\ evaluateJsonPath ("$.code == " ++ squote ++ "0" ++ squote) Demo.json_ok
     = Ok (VBool false)
  /\ evaluateJsonPath "$.missing != null" Demo.json_ok = Ok (VBool true)
  /\ evaluateJsonPath "$.missing == undefined" Demo.json_ok = Ok (VBool true).
Proof. repeat split; vm_compute; reflexivity. Qed.

Example escapeHtml_example :
  escapeHtml "if (a < b && c > 'd') {}"
  = "if (a &lt; b &amp;&amp; c &gt; &#039;d&#039;) {}".
Proof. vm_compute. reflexivity. Qed.

Example compactHtml_example :
  compactHtml "  <p>a b</p>   <p> c</p> <br/>  "
  = "<p>a b</p><p> c</p><br/>".
Proof. vm_compute. reflexivity. Qed.
